(** * voice_server: the speaker-recognition pipeline, embedded and verified

    A shallow embedding of [internal/speaker] (the Qdrant vector-store client,
    the speaker [Manager], the [StreamingIdentifier] session and the HTTP
    handlers) together with the properties of its specification.

    Conventions of the embedding
    - Go [int], [int64], [uint32] and [uint64] values are [Z]; wrap-around is
      written out where the source relies on it (the 64-bit FNV-1a state).
    - Go [string] is [string] (a sequence of bytes).
    - Go [float32] and [float64] are IEEE-754 binary32 and binary64 values,
      modelled by [spec_float] with the operations of [SpecFloat] at
      precision 24 / 53, rounding to nearest even as the hardware does.
    - A Go function returning [(T, error)] returns [result T]; the error
      carries the message text, since the handlers dispatch on it.
    - The external collaborators (the vector database, the embedding model,
      the voice activity detector) are explicit state or section variables. *)

From Stdlib Require Import ZArith Lia String Ascii List Bool Reals Lra.
From Stdlib Require Import Floats.SpecFloat.
From stdpp Require Import gmap strings list fin_maps.

Local Open Scope Z_scope.

(** ** Errors *)

Inductive result (A : Type) : Type :=
  | Ok (a : A)
  | Err (msg : string).
Arguments Ok {A} a.
Arguments Err {A} msg.

Definition is_ok {A} (r : result A) : bool :=
  match r with Ok _ => true | Err _ => false end.

#[global] Instance result_ret : MRet result := fun A a => Ok a.
#[global] Instance result_bind : MBind result := fun A B f r =>
  match r with Ok a => f a | Err msg => Err msg end.

(** [fmt.Errorf(prefix + ": %v", err)] *)
Definition wrap_err {A} (prefix : string) (r : result A) : result A :=
  match r with Ok a => Ok a | Err msg => Err (prefix +:+ msg) end.

(** [strings.Contains(s, sub)] *)
Fixpoint strings_Contains (s sub : string) : bool :=
  String.prefix sub s ||
  match s with
  | EmptyString => false
  | String _ s' => strings_Contains s' sub
  end.

(** ** Stateful, fallible computations

    A Go method that mutates its receiver or talks to a collaborator and
    returns [(T, error)] is a function from the state before to the result
    and the state after.  The state survives an error. *)

Definition ST (S A : Type) : Type := S -> result A * S.

Definition st_ret {S A} (a : A) : ST S A := fun s => (Ok a, s).

Definition st_fail {S A} (msg : string) : ST S A := fun s => (Err msg, s).

Definition st_bind {S A B} (m : ST S A) (k : A -> ST S B) : ST S B := fun s =>
  match m s with
  | (Ok a, s') => k a s'
  | (Err msg, s') => (Err msg, s')
  end.

(** [if err != nil { return fmt.Errorf(prefix + "%v", err) }] *)
Definition st_wrap {S A} (prefix : string) (m : ST S A) : ST S A := fun s =>
  let '(r, s') := m s in (wrap_err prefix r, s').

Notation "'do' x <- m ; k" := (st_bind m (fun x => k))
  (at level 10, x name, m at level 100, k at level 200).

(** ** IEEE-754 arithmetic of the Go numeric types *)

Module F32.
Definition prec : Z := 24.
Definition emax : Z := 128.

Definition float32 : Type := spec_float.

Definition of_Z (n : Z) : float32 := binary_normalize prec emax n 0 false.
Definition zero : float32 := S754_zero false.
Definition one : float32 := of_Z 1.
Definition neg_one : float32 := of_Z (-1).

Definition add : float32 -> float32 -> float32 := SFadd prec emax.
Definition sub : float32 -> float32 -> float32 := SFsub prec emax.
Definition mul : float32 -> float32 -> float32 := SFmul prec emax.
Definition div : float32 -> float32 -> float32 := SFdiv prec emax.
Definition ltb : float32 -> float32 -> bool := SFltb.
Definition eqb : float32 -> float32 -> bool := SFeqb.
Definition leb : float32 -> float32 -> bool := SFleb.

Definition is_nan (x : float32) : bool :=
  match x with S754_nan => true | _ => false end.

(** a decimal literal [m * 10^-k] rounded to binary32, for examples *)
Definition of_decimal (m : Z) (k : positive) : float32 :=
  div (of_Z m) (of_Z (10 ^ Zpos k)).
End F32.

Module F64.
Definition prec : Z := 53.
Definition emax : Z := 1024.

Definition float64 : Type := spec_float.

Definition of_Z (n : Z) : float64 := binary_normalize prec emax n 0 false.
Definition mul : float64 -> float64 -> float64 := SFmul prec emax.
Definition sqrt : float64 -> float64 := SFsqrt prec emax.

(** [float64(x)] for [x : float32]: exact *)
Definition of_float32 (x : F32.float32) : float64 :=
  match x with
  | S754_finite s m e => binary_round prec emax s m e
  | _ => x
  end.

(** [float32(x)] for [x : float64]: rounds to nearest even *)
Definition to_float32 (x : float64) : F32.float32 :=
  match x with
  | S754_finite s m e => binary_round F32.prec F32.emax s m e
  | _ => x
  end.

(** The constant [0.1] as a float64: 0x3FB999999999999A *)
Definition one_tenth : float64 := S754_finite false 7205759403792794 (-56).

(** [int(x)] for a float64 in the range of [int]: truncation toward zero.
    Infinities and NaN cannot be represented; the source only converts
    products of a sample rate and 0.1, which are finite. *)
Definition to_int (x : float64) : Z :=
  match x with
  | S754_finite s m e =>
      let a := if 0 <=? e then Z.shiftl (Zpos m) e else Z.shiftr (Zpos m) (- e) in
      if s then - a else a
  | _ => 0
  end.
End F64.

Abbreviation float32 := F32.float32.

(** ** hash/fnv: the 64-bit FNV-1a hash *)

Module Fnv.
Definition offset64 : Z := 14695981039346656037.
Definition prime64 : Z := 1099511628211.

(** the state of a [fnv.New64a()] hasher is one [uint64] *)
Definition New64a : Z := offset64.

(** [Write]: for each byte, xor then multiply; the product is kept to its
    low 64 bits, as [uint64] arithmetic does *)
Definition Write (h : Z) (data : list Z) : Z :=
  fold_left (fun hash c => Z.land (Z.lxor hash c * prime64) (Z.ones 64)) data h.

Definition Sum64 (h : Z) : Z := h.
End Fnv.

(** [[]byte(s)] *)
Definition bytes_of_string (s : string) : list Z :=
  map (fun c => Z.of_N (N_of_ascii c)) (list_ascii_of_string s).

(** [%d] of [fmt.Sprintf] on an [int]: decimal digits, least significant
    first into the accumulator, with a leading minus sign. *)
Fixpoint fmt_digits (fuel : nat) (n : N) (acc : string) : string :=
  match fuel with
  | O => acc
  | S k =>
      let acc' := String (ascii_of_N (48 + n mod 10)) acc in
      if (n <? 10)%N then acc' else fmt_digits k (n / 10)%N acc'
  end.

Definition fmt_d (z : Z) : string :=
  let u := Z.abs_N z in
  let s := fmt_digits (S (N.size_nat u)) u "" in
  if z <? 0 then String "-" s else s.

(** [generatePointID]: [fmt.Sprintf("%s:%s:%s:%d", ...)] hashed with FNV-1a *)
Definition generatePointID (uid agentID speakerID : string) (sampleIndex : Z) : Z :=
  let hash := Fnv.New64a in
  let hash := Fnv.Write hash
    (bytes_of_string (uid +:+ ":" +:+ agentID +:+ ":" +:+ speakerID +:+ ":" +:+ fmt_d sampleIndex)) in
  Fnv.Sum64 hash.

(** The point ID as the specification words it: the 64-bit FNV-1a hash of the
    four fields joined with [:].  FNV-1a is given by its recurrence over the
    bytes, last byte outermost. *)
Fixpoint fnv1a64_spec_rev (rev_bytes : list Z) : Z :=
  match rev_bytes with
  | [] => 14695981039346656037
  | b :: rest => (Z.lxor (fnv1a64_spec_rev rest) b * 1099511628211) mod 2 ^ 64
  end.

Definition fnv1a64_spec (s : string) : Z :=
  fnv1a64_spec_rev (rev (bytes_of_string s)).

Definition joined_key_spec (uid agentID speakerID : string) (sampleIndex : Z) : string :=
  String.concat ":" [uid; agentID; speakerID; fmt_d sampleIndex].

(** ** The external vector database

    The store is an external collaborator.  It is modelled as explicit state:
    named collections of points, a fault plan saying which RPCs currently
    fail (with the error text the store reports), the log of RPCs issued and
    whether each succeeded, and the store's own nearest-neighbour ranking,
    which is opaque. *)

Module Qdrant.
Inductive Value : Type :=
  | StringValue (s : string)
  | IntegerValue (z : Z).

#[global] Instance Value_eq_dec : EqDecision Value.
Proof. solve_decision. Defined.

Definition GetStringValue (v : Value) : string :=
  match v with StringValue s => s | IntegerValue _ => "" end.

Definition GetIntegerValue (v : Value) : Z :=
  match v with IntegerValue z => z | StringValue _ => 0 end.

Record PointStruct : Type := {
  ps_Id : Z;
  ps_Vectors : list float32;
  ps_Payload : gmap string Value;
}.

Record ScoredPoint : Type := {
  sp_Id : Z;
  sp_Payload : option (gmap string Value);
  sp_Score : float32;
}.

Record RetrievedPoint : Type := {
  rp_Id : Z;
  rp_Payload : option (gmap string Value);
}.

(** [qdrant.NewMatch(field, keyword)]: the field equals the keyword *)
Inductive Condition : Type :=
  | NewMatch (field keyword : string).

Record Filter : Type := { Must : list Condition }.

Record QueryPoints : Type := {
  qp_CollectionName : string;
  qp_Query : list float32;
  qp_Filter : option Filter;
  qp_Limit : Z;
  qp_WithPayload : bool;
}.

Record ScrollPoints : Type := {
  sc_CollectionName : string;
  sc_Filter : option Filter;
  sc_Limit : Z;
  sc_WithPayload : bool;
}.

Inductive RPC : Type :=
  | GetCollectionInfo | CreateCollection | Upsert | Query | Scroll | Delete.

#[global] Instance RPC_eq_dec : EqDecision RPC.
Proof. solve_decision. Defined.

Record Collection : Type := {
  vector_size : Z;
  points : gmap Z PointStruct;
}.

(** a logged RPC with the request it carried *)
Inductive RpcCall : Type :=
  | RpcGetCollectionInfo (name : string)
  | RpcCreateCollection (name : string) (size : Z)
  | RpcUpsert (name : string) (ps : list PointStruct)
  | RpcQuery (q : QueryPoints)
  | RpcScroll (q : ScrollPoints)
  | RpcDelete (name : string) (ids : list Z).

Definition rpc_of (c : RpcCall) : RPC :=
  match c with
  | RpcGetCollectionInfo _ => GetCollectionInfo
  | RpcCreateCollection _ _ => CreateCollection
  | RpcUpsert _ _ => Upsert
  | RpcQuery _ => Query
  | RpcScroll _ => Scroll
  | RpcDelete _ _ => Delete
  end.

Record Server : Type := {
  collections : gmap string Collection;
  faults : RPC -> option string;
  calls : list (RpcCall * bool);      (* with the outcome; most recent first *)
  missing_collection : string;
  knn : list float32 -> list PointStruct -> list ScoredPoint;
}.

(** *** What a filter means *)

Definition condition_holds (payload : gmap string Value) (c : Condition) : bool :=
  match c with
  | NewMatch field keyword => bool_decide (payload !! field = Some (StringValue keyword))
  end.

Definition filter_holds (f : option Filter) (payload : gmap string Value) : bool :=
  match f with
  | None => true
  | Some f => forallb (condition_holds payload) (Must f)
  end.

Definition candidates (f : option Filter) (c : Collection) : list PointStruct :=
  filter (fun p => filter_holds f (ps_Payload p) = true) (map snd (map_to_list (points c))).

(** *** The RPCs, as state transformers with a result *)

Definition log (r : RpcCall) (ok : bool) (s : Server) : Server :=
  {| collections := collections s; faults := faults s; calls := (r, ok) :: calls s;
     missing_collection := missing_collection s; knn := knn s |}.

Definition set_collections (cs : gmap string Collection) (s : Server) : Server :=
  {| collections := cs; faults := faults s; calls := calls s;
     missing_collection := missing_collection s; knn := knn s |}.

(** every RPC is logged with its outcome; it fails when the fault plan says
    so, and otherwise as the store answers *)
Definition rpc {A} (r : RpcCall) (body : ST Server A) : ST Server A := fun s =>
  match faults s (rpc_of r) with
  | Some msg => (Err msg, log r false s)
  | None => let '(res, s') := body s in (res, log r (is_ok res) s')
  end.

Definition with_collection {A} (name : string) (k : Collection -> ST Server A) : ST Server A := fun s =>
  match collections s !! name with
  | Some c => k c s
  | None => (Err (missing_collection s), s)
  end.

Definition client_GetCollectionInfo (name : string) : ST Server Z :=
  rpc (RpcGetCollectionInfo name) (with_collection name (fun c => st_ret (vector_size c))).

Definition client_CreateCollection (name : string) (size : Z) : ST Server unit :=
  rpc (RpcCreateCollection name size) (fun s =>
    match collections s !! name with
    | Some _ => (Err ("collection already exists"), s)
    | None =>
        (Ok tt, set_collections (<[name := {| vector_size := size; points := ∅ |}]> (collections s)) s)
    end).

Definition upsert_points (ps : list PointStruct) (m : gmap Z PointStruct) : gmap Z PointStruct :=
  fold_left (fun m p => <[ps_Id p := p]> m) ps m.

Definition client_Upsert (name : string) (ps : list PointStruct) : ST Server unit :=
  rpc (RpcUpsert name ps) (with_collection name (fun c s =>
    (Ok tt, set_collections
              (<[name := {| vector_size := vector_size c; points := upsert_points ps (points c) |}]>
                 (collections s)) s))).

Definition client_Query (q : QueryPoints) : ST Server (list ScoredPoint) :=
  rpc (RpcQuery q) (with_collection (qp_CollectionName q) (fun c s =>
    let hits := take (Z.to_nat (qp_Limit q)) (knn s (qp_Query q) (candidates (qp_Filter q) c)) in
    let hits := if qp_WithPayload q then hits
                else map (fun h => {| sp_Id := sp_Id h; sp_Payload := None; sp_Score := sp_Score h |}) hits in
    (Ok hits, s))).

Definition client_Scroll (q : ScrollPoints) : ST Server (list RetrievedPoint) :=
  rpc (RpcScroll q) (with_collection (sc_CollectionName q) (fun c =>
    st_ret (map (fun p => {| rp_Id := ps_Id p;
                          rp_Payload := if sc_WithPayload q then Some (ps_Payload p) else None |})
             (take (Z.to_nat (sc_Limit q)) (candidates (sc_Filter q) c))))).

Definition client_Delete (name : string) (ids : list Z) : ST Server unit :=
  rpc (RpcDelete name ids) (with_collection name (fun c s =>
    (Ok tt, set_collections
              (<[name := {| vector_size := vector_size c;
                            points := fold_left (fun m i => delete i m) ids (points c) |}]>
                 (collections s)) s))).
End Qdrant.

Import Qdrant.


(** ** The vector-store client: [QdrantVectorDB] *)

Record QdrantVectorDB : Type := {
  collectionName : string;
  embeddingDim : Z;
}.

Record SearchResult : Type := {
  sr_SpeakerID : string;
  sr_SpeakerName : string;
  sr_Confidence : float32;
  sr_Distance : float32;
  sr_SampleIndex : Z;
}.

(** [time.Time] values are Unix seconds; the zero [time.Time] is
    January 1, year 1, which is second -62135596800. *)
Definition time_IsZero (t : Z) : bool := t =? -62135596800.

Record SpeakerInfo : Type := {
  si_ID : string;
  si_Name : string;
  si_UUID : string;
  si_AgentID : string;
  si_SampleCount : Z;
  si_CreatedAt : Z;
  si_UpdatedAt : Z;
}.

(** *** [normalizeVector]

    The body is written once over the arithmetic it uses, and read at
    binary32 (what the program computes) and at the real numbers (what the
    formula in its comment means). *)

Class Arith (F : Type) : Type := {
  a_zero : F;
  a_add : F -> F -> F;
  a_mul : F -> F -> F;
  a_div : F -> F -> F;
  a_sqrt : F -> F;          (* float32(math.Sqrt(float64(x))) *)
  a_is_zero : F -> bool;    (* x == 0 *)
}.

#[global] Instance Arith_float32 : Arith float32 := {
  a_zero := F32.zero;
  a_add := F32.add;
  a_mul := F32.mul;
  a_div := F32.div;
  a_sqrt := fun x => F64.to_float32 (F64.sqrt (F64.of_float32 x));
  a_is_zero := fun x => F32.eqb x F32.zero;
}.


(** the loop [for _, val := range v { norm += val * val }] *)
Definition sum_squares {F} `{Arith F} (v : list F) : F :=
  fold_left (fun norm val => a_add norm (a_mul val val)) v a_zero.

Definition l2_norm {F} `{Arith F} (v : list F) : F := a_sqrt (sum_squares v).

Definition normalizeVector_in {F} `{Arith F} (v : list F) : list F :=
  let norm := l2_norm v in
  if a_is_zero norm then v
  else map (fun x => a_div x norm) v.

Definition normalizeVector (v : list float32) : list float32 := normalizeVector_in v.

(** *** Collection bootstrap and upsert *)

Definition ensureCollectionExists (db : QdrantVectorDB) : ST Server unit := fun s =>
  match client_GetCollectionInfo (collectionName db) s with
  | (Ok _, s1) => (Ok tt, s1)
  | (Err _, s1) =>
      st_wrap "failed to create collection: "
        (client_CreateCollection (collectionName db) (embeddingDim db mod 2 ^ 64)) s1
  end.

Definition insert_payload (uid agentID speakerID speakerName uuid : string)
    (sampleIndex createdAt updatedAt : Z) : gmap string Value :=
  <["uid" := StringValue uid]> (
  <["agent_id" := StringValue agentID]> (
  <["speaker_id" := StringValue speakerID]> (
  <["speaker_name" := StringValue speakerName]> (
  <["uuid" := StringValue uuid]> (
  <["sample_index" := IntegerValue sampleIndex]> (
  <["created_at" := IntegerValue createdAt]> (
  <["updated_at" := IntegerValue updatedAt]> ∅))))))).

Definition insert_point (uid agentID speakerID speakerName uuid : string)
    (embedding : list float32) (sampleIndex createdAt updatedAt : Z) : PointStruct :=
  {| ps_Id := generatePointID uid agentID speakerID sampleIndex;
     ps_Vectors := embedding;
     ps_Payload := insert_payload uid agentID speakerID speakerName uuid
                     sampleIndex createdAt updatedAt |}.

Definition Insert (db : QdrantVectorDB) (uid agentID speakerID speakerName uuid : string)
    (embedding : list float32) (sampleIndex createdAt updatedAt : Z) : ST Server unit :=
  do _ <- st_wrap "failed to ensure collection exists: " (ensureCollectionExists db);
  let point := insert_point uid agentID speakerID speakerName uuid
                 embedding sampleIndex createdAt updatedAt in
  do _ <- st_wrap "failed to insert point: " (client_Upsert (collectionName db) [point]);
  st_ret tt.

(** *** Search *)

(** [limit := uint64(topK); if limit == 0 { limit = 1 }] *)
Definition search_limit (topK : Z) : Z :=
  let limit := topK mod 2 ^ 64 in
  if limit =? 0 then 1 else limit.

(** the [conditions] slice of [SearchWithOptionalFilters] *)
Definition optional_conditions (uid agentID speakerID speakerName : string) : list Condition :=
  let conditions := [] in
  let conditions := if bool_decide (uid <> "") then conditions ++ [NewMatch "uid" uid] else conditions in
  let conditions := if bool_decide (agentID <> "") then conditions ++ [NewMatch "agent_id" agentID] else conditions in
  let conditions := if bool_decide (speakerID <> "") then conditions ++ [NewMatch "speaker_id" speakerID] else conditions in
  let conditions := if bool_decide (speakerName <> "") then conditions ++ [NewMatch "speaker_name" speakerName] else conditions in
  conditions.

Definition optional_filter (uid agentID speakerID speakerName : string) : option Filter :=
  let conditions := optional_conditions uid agentID speakerID speakerName in
  if (0 <? Z.of_nat (length conditions)) then Some {| Must := conditions |} else None.

(** the [QueryPoints] request that [SearchWithOptionalFilters] submits *)
Definition SearchWithOptionalFilters_request (db : QdrantVectorDB)
    (uid agentID speakerID speakerName : string) (queryEmbedding : list float32)
    (topK : Z) : QueryPoints :=
  let filter := optional_filter uid agentID speakerID speakerName in
  let limit := search_limit topK in
  let normalizedQueryEmbedding := normalizeVector queryEmbedding in
  {| qp_CollectionName := collectionName db;
     qp_Query := normalizedQueryEmbedding;
     qp_Filter := filter;
     qp_Limit := limit;
     qp_WithPayload := true |}.

(** the clamp of both result loops *)
Definition clamp_score (score : float32) : float32 :=
  if F32.ltb score F32.neg_one then F32.neg_one
  else if F32.ltb F32.one score then F32.one
  else score.

Definition payload_string (payload : gmap string Value) (key : string) : string :=
  match payload !! key with Some val => GetStringValue val | None => "" end.

Definition payload_integer (payload : gmap string Value) (key : string) : Z :=
  match payload !! key with Some val => GetIntegerValue val | None => 0 end.

(** one iteration of the result loop: [None] is [continue] *)
Definition convert_point (threshold : float32) (point : ScoredPoint) : option SearchResult :=
  match sp_Payload point with
  | None => None
  | Some payload =>
      let speakerID := payload_string payload "speaker_id" in
      let speakerName := payload_string payload "speaker_name" in
      let sampleIndex := payload_integer payload "sample_index" in
      let score := sp_Score point in
      let confidence := clamp_score score in
      if F32.ltb confidence threshold then None
      else
        let distance := F32.sub F32.one confidence in
        Some {| sr_SpeakerID := speakerID; sr_SpeakerName := speakerName;
                sr_Confidence := confidence; sr_Distance := distance;
                sr_SampleIndex := sampleIndex |}
  end.

Definition convert_points (threshold : float32) (searchPoints : list ScoredPoint) : list SearchResult :=
  omap (convert_point threshold) searchPoints.

Definition SearchWithOptionalFilters (db : QdrantVectorDB)
    (uid agentID speakerID speakerName : string) (queryEmbedding : list float32)
    (threshold : float32) (topK : Z) : ST Server (list SearchResult) :=
  do searchPoints <- st_wrap "failed to search: "
       (client_Query (SearchWithOptionalFilters_request db uid agentID speakerID speakerName
                        queryEmbedding topK));
  st_ret (convert_points threshold searchPoints).

Definition Search (db : QdrantVectorDB) (uid : string) (queryEmbedding : list float32)
    (threshold : float32) (topK : Z) : ST Server (list SearchResult) :=
  SearchWithOptionalFilters db uid "" "" "" queryEmbedding threshold topK.

(** the filter shared by the strict search, the count, the info lookup and
    the delete: [uid] and a second field always, [agent_id] when not empty *)
Definition strict_filter (uid field value agentID : string) : Filter :=
  let conditions := [NewMatch "uid" uid; NewMatch field value] in
  let conditions := if bool_decide (agentID <> "") then conditions ++ [NewMatch "agent_id" agentID]
                    else conditions in
  {| Must := conditions |}.

(** the [QueryPoints] request that [SearchWithFilter] submits *)
Definition SearchWithFilter_request (db : QdrantVectorDB) (uid agentID speakerID : string)
    (queryEmbedding : list float32) (topK : Z) : QueryPoints :=
  let filter := strict_filter uid "speaker_id" speakerID agentID in
  let limit := search_limit topK in
  {| qp_CollectionName := collectionName db;
     qp_Query := queryEmbedding;
     qp_Filter := Some filter;
     qp_Limit := limit;
     qp_WithPayload := true |}.

Definition SearchWithFilter (db : QdrantVectorDB) (uid agentID speakerID : string)
    (queryEmbedding : list float32) (threshold : float32) (topK : Z)
    : ST Server (list SearchResult) :=
  do searchPoints <- st_wrap "failed to search: "
       (client_Query (SearchWithFilter_request db uid agentID speakerID queryEmbedding topK));
  st_ret (convert_points threshold searchPoints).

(** *** Scroll-based operations *)

Definition scroll_limit : Z := 10000.

Definition strict_scroll (db : QdrantVectorDB) (uid field value agentID : string)
    (withPayload : bool) : ScrollPoints :=
  {| sc_CollectionName := collectionName db;
     sc_Filter := Some (strict_filter uid field value agentID);
     sc_Limit := scroll_limit;
     sc_WithPayload := withPayload |}.

Definition GetSpeakerSampleCount (db : QdrantVectorDB) (uid agentID speakerID : string)
    : ST Server Z :=
  do scrollResult <- st_wrap "failed to scroll points: "
       (client_Scroll (strict_scroll db uid "speaker_id" speakerID agentID true));
  st_ret (Z.of_nat (length scrollResult)).

(** [point.GetPayload()] of a point without payload is the nil map *)
Definition GetPayload (point : RetrievedPoint) : gmap string Value :=
  default ∅ (rp_Payload point).

Definition info_times_step (acc : Z * Z) (point : RetrievedPoint) : Z * Z :=
  let '(minCreatedAt, maxUpdatedAt) := acc in
  let payload := GetPayload point in
  let minCreatedAt :=
    match payload !! "created_at" with
    | Some val =>
        let ts := GetIntegerValue val in
        if (minCreatedAt =? -1) || (ts <? minCreatedAt) then ts else minCreatedAt
    | None => minCreatedAt
    end in
  let maxUpdatedAt :=
    match payload !! "updated_at" with
    | Some val =>
        let ts := GetIntegerValue val in
        if maxUpdatedAt <? ts then ts else maxUpdatedAt
    | None => maxUpdatedAt
    end in
  (minCreatedAt, maxUpdatedAt).

Definition GetSpeakerInfo (now : Z) (db : QdrantVectorDB) (uid agentID speakerID : string)
    : ST Server SpeakerInfo :=
  do scrollResult <- st_wrap "failed to scroll points: "
       (client_Scroll (strict_scroll db uid "speaker_id" speakerID agentID true));
  match scrollResult with
  | [] => st_fail ("speaker " +:+ speakerID +:+ " not found")
  | firstPoint :: _ =>
      let speakerName := payload_string (GetPayload firstPoint) "speaker_name" in
      let '(minCreatedAt, maxUpdatedAt) := fold_left info_times_step scrollResult (-1, -1) in
      let minCreatedAt := if minCreatedAt =? -1 then now else minCreatedAt in
      let maxUpdatedAt := if maxUpdatedAt =? -1 then now else maxUpdatedAt in
      st_ret {| si_ID := speakerID; si_Name := speakerName; si_UUID := ""; si_AgentID := "";
                    si_SampleCount := Z.of_nat (length scrollResult);
                    si_CreatedAt := minCreatedAt; si_UpdatedAt := maxUpdatedAt |}
  end.

(** the filter of [GetAllSpeakers]: [uid], and [agent_id] when not empty *)
Definition list_filter (uid agentID : string) : Filter :=
  let conditions := [NewMatch "uid" uid] in
  let conditions := if bool_decide (agentID <> "") then conditions ++ [NewMatch "agent_id" agentID]
                    else conditions in
  {| Must := conditions |}.

(** one iteration of the aggregation loop over the scrolled points; the
    [*SpeakerInfo] stored in the map is updated in place *)
Definition aggregate_step (speakerMap : gmap string SpeakerInfo) (point : RetrievedPoint)
    : gmap string SpeakerInfo :=
  let payload := GetPayload point in
  let speakerID := payload_string payload "speaker_id" in
  let speakerName := payload_string payload "speaker_name" in
  let uuid := payload_string payload "uuid" in
  let agentID := payload_string payload "agent_id" in
  let createdAt := payload_integer payload "created_at" in
  let updatedAt := payload_integer payload "updated_at" in
  if bool_decide (speakerID = "") then speakerMap
  else
    let info :=
      match speakerMap !! speakerID with
      | Some info => info
      | None => {| si_ID := speakerID; si_Name := speakerName; si_UUID := uuid;
                   si_AgentID := agentID; si_SampleCount := 0;
                   si_CreatedAt := createdAt; si_UpdatedAt := updatedAt |}
      end in
    let created :=
      if (0 <? createdAt) &&
         (time_IsZero (si_CreatedAt info) || (createdAt <? si_CreatedAt info))
      then createdAt else si_CreatedAt info in
    let updated :=
      if (0 <? updatedAt) &&
         (time_IsZero (si_UpdatedAt info) || (si_UpdatedAt info <? updatedAt))
      then updatedAt else si_UpdatedAt info in
    <[speakerID := {| si_ID := si_ID info; si_Name := si_Name info; si_UUID := si_UUID info;
                      si_AgentID := si_AgentID info;
                      si_SampleCount := si_SampleCount info + 1;
                      si_CreatedAt := created; si_UpdatedAt := updated |}]> speakerMap.

(** The result slice is filled by ranging over the Go map, whose iteration
    order is unspecified; the order of [map_to_list] stands for it. *)
Definition GetAllSpeakers (db : QdrantVectorDB) (uid agentID : string)
    : ST Server (list SpeakerInfo) :=
  do scrollResult <- st_wrap "failed to scroll points: "
       (client_Scroll {| sc_CollectionName := collectionName db;
                         sc_Filter := Some (list_filter uid agentID);
                         sc_Limit := scroll_limit;
                         sc_WithPayload := true |});
  let speakerMap := fold_left aggregate_step scrollResult ∅ in
  st_ret (map snd (map_to_list speakerMap)).

Definition DeleteSpeaker (db : QdrantVectorDB) (uid agentID speakerID : string)
    : ST Server unit :=
  do scrollResult <- st_wrap "failed to scroll points: "
       (client_Scroll (strict_scroll db uid "speaker_id" speakerID agentID false));
  match scrollResult with
  | [] => st_ret tt
  | _ =>
      let ids := map rp_Id scrollResult in
      do _ <- st_wrap "failed to delete points: " (client_Delete (collectionName db) ids);
      st_ret tt
  end.

Definition DeleteSpeakerByUUID (db : QdrantVectorDB) (uid agentID uuid : string)
    : ST Server unit :=
  do scrollResult <- st_wrap "failed to scroll points: "
       (client_Scroll (strict_scroll db uid "uuid" uuid agentID false));
  match scrollResult with
  | [] => st_fail ("speaker with uuid " +:+ uuid +:+ " not found for uid " +:+ uid)
  | _ =>
      let ids := map rp_Id scrollResult in
      do _ <- st_wrap "failed to delete points: " (client_Delete (collectionName db) ids);
      st_ret tt
  end.

(** ** The native speech library (sherpa-onnx)

    Streams are native objects addressed by a handle.  The library state
    records the live streams with the audio pushed into them, the next free
    handle, and the log of [DeleteOnlineStream] calls, most recent first. *)

Record OnlineStream : Type := {
  os_chunks : list (Z * list float32);   (* (sample rate, samples), oldest first *)
  os_inputFinished : bool;
}.

Record Sherpa : Type := {
  streams : gmap nat OnlineStream;
  next_handle : nat;
  deleted : list nat;
}.

Definition CreateStream (sh : Sherpa) : nat * Sherpa :=
  (next_handle sh,
   {| streams := <[next_handle sh := {| os_chunks := []; os_inputFinished := false |}]> (streams sh);
      next_handle := S (next_handle sh);
      deleted := deleted sh |}).

Definition AcceptWaveform (stream : nat) (sampleRate : Z) (samples : list float32)
    (sh : Sherpa) : Sherpa :=
  {| streams := alter (fun st => {| os_chunks := os_chunks st ++ [(sampleRate, samples)];
                                    os_inputFinished := os_inputFinished st |})
                      stream (streams sh);
     next_handle := next_handle sh;
     deleted := deleted sh |}.

Definition InputFinished (stream : nat) (sh : Sherpa) : Sherpa :=
  {| streams := alter (fun st => {| os_chunks := os_chunks st; os_inputFinished := true |})
                      stream (streams sh);
     next_handle := next_handle sh;
     deleted := deleted sh |}.

Definition DeleteOnlineStream (stream : nat) (sh : Sherpa) : Sherpa :=
  {| streams := delete stream (streams sh);
     next_handle := next_handle sh;
     deleted := stream :: deleted sh |}.

(** how often a handle has been passed to [DeleteOnlineStream] *)
Definition release_count (stream : nat) (sh : Sherpa) : nat :=
  length (filter (fun h => h = stream) (deleted sh)).

(** ** Values shared by the manager and the handlers *)

Record World : Type := {
  w_sherpa : Sherpa;
  w_store : Server;
}.

Definition on_store {A} (m : ST Server A) : ST World A := fun w =>
  let '(r, s') := m (w_store w) in
  (r, {| w_sherpa := w_sherpa w; w_store := s' |}).

Definition set_sherpa (sh : Sherpa) (w : World) : World :=
  {| w_sherpa := sh; w_store := w_store w |}.

Inductive VADInstance (VadHandle : Type) : Type :=
  | TenVADInstance (Handle : VadHandle)
  | OtherVADInstance.
Arguments TenVADInstance {VadHandle} Handle.
Arguments OtherVADInstance {VadHandle}.

(** a pool is known here by what its [Get] answers *)
Record VADPool (VadHandle : Type) : Type := {
  pool_Get : result (VADInstance VadHandle);
}.
Arguments pool_Get {VadHandle} _.

Record Manager (VadHandle : Type) : Type := {
  m_threshold : float32;
  m_embeddingDim : Z;
  vectorDB : QdrantVectorDB;
  vadPool : option (VADPool VadHandle);
}.
Arguments m_threshold {VadHandle} _.
Arguments m_embeddingDim {VadHandle} _.
Arguments vectorDB {VadHandle} _.
Arguments vadPool {VadHandle} _.

Record IdentifyResult : Type := {
  ir_Identified : bool;
  ir_SpeakerID : string;
  ir_SpeakerName : string;
  ir_Confidence : float32;
  ir_Threshold : float32;
}.

Record VerifyResult : Type := {
  vr_SpeakerID : string;
  vr_SpeakerName : string;
  vr_Verified : bool;
  vr_Confidence : float32;
  vr_Threshold : float32;
}.

Record DatabaseStats : Type := {
  ds_TotalSpeakers : Z;
  ds_TotalSamples : Z;
  ds_EmbeddingDim : Z;
  ds_Threshold : float32;
  ds_Version : string;
  ds_UpdatedAt : Z;
}.

Record frameInfo : Type := {
  startIdx : Z;
  endIdx : Z;
  isSpeech : bool;
}.

(** [s[lo:hi]] on a slice whose capacity is its length; [None] is the
    run-time panic "slice bounds out of range" *)
Definition go_slice {A} (s : list A) (lo hi : Z) : option (list A) :=
  if (0 <=? lo) && (lo <=? hi) && (hi <=? Z.of_nat (length s))
  then Some (take (Z.to_nat (hi - lo)) (drop (Z.to_nat lo) s))
  else None.

(** the integer part of a finite float; [None] for infinities and NaN *)
Definition float_trunc (x : spec_float) : option Z :=
  match x with
  | S754_zero _ => Some 0
  | S754_finite s m e =>
      let a := if 0 <=? e then Z.shiftl (Zpos m) e else Z.shiftr (Zpos m) (- e) in
      Some (if s then - a else a)
  | _ => None
  end.

(** [silenceSamples := int(float64(sampleRate) * 0.1)] *)
Definition silenceSamples (sampleRate : Z) : Z :=
  F64.to_int (F64.mul (F64.of_Z sampleRate) F64.one_tenth).

(** the scan for the first and the last speech frame; indices are [-1]
    while no speech frame has been seen *)
Definition speech_scan_step (acc : Z * Z * Z) (frame : frameInfo) : Z * Z * Z :=
  let '(i, firstSpeechIdx, lastSpeechIdx) := acc in
  if isSpeech frame
  then (i + 1, (if firstSpeechIdx =? -1 then i else firstSpeechIdx), i)
  else (i + 1, firstSpeechIdx, lastSpeechIdx).

Definition speech_scan (frames : list frameInfo) : Z * Z :=
  let '(_, firstSpeechIdx, lastSpeechIdx) := fold_left speech_scan_step frames (0, -1, -1) in
  (firstSpeechIdx, lastSpeechIdx).

(** [s[i]]; [None] is the run-time panic "index out of range" *)
Definition go_index {A} (s : list A) (i : Z) : option A :=
  if 0 <=? i then s !! Z.to_nat i else None.

(** ** The speaker manager

    The embedding model and the voice activity detector are opaque: the
    section is parametric in what they answer.  [hopSize] is the configured
    VAD frame length.  The conversion [int16(x)] of a float that [int16]
    cannot represent yields an implementation-dependent value in Go, which
    is a parameter as well. *)

Section Service.

Context {VadHandle : Type}.
Variable extractor_IsReady : OnlineStream -> bool.
Variable extractor_Compute : OnlineStream -> list float32.
Variable ProcessAudio : VadHandle -> list Z -> VadHandle * result Z.
Variable hopSize : Z.
Variable int16_unrepresentable : float32 -> Z.

Definition IsReady (stream : nat) (sh : Sherpa) : bool :=
  match streams sh !! stream with
  | Some st => extractor_IsReady st
  | None => false
  end.

Definition Compute (stream : nat) (sh : Sherpa) : list float32 :=
  match streams sh !! stream with
  | Some st => extractor_Compute st
  | None => []
  end.

(** [extractEmbedding]: the stream is deleted by the deferred call on every
    return *)
Definition extractEmbedding (audioData : list float32) (sampleRate : Z)
    : ST World (list float32) := fun w =>
  let '(stream, sh) := CreateStream (w_sherpa w) in
  let sh := AcceptWaveform stream sampleRate audioData sh in
  let sh := InputFinished stream sh in
  if negb (IsReady stream sh)
  then (Err "insufficient audio data for embedding extraction",
        set_sherpa (DeleteOnlineStream stream sh) w)
  else
    let embedding := Compute stream sh in
    if Z.of_nat (length embedding) =? 0
    then (Err "failed to extract embedding", set_sherpa (DeleteOnlineStream stream sh) w)
    else (Ok embedding, set_sherpa (DeleteOnlineStream stream sh) w).

(** *** Silence trimming that keeps 100 ms at both edges *)

Definition to_int16 (x : float32) : Z :=
  match float_trunc x with
  | Some z => if (-32768 <=? z) && (z <=? 32767) then z else int16_unrepresentable x
  | None => int16_unrepresentable x
  end.

Definition frame_to_int16 (frame : list float32) : list Z :=
  map (fun f =>
         let f := if F32.ltb F32.one f then F32.one
                  else if F32.ltb f F32.neg_one then F32.neg_one
                  else f in
         to_int16 (F32.mul f (F32.of_Z 32768)))
      frame.

(** The framing loop [for i := 0; i < len(audioData); i += hopSize].
    [None] means that the loop does not return: a slice expression panics,
    or the iterations allowed by [fuel] are used up. *)
Fixpoint vad_frames_loop (fuel : nat) (audioData : list float32) (i : Z)
    (vad : VadHandle) (frames : list frameInfo) : option (result (list frameInfo)) :=
  if i <? Z.of_nat (length audioData) then
    match fuel with
    | O => None
    | S fuel' =>
        let end_ := i + hopSize in
        let end_ := if Z.of_nat (length audioData) <? end_
                    then Z.of_nat (length audioData) else end_ in
        match go_slice audioData i end_ with
        | None => None
        | Some frame =>
            let int16Frame := frame_to_int16 frame in
            match ProcessAudio vad int16Frame with
            | (_, Err msg) => Some (Err ("TEN-VAD ProcessAudio error: " +:+ msg))
            | (vad', Ok flag) =>
                vad_frames_loop fuel' audioData (i + hopSize) vad'
                  (frames ++ [{| startIdx := i; endIdx := end_; isSpeech := flag =? 1 |}])
            end
        end
    end
  else Some (Ok frames).

Definition keep_edges (audioData : list float32) (silenceSamples : Z)
    (frames : list frameInfo) : option (result (list float32)) :=
  let '(firstSpeechIdx, lastSpeechIdx) := speech_scan frames in
  if firstSpeechIdx =? -1 then Some (Ok [])
  else
    match go_index frames firstSpeechIdx, go_index frames lastSpeechIdx with
    | Some firstFrame, Some lastFrame =>
        let startIdx := startIdx firstFrame - silenceSamples in
        let startIdx := if startIdx <? 0 then 0 else startIdx in
        let endIdx := endIdx lastFrame + silenceSamples in
        let endIdx := if Z.of_nat (length audioData) <? endIdx
                      then Z.of_nat (length audioData) else endIdx in
        match go_slice audioData startIdx endIdx with
        | Some filteredAudio => Some (Ok filteredAudio)
        | None => None
        end
    | _, _ => None
    end.

Definition filterSilenceWithVADKeepEdges (fuel : nat) (m : Manager VadHandle)
    (audioData : list float32) (sampleRate : Z) : option (result (list float32)) :=
  match vadPool m with
  | None => Some (Ok audioData)
  | Some pool =>
      match pool_Get pool with
      | Err msg => Some (Err ("failed to get VAD instance: " +:+ msg))
      | Ok OtherVADInstance => Some (Err "VAD instance is not TEN-VAD type")
      | Ok (TenVADInstance Handle) =>
          let silenceSamples := silenceSamples sampleRate in
          match vad_frames_loop fuel audioData 0 Handle [] with
          | None => None
          | Some (Err msg) => Some (Err msg)
          | Some (Ok frames) => keep_edges audioData silenceSamples frames
          end
      end
  end.

(** *** Silence removal that keeps the speech frames only

    The framing loop of [filterSilenceWithVAD]: a frame that the detector
    flags with 1 is appended to [filteredAudio].  [None] means that the loop
    does not return, as in [vad_frames_loop]. *)
Fixpoint vad_filter_loop (fuel : nat) (audioData : list float32) (i : Z)
    (vad : VadHandle) (filteredAudio : list float32) : option (result (list float32)) :=
  if i <? Z.of_nat (length audioData) then
    match fuel with
    | O => None
    | S fuel' =>
        let end_ := i + hopSize in
        let end_ := if Z.of_nat (length audioData) <? end_
                    then Z.of_nat (length audioData) else end_ in
        match go_slice audioData i end_ with
        | None => None
        | Some frame =>
            let int16Frame := frame_to_int16 frame in
            match ProcessAudio vad int16Frame with
            | (_, Err msg) => Some (Err ("TEN-VAD ProcessAudio error: " +:+ msg))
            | (vad', Ok flag) =>
                vad_filter_loop fuel' audioData (i + hopSize) vad'
                  (if flag =? 1 then filteredAudio ++ frame else filteredAudio)
            end
        end
    end
  else Some (Ok filteredAudio).

Definition filterSilenceWithVAD (fuel : nat) (m : Manager VadHandle)
    (audioData : list float32) (sampleRate : Z) : option (result (list float32)) :=
  match vadPool m with
  | None => Some (Ok audioData)
  | Some pool =>
      match pool_Get pool with
      | Err msg => Some (Err ("failed to get VAD instance: " +:+ msg))
      | Ok OtherVADInstance => Some (Err "VAD instance is not TEN-VAD type")
      | Ok (TenVADInstance Handle) => vad_filter_loop fuel audioData 0 Handle []
      end
  end.

(** *** Enrol, identify, verify, list, delete, stats *)

Definition RegisterSpeaker (now : Z) (m : Manager VadHandle)
    (uid agentID speakerID speakerName uuid : string)
    (audioData : list float32) (sampleRate : Z) : ST World unit :=
  if bool_decide (uid = "") then st_fail "uid is required"
  else if bool_decide (agentID = "") then st_fail "agent_id is required"
  else if bool_decide (uuid = "") then st_fail "uuid is required"
  else
    do embedding <- st_wrap "failed to extract embedding: " (extractEmbedding audioData sampleRate);
    if negb (Z.of_nat (length embedding) =? m_embeddingDim m)
    then st_fail ("embedding dimension mismatch: expected " +:+ fmt_d (m_embeddingDim m)
                  +:+ ", got " +:+ fmt_d (Z.of_nat (length embedding)))
    else fun w =>
      let '(counted, w1) := on_store (GetSpeakerSampleCount (vectorDB m) uid agentID speakerID) w in
      let sampleIndex := match counted with Ok n => n | Err _ => 0 end in
      (do _ <- st_wrap "failed to insert to vector database: "
                 (on_store (Insert (vectorDB m) uid agentID speakerID speakerName uuid
                              embedding sampleIndex now now));
       st_ret tt) w1.

(** [useThreshold]: a variadic threshold that is present and positive
    overrides the manager's *)
Definition resolve_threshold (default : float32) (threshold : option float32) : float32 :=
  match threshold with
  | Some t => if F32.ltb F32.zero t then t else default
  | None => default
  end.

Definition identify_result (useThreshold : float32) (results : list SearchResult)
    : IdentifyResult :=
  match results with
  | bestMatch :: _ =>
      {| ir_Identified := true; ir_SpeakerID := sr_SpeakerID bestMatch;
         ir_SpeakerName := sr_SpeakerName bestMatch;
         ir_Confidence := sr_Confidence bestMatch; ir_Threshold := useThreshold |}
  | [] =>
      {| ir_Identified := false; ir_SpeakerID := ""; ir_SpeakerName := "";
         ir_Confidence := F32.zero; ir_Threshold := useThreshold |}
  end.

Definition IdentifySpeaker (m : Manager VadHandle) (uid agentID speakerID speakerName : string)
    (audioData : list float32) (sampleRate : Z) (threshold : option float32)
    : ST World IdentifyResult :=
  let useThreshold := resolve_threshold (m_threshold m) threshold in
  do embedding <- st_wrap "failed to extract embedding: " (extractEmbedding audioData sampleRate);
  do results <- st_wrap "failed to search in vector database: "
       (on_store (SearchWithOptionalFilters (vectorDB m) uid agentID speakerID speakerName
                    embedding useThreshold 1));
  st_ret (identify_result useThreshold results).

Definition VerifySpeaker (now : Z) (m : Manager VadHandle) (uid agentID speakerID : string)
    (audioData : list float32) (sampleRate : Z) : ST World VerifyResult :=
  if bool_decide (uid = "") then st_fail "uid is required"
  else
    do embedding <- st_wrap "failed to extract embedding: " (extractEmbedding audioData sampleRate);
    do results <- st_wrap "failed to search in vector database: "
         (on_store (SearchWithFilter (vectorDB m) uid agentID speakerID embedding
                      (m_threshold m) 1));
    match results with
    | best :: _ =>
        st_ret {| vr_SpeakerID := speakerID; vr_SpeakerName := sr_SpeakerName best;
                  vr_Verified := true; vr_Confidence := sr_Confidence best;
                  vr_Threshold := m_threshold m |}
    | [] => fun w =>
        match on_store (GetSpeakerInfo now (vectorDB m) uid agentID speakerID) w with
        | (Err _, w1) => (Err ("speaker " +:+ speakerID +:+ " not found"), w1)
        | (Ok speakerInfo, w1) =>
            (Ok {| vr_SpeakerID := speakerID; vr_SpeakerName := si_Name speakerInfo;
                   vr_Verified := false; vr_Confidence := F32.zero;
                   vr_Threshold := m_threshold m |}, w1)
        end
    end.

(** [Manager.GetAllSpeakers] has no error result: a store error is logged
    and the empty list returned *)
Definition Manager_GetAllSpeakers (m : Manager VadHandle) (uid agentID : string)
    (w : World) : list SpeakerInfo * World :=
  match on_store (GetAllSpeakers (vectorDB m) uid agentID) w with
  | (Err _, w1) => ([], w1)
  | (Ok speakers, w1) => (speakers, w1)
  end.

Definition Manager_DeleteSpeaker (m : Manager VadHandle) (uid agentID speakerID : string)
    : ST World unit :=
  if bool_decide (uid = "") then st_fail "uid is required"
  else
    do _ <- st_wrap "failed to delete from vector database: "
              (on_store (DeleteSpeaker (vectorDB m) uid agentID speakerID));
    st_ret tt.

Definition Manager_DeleteSpeakerByUUID (m : Manager VadHandle) (uid agentID uuid : string)
    : ST World unit :=
  if bool_decide (uid = "") then st_fail "uid is required"
  else if bool_decide (uuid = "") then st_fail "uuid is required"
  else
    do _ <- st_wrap "failed to delete from vector database: "
              (on_store (DeleteSpeakerByUUID (vectorDB m) uid agentID uuid));
    st_ret tt.

Definition GetDatabaseStats (now : Z) (m : Manager VadHandle) (uid agentID : string)
    (w : World) : DatabaseStats * World :=
  match on_store (GetAllSpeakers (vectorDB m) uid agentID) w with
  | (Err _, w1) =>
      ({| ds_TotalSpeakers := 0; ds_TotalSamples := 0; ds_EmbeddingDim := m_embeddingDim m;
          ds_Threshold := m_threshold m; ds_Version := "2.0.0"; ds_UpdatedAt := now |}, w1)
  | (Ok speakers, w1) =>
      let totalSamples := fold_left (fun total speaker => total + si_SampleCount speaker) speakers 0 in
      ({| ds_TotalSpeakers := Z.of_nat (length speakers); ds_TotalSamples := totalSamples;
          ds_EmbeddingDim := m_embeddingDim m; ds_Threshold := m_threshold m;
          ds_Version := "2.0.0"; ds_UpdatedAt := now |}, w1)
  end.

(** *** The streaming identifier

    A session is a mutable object; its methods transform the pair of the
    session and the world.  The session mutex serialises the methods, which
    is why each is one atomic step here. *)

Record StreamingIdentifier : Type := {
  sid_manager : Manager VadHandle;
  sid_uid : string;
  sid_agentID : string;
  sid_speakerID : string;
  sid_speakerName : string;
  sid_stream : option nat;
  sid_sampleRate : Z;
  sid_threshold : float32;
  sid_isFinished : bool;
}.

Definition set_stream (stream : option nat) (si : StreamingIdentifier) : StreamingIdentifier :=
  {| sid_manager := sid_manager si; sid_uid := sid_uid si; sid_agentID := sid_agentID si;
     sid_speakerID := sid_speakerID si; sid_speakerName := sid_speakerName si;
     sid_stream := stream; sid_sampleRate := sid_sampleRate si;
     sid_threshold := sid_threshold si; sid_isFinished := sid_isFinished si |}.

Definition set_isFinished (b : bool) (si : StreamingIdentifier) : StreamingIdentifier :=
  {| sid_manager := sid_manager si; sid_uid := sid_uid si; sid_agentID := sid_agentID si;
     sid_speakerID := sid_speakerID si; sid_speakerName := sid_speakerName si;
     sid_stream := sid_stream si; sid_sampleRate := sid_sampleRate si;
     sid_threshold := sid_threshold si; sid_isFinished := b |}.

Definition NewStreamingIdentifier (m : Manager VadHandle)
    (uid agentID speakerID speakerName : string) (sampleRate : Z)
    (threshold : option float32) (w : World) : StreamingIdentifier * World :=
  let '(stream, sh) := CreateStream (w_sherpa w) in
  let useThreshold := resolve_threshold (m_threshold m) threshold in
  ({| sid_manager := m; sid_uid := uid; sid_agentID := agentID; sid_speakerID := speakerID;
      sid_speakerName := speakerName; sid_stream := Some stream; sid_sampleRate := sampleRate;
      sid_threshold := useThreshold; sid_isFinished := false |},
   set_sherpa sh w).

Definition AcceptAudio (audioData : list float32) : ST (StreamingIdentifier * World) unit :=
  fun '(si, w) =>
    if sid_isFinished si then (Err "stream already finished", (si, w))
    else
      match sid_stream si with
      | None => (Err "stream is nil", (si, w))
      | Some stream =>
          (Ok tt, (si, set_sherpa (AcceptWaveform stream (sid_sampleRate si) audioData (w_sherpa w)) w))
      end.

Definition cleanup (st : StreamingIdentifier * World) : StreamingIdentifier * World :=
  let '(si, w) := st in
  match sid_stream si with
  | Some stream => (set_stream None si, set_sherpa (DeleteOnlineStream stream (w_sherpa w)) w)
  | None => (si, w)
  end.

Definition FinishAndIdentify : ST (StreamingIdentifier * World) IdentifyResult :=
  fun '(si, w) =>
    if sid_isFinished si then (Err "stream already finished", (si, w))
    else
      match sid_stream si with
      | None => (Err "stream is nil", (si, w))
      | Some stream =>
          let w := set_sherpa (InputFinished stream (w_sherpa w)) w in
          let si := set_isFinished true si in
          if negb (IsReady stream (w_sherpa w))
          then (Err "insufficient audio data for embedding extraction", cleanup (si, w))
          else
            let embedding := Compute stream (w_sherpa w) in
            if Z.of_nat (length embedding) =? 0
            then (Err "failed to extract embedding", cleanup (si, w))
            else
              let useThreshold :=
                if F32.ltb F32.zero (sid_threshold si) then sid_threshold si
                else m_threshold (sid_manager si) in
              match on_store (SearchWithOptionalFilters (vectorDB (sid_manager si))
                                (sid_uid si) (sid_agentID si) (sid_speakerID si)
                                (sid_speakerName si) embedding useThreshold 1) w with
              | (Err msg, w1) =>
                  (Err ("failed to search in vector database: " +:+ msg), cleanup (si, w1))
              | (Ok results, w1) =>
                  let result := identify_result useThreshold results in
                  (Ok result, cleanup (si, w1))
              end
      end.

Definition Close (st : StreamingIdentifier * World) : StreamingIdentifier * World :=
  cleanup st.

(** the calls a transport can make on a session *)
Inductive SessionCall : Type :=
  | CallAccept (audioData : list float32)
  | CallFinish
  | CallClose.

Definition session_call (c : SessionCall) (st : StreamingIdentifier * World)
    : StreamingIdentifier * World :=
  match c with
  | CallAccept audioData => snd (AcceptAudio audioData st)
  | CallFinish => snd (FinishAndIdentify st)
  | CallClose => Close st
  end.

Definition session_calls (cs : list SessionCall) (st : StreamingIdentifier * World)
    : StreamingIdentifier * World :=
  fold_left (fun st c => session_call c st) cs st.

(** ** The HTTP handlers

    A request is known by what the gin context answers.  The multipart
    upload and the WAV decoder are outside the scope: [req_audio] is [None]
    when the [audio] form file is missing, and otherwise the outcome of
    [parseAudioFile].  [parseFloat32] stands for [fmt.Sscanf] with [%f]. *)

Variable parseFloat32 : string -> result float32.

Record Request : Type := {
  req_header : string -> string;
  req_query : string -> string;
  req_postForm : string -> string;
  req_ctx : string -> option string;
  req_param : string -> string;
  req_audio : option (result (list float32 * Z));
}.

Inductive Body : Type :=
  | ErrorBody (error : string)
  | RegisteredBody (uid agentID speakerID speakerName uuid : string)
  | IdentifyBody (result : IdentifyResult)
  | VerifyBody (result : VerifyResult)
  | ListBody (uid agentID : string) (speakers : list SpeakerInfo) (total : Z)
  | DeletedByUUIDBody (uid agentID uuid : string)
  | DeletedBySpeakerBody (uid agentID speakerID : string)
  | StatsBody (stats : DatabaseStats).

Record Response : Type := {
  status : Z;
  body : Body;
}.

Definition StatusOK : Z := 200.
Definition StatusBadRequest : Z := 400.
Definition StatusForbidden : Z := 403.
Definition StatusNotFound : Z := 404.
Definition StatusInternalServerError : Z := 500.

Definition JSON (code : Z) (b : Body) : Response := {| status := code; body := b |}.

Definition first_non_empty (c : Request) (header key ctxKey : string) : string :=
  if bool_decide (req_header c header <> "") then req_header c header
  else if bool_decide (req_query c key <> "") then req_query c key
  else if bool_decide (req_postForm c key <> "") then req_postForm c key
  else
    match req_ctx c ctxKey with
    | Some value => if bool_decide (value <> "") then value else ""
    | None => ""
    end.

Definition getUIDFromRequest (c : Request) : string :=
  first_non_empty c "X-User-ID" "uid" "user_id".

Definition getAgentIDFromRequest (c : Request) : string :=
  first_non_empty c "X-Agent-ID" "agent_id" "agent_id".

Definition uid_required : string :=
  "uid is required (X-User-ID header, uid query param, or uid form field)".

Definition agent_id_required : string :=
  "agent_id is required (X-Agent-ID header, agent_id query param, or agent_id form field)".

(** [None]: the silence trimming does not return (see [vad_frames_loop]) *)
Definition Handler_RegisterSpeaker (fuel : nat) (now : Z) (m : Manager VadHandle)
    (c : Request) (w : World) : option (Response * World) :=
  let uid := getUIDFromRequest c in
  if bool_decide (uid = "") then Some (JSON StatusBadRequest (ErrorBody uid_required), w) else
  let agentID := getAgentIDFromRequest c in
  if bool_decide (agentID = "") then Some (JSON StatusBadRequest (ErrorBody agent_id_required), w) else
  let speakerID := req_postForm c "speaker_id" in
  let speakerName := req_postForm c "speaker_name" in
  let uuid := req_postForm c "uuid" in
  if bool_decide (speakerID = "")
  then Some (JSON StatusBadRequest (ErrorBody "speaker_id is required"), w) else
  if bool_decide (speakerName = "")
  then Some (JSON StatusBadRequest (ErrorBody "speaker_name is required"), w) else
  if bool_decide (uuid = "")
  then Some (JSON StatusBadRequest (ErrorBody "uuid is required"), w) else
  match req_audio c with
  | None => Some (JSON StatusBadRequest (ErrorBody "audio file is required"), w)
  | Some (Err msg) =>
      Some (JSON StatusBadRequest (ErrorBody ("failed to parse audio file: " +:+ msg)), w)
  | Some (Ok (audioData, sampleRate)) =>
      match filterSilenceWithVADKeepEdges fuel m audioData sampleRate with
      | None => None
      | Some (Err msg) =>
          Some (JSON StatusInternalServerError (ErrorBody ("failed to filter silence: " +:+ msg)), w)
      | Some (Ok filteredAudio) =>
          match RegisterSpeaker now m uid agentID speakerID speakerName uuid
                  filteredAudio sampleRate w with
          | (Err msg, w1) =>
              Some (JSON StatusInternalServerError
                      (ErrorBody ("failed to register speaker: " +:+ msg)), w1)
          | (Ok _, w1) =>
              Some (JSON StatusOK (RegisteredBody uid agentID speakerID speakerName uuid), w1)
          end
      end
  end.

(** the optional [threshold] parameter: query first, then form *)
Definition request_threshold (c : Request) : float32 :=
  let parse thresholdStr :=
    match parseFloat32 thresholdStr with
    | Ok parsed => if F32.ltb F32.zero parsed then parsed else F32.zero
    | Err _ => F32.zero
    end in
  if bool_decide (req_query c "threshold" <> "") then parse (req_query c "threshold")
  else if bool_decide (req_postForm c "threshold" <> "") then parse (req_postForm c "threshold")
  else F32.zero.

Definition Handler_IdentifySpeaker (m : Manager VadHandle) (c : Request) (w : World)
    : Response * World :=
  let uid := getUIDFromRequest c in
  let agentID := getAgentIDFromRequest c in
  let speakerID := if bool_decide (req_query c "speaker_id" = "")
                   then req_postForm c "speaker_id" else req_query c "speaker_id" in
  let speakerName := if bool_decide (req_query c "speaker_name" = "")
                     then req_postForm c "speaker_name" else req_query c "speaker_name" in
  match req_audio c with
  | None => (JSON StatusBadRequest (ErrorBody "audio file is required"), w)
  | Some (Err msg) =>
      (JSON StatusBadRequest (ErrorBody ("failed to parse audio file: " +:+ msg)), w)
  | Some (Ok (audioData, sampleRate)) =>
      let threshold := request_threshold c in
      let call :=
        if F32.ltb F32.zero threshold
        then IdentifySpeaker m uid agentID speakerID speakerName audioData sampleRate (Some threshold)
        else IdentifySpeaker m uid agentID speakerID speakerName audioData sampleRate None in
      match call w with
      | (Err msg, w1) =>
          (JSON StatusInternalServerError (ErrorBody ("failed to identify speaker: " +:+ msg)), w1)
      | (Ok result, w1) => (JSON StatusOK (IdentifyBody result), w1)
      end
  end.

Definition Handler_VerifySpeaker (now : Z) (m : Manager VadHandle) (c : Request) (w : World)
    : Response * World :=
  let uid := getUIDFromRequest c in
  if bool_decide (uid = "") then (JSON StatusBadRequest (ErrorBody uid_required), w) else
  let agentID := getAgentIDFromRequest c in
  let speakerID := req_param c "speaker_id" in
  if bool_decide (speakerID = "")
  then (JSON StatusBadRequest (ErrorBody "speaker_id is required"), w) else
  match req_audio c with
  | None => (JSON StatusBadRequest (ErrorBody "audio file is required"), w)
  | Some (Err msg) =>
      (JSON StatusBadRequest (ErrorBody ("failed to parse audio file: " +:+ msg)), w)
  | Some (Ok (audioData, sampleRate)) =>
      match VerifySpeaker now m uid agentID speakerID audioData sampleRate w with
      | (Err msg, w1) =>
          if strings_Contains msg "belongs to different uid"
          then (JSON StatusForbidden (ErrorBody msg), w1)
          else (JSON StatusInternalServerError
                  (ErrorBody ("failed to verify speaker: " +:+ msg)), w1)
      | (Ok result, w1) => (JSON StatusOK (VerifyBody result), w1)
      end
  end.

Definition Handler_GetAllSpeakers (m : Manager VadHandle) (c : Request) (w : World)
    : Response * World :=
  let uid := getUIDFromRequest c in
  if bool_decide (uid = "") then (JSON StatusBadRequest (ErrorBody uid_required), w) else
  let agentID := getAgentIDFromRequest c in
  let '(speakers, w1) := Manager_GetAllSpeakers m uid agentID w in
  (JSON StatusOK (ListBody uid agentID speakers (Z.of_nat (length speakers))), w1).

(** the status mapping shared by both delete branches *)
Definition delete_error_response (msg : string) : Response :=
  if strings_Contains msg "not found" then JSON StatusNotFound (ErrorBody msg)
  else if strings_Contains msg "belongs to different uid" then JSON StatusForbidden (ErrorBody msg)
  else JSON StatusInternalServerError (ErrorBody ("failed to delete speaker: " +:+ msg)).

Definition Handler_DeleteSpeaker (m : Manager VadHandle) (c : Request) (w : World)
    : Response * World :=
  let uid := getUIDFromRequest c in
  if bool_decide (uid = "") then (JSON StatusBadRequest (ErrorBody uid_required), w) else
  let agentID := getAgentIDFromRequest c in
  let uuid := req_query c "uuid" in
  if bool_decide (uuid <> "") then
    match Manager_DeleteSpeakerByUUID m uid agentID uuid w with
    | (Err msg, w1) => (delete_error_response msg, w1)
    | (Ok _, w1) => (JSON StatusOK (DeletedByUUIDBody uid agentID uuid), w1)
    end
  else
    let speakerID := req_param c "speaker_id" in
    if bool_decide (speakerID = "")
    then (JSON StatusBadRequest (ErrorBody "uuid or speaker_id is required"), w)
    else
      match Manager_DeleteSpeaker m uid agentID speakerID w with
      | (Err msg, w1) => (delete_error_response msg, w1)
      | (Ok _, w1) => (JSON StatusOK (DeletedBySpeakerBody uid agentID speakerID), w1)
      end.


(** ** The WebSocket transport

    One connection serves many rounds.  The connection parameters are read
    once; every round uses a fresh session built from them. *)

Variable wsMaxMessageSize : Z.

Record WsParams : Type := {
  wp_uid : string;
  wp_agentID : string;
  wp_speakerID : string;
  wp_speakerName : string;
  wp_sampleRate : Z;
  wp_threshold : float32;
}.

(** an inbound frame: a text frame is known by its length and by the
    [action] string of its JSON object, if it has one *)
Inductive WsMessage : Type :=
  | TextMessage (size : Z) (action : option string)
  | BinaryMessage (message : list Z).

Inductive ServerMessage : Type :=
  | SmConnection (sample_rate : Z)
  | SmError (message : string) (round : option Z)
  | SmResult (result : IdentifyResult) (round : Z)
  | SmReady (round : Z)
  | SmCancelled (round : Z)
  | SmClosing (total_rounds : Z)
  | SmAudioReceived (samples : Z).

Record WsState : Type := {
  ws_identifier : StreamingIdentifier;
  ws_roundCount : Z;
  ws_sent : list ServerMessage;   (* oldest first *)
}.

Definition createIdentifier (m : Manager VadHandle) (p : WsParams) (w : World)
    : StreamingIdentifier * World :=
  if F32.ltb F32.zero (wp_threshold p)
  then NewStreamingIdentifier m (wp_uid p) (wp_agentID p) (wp_speakerID p) (wp_speakerName p)
         (wp_sampleRate p) (Some (wp_threshold p)) w
  else NewStreamingIdentifier m (wp_uid p) (wp_agentID p) (wp_speakerID p) (wp_speakerName p)
         (wp_sampleRate p) None w.

(** [math.Float32frombits] *)
Definition Float32frombits (bits : Z) : float32 :=
  let s := Z.testbit bits 31 in
  let e := Z.land (Z.shiftr bits 23) 255 in
  let m := Z.land bits (2 ^ 23 - 1) in
  if e =? 255 then (if m =? 0 then S754_infinity s else S754_nan)
  else if e =? 0 then
    match m with Zpos p => S754_finite s p (-149) | _ => S754_zero s end
  else
    match m + 2 ^ 23 with Zpos p => S754_finite s p (e - 150) | _ => S754_nan end.

(** the decoding loop over groups of four little-endian bytes *)
Fixpoint decode_samples (message : list Z) : list float32 :=
  match message with
  | b0 :: b1 :: b2 :: b3 :: rest =>
      Float32frombits (Z.lor b0 (Z.lor (Z.shiftl b1 8) (Z.lor (Z.shiftl b2 16) (Z.shiftl b3 24))))
        :: decode_samples rest
  | _ => []
  end.

Definition ws_send (msg : ServerMessage) (st : WsState) : WsState :=
  {| ws_identifier := ws_identifier st; ws_roundCount := ws_roundCount st;
     ws_sent := ws_sent st ++ [msg] |}.

(** [identifier.Close(); identifier = createIdentifier()] *)
Definition ws_reset (m : Manager VadHandle) (p : WsParams) (si : StreamingIdentifier)
    (st : WsState) (w : World) : WsState * World :=
  let '(_, w1) := Close (si, w) in
  let '(fresh, w2) := createIdentifier m p w1 in
  ({| ws_identifier := fresh; ws_roundCount := ws_roundCount st; ws_sent := ws_sent st |}, w2).

(** One iteration of the read loop.  The boolean says whether the loop goes
    on; [None] is the run-time panic of [audioData[0]] on an empty frame. *)
Definition ws_message (m : Manager VadHandle) (p : WsParams) (msg : WsMessage)
    (st : WsState) (w : World) : option (bool * (WsState * World)) :=
  let size := match msg with
              | TextMessage size _ => size
              | BinaryMessage message => Z.of_nat (length message)
              end in
  if (0 <? wsMaxMessageSize) && (wsMaxMessageSize <? size)
  then Some (true, (ws_send (SmError "message too large" None) st, w)) else
  match msg with
  | TextMessage _ (Some action) =>
      if bool_decide (action = "finish") then
        let roundCount := ws_roundCount st + 1 in
        let st := {| ws_identifier := ws_identifier st; ws_roundCount := roundCount;
                     ws_sent := ws_sent st |} in
        match FinishAndIdentify (ws_identifier st, w) with
        | (Err msg, (si, w1)) =>
            let st := ws_send (SmError msg (Some roundCount)) st in
            Some (true, ws_reset m p si st w1)
        | (Ok result, (si, w1)) =>
            let st := ws_send (SmResult result roundCount) st in
            let '(st, w2) := ws_reset m p si st w1 in
            Some (true, (ws_send (SmReady (roundCount + 1)) st, w2))
        end
      else if bool_decide (action = "cancel") then
        let '(st, w1) := ws_reset m p (ws_identifier st) st w in
        Some (true, (ws_send (SmCancelled (ws_roundCount st + 1)) st, w1))
      else if bool_decide (action = "close") then
        Some (false, (ws_send (SmClosing (ws_roundCount st)) st, w))
      else Some (true, (st, w))
  | TextMessage _ None => Some (true, (st, w))
  | BinaryMessage message =>
      if negb (Z.of_nat (length message) mod 4 =? 0)
      then Some (true, (ws_send (SmError "invalid audio data length" None) st, w))
      else
        let audioData := decode_samples message in
        match audioData with
        | [] => None
        | _ =>
            match AcceptAudio audioData (ws_identifier st, w) with
            | (Err msg, (si, w1)) =>
                Some (false, (ws_send (SmError msg None)
                                {| ws_identifier := si; ws_roundCount := ws_roundCount st;
                                   ws_sent := ws_sent st |}, w1))
            | (Ok _, (si, w1)) =>
                Some (true, (ws_send (SmAudioReceived (Z.of_nat (length audioData)))
                               {| ws_identifier := si; ws_roundCount := ws_roundCount st;
                                  ws_sent := ws_sent st |}, w1))
            end
        end
  end.

Fixpoint ws_loop (m : Manager VadHandle) (p : WsParams) (msgs : list WsMessage)
    (st : WsState) (w : World) : option (WsState * World) :=
  match msgs with
  | [] => Some (st, w)
  | msg :: rest =>
      match ws_message m p msg st w with
      | None => None
      | Some (true, (st', w')) => ws_loop m p rest st' w'
      | Some (false, stw) => Some stw
      end
  end.

(** the whole connection: create, greet, loop, and the deferred [Close] *)
Definition IdentifySpeakerWebSocket (m : Manager VadHandle) (p : WsParams)
    (msgs : list WsMessage) (w : World) : option (list ServerMessage * World) :=
  let '(identifier, w0) := createIdentifier m p w in
  let st := {| ws_identifier := identifier; ws_roundCount := 0;
               ws_sent := [SmConnection (wp_sampleRate p)] |} in
  match ws_loop m p msgs st w0 with
  | None => None
  | Some (st', w1) =>
      let '(_, w2) := Close (ws_identifier st', w1) in
      Some (ws_sent st', w2)
  end.

End Service.

(** ** Library functions on strings

    [strings.Split], [strings.ReplaceAll] and [strings.HasSuffix] of Go's
    [strings] package and [strconv.Atoi], as far as the program calls them:
    the separator and the replaced string are never empty. *)

(** how often a byte occurs in a string *)
Definition occurs (ch : ascii) (s : string) : nat :=
  count_occ ascii_dec (list_ascii_of_string s) ch.

(** [strings.Split(s, sep)] for a non-empty separator: the pieces between
    the non-overlapping occurrences of [sep], leftmost first.  [skip] counts
    the bytes of an occurrence still to be passed over, [cur] is the piece
    being read. *)
Fixpoint split_from (sep : string) (skip : nat) (cur : string) (s : string) : list string :=
  match s with
  | EmptyString => [cur]
  | String ch rest =>
      match skip with
      | S k => split_from sep k cur rest
      | O =>
          if String.prefix sep s
          then cur :: split_from sep (String.length sep - 1) "" rest
          else split_from sep 0 (cur +:+ String ch "") rest
      end
  end.

Definition strings_Split (s sep : string) : list string := split_from sep 0 "" s.

(** [strings.ReplaceAll(s, old, new)] for a non-empty [old]: every
    non-overlapping occurrence, leftmost first *)
Fixpoint replace_from (old new : string) (skip : nat) (s : string) : string :=
  match s with
  | EmptyString => ""
  | String ch rest =>
      match skip with
      | S k => replace_from old new k rest
      | O =>
          if String.prefix old s
          then new +:+ replace_from old new (String.length old - 1) rest
          else String ch (replace_from old new 0 rest)
      end
  end.

Definition strings_ReplaceAll (s old new : string) : string := replace_from old new 0 s.

(** [strings.HasSuffix] *)
Definition strings_HasSuffix (s suffix : string) : bool :=
  (String.length suffix <=? String.length s)%nat &&
  String.eqb (substring (String.length s - String.length suffix) (String.length suffix) s) suffix.

Definition digit_of (ch : ascii) : option Z :=
  let n := Z.of_N (N_of_ascii ch) in
  if (48 <=? n) && (n <=? 57) then Some (n - 48) else None.

Fixpoint parse_digits (s : string) (n : Z) : option Z :=
  match s with
  | EmptyString => Some n
  | String ch rest =>
      match digit_of ch with
      | Some d => parse_digits rest (n * 10 + d)
      | None => None
      end
  end.

(** [strconv.Atoi] where [int] has 64 bits: an optional sign and at least
    one decimal digit; [None] is a syntax or a range error *)
Definition strconv_Atoi (s : string) : option Z :=
  let '(neg, digits) :=
    match s with
    | String "-" rest => (true, rest)
    | String "+" rest => (false, rest)
    | _ => (false, s)
    end in
  match digits with
  | EmptyString => None
  | _ =>
      match parse_digits digits 0 with
      | Some n =>
          let v := if neg then - n else n in
          if (- 2 ^ 63 <=? v) && (v <? 2 ^ 63) then Some v else None
      | None => None
      end
  end.

(** ** [parseQdrantAddress]

    [len(parts) == 2] and [len(parts) == 1] are the two list patterns. *)
Definition parseQdrantAddress (addr : string) : string * Z :=
  let host := "localhost" in
  let port := 6334 in
  if bool_decide (addr = "") then (host, port)
  else
    let parts := strings_Split addr ":" in
    match parts with
    | [part0; part1] =>
        let host := part0 in
        match strconv_Atoi part1 with
        | Some p => (host, p)
        | None => (host, port)
        end
    | [part0] => (part0, port)
    | _ => (host, port)
    end.

(** ** WAV files: upload parsing and the saved recordings

    The WAV container is read and written by a library; the decoder is
    known by what it answers.  [strings.ToLower] and the configured
    [Audio.NormalizeFactor] are parameters, and so is the value of [int(x)]
    for a float that [int] cannot represent. *)

Record WavDecoder : Type := {
  wav_IsValidFile : bool;
  wav_SampleRate : Z;
  wav_NumChans : Z;
  wav_FullPCMBuffer : result (list Z);
}.

Section Wav.

Variable strings_ToLower : string -> string.
Variable NormalizeFactor : float32.
Variable int_unrepresentable : float32 -> Z.

(** the down-mix loop: [monoSamples[i] = (samples[i*2] + samples[i*2+1]) / 2.0]
    for [i < len(samples)/2] *)
Fixpoint stereo_to_mono (samples : list float32) : list float32 :=
  match samples with
  | l :: r :: rest => F32.div (F32.add l r) (F32.of_Z 2) :: stereo_to_mono rest
  | _ => []
  end.

Definition parseAudioFile (Filename : string) (decoder : WavDecoder)
    : result (list float32 * Z) :=
  let filename := strings_ToLower Filename in
  if negb (strings_HasSuffix filename ".wav") then Err "only WAV files are supported"
  else if negb (wav_IsValidFile decoder) then Err "invalid WAV file"
  else
    let sampleRate := wav_SampleRate decoder in
    let numChannels := wav_NumChans decoder in
    if 2 <? numChannels
    then Err ("unsupported number of channels: " +:+ fmt_d numChannels)
    else
      match wav_FullPCMBuffer decoder with
      | Err msg => Err ("failed to decode audio: " +:+ msg)
      | Ok Data =>
          let samples := map (fun sample => F32.div (F32.of_Z sample) NormalizeFactor) Data in
          let samples := if numChannels =? 2 then stereo_to_mono samples else samples in
          Ok (samples, sampleRate)
      end.

(** [int(x)] for a float32 [x] *)
Definition to_int (x : float32) : Z :=
  match float_trunc x with
  | Some z => if (- 2 ^ 63 <=? z) && (z <? 2 ^ 63) then z else int_unrepresentable x
  | None => int_unrepresentable x
  end.

(** the conversion loop of [saveAudioToWAV] and [saveRegisterAudioToWAV] *)
Definition int16Data (audioData : list float32) : list Z :=
  map (fun sample =>
         let sample := if F32.ltb F32.one sample then F32.one
                       else if F32.ltb sample F32.neg_one then F32.neg_one
                       else sample in
         to_int (F32.mul sample NormalizeFactor))
      audioData.

End Wav.

(** the file name of a saved recording; [prefix] is empty for
    [saveAudioToWAV] and [register_] for [saveRegisterAudioToWAV].  The
    three replaced bytes are the slash, the backslash (byte 92) and the
    colon. *)
Definition wav_filename (prefix timestamp uid agentID : string) : string :=
  let filename :=
    if bool_decide (uid <> "") && bool_decide (agentID <> "")
    then prefix +:+ timestamp +:+ "_" +:+ uid +:+ "_" +:+ agentID +:+ ".wav"
    else if bool_decide (uid <> "") then prefix +:+ timestamp +:+ "_" +:+ uid +:+ ".wav"
    else if bool_decide (agentID <> "") then prefix +:+ timestamp +:+ "_" +:+ agentID +:+ ".wav"
    else prefix +:+ timestamp +:+ ".wav" in
  let filename := strings_ReplaceAll filename "/" "_" in
  let filename := strings_ReplaceAll filename (String "092" "") "_" in
  let filename := strings_ReplaceAll filename ":" "_" in
  filename.

Definition saveAudioToWAV_filename : string -> string -> string -> string :=
  wav_filename "".

Definition saveRegisterAudioToWAV_filename : string -> string -> string -> string :=
  wav_filename "register_".

(** ** The test client: audio frames for the WebSocket endpoint *)

(** [math.Float32bits]: the IEEE-754 binary32 encoding.  [spec_float] has
    one NaN, which is encoded as the quiet NaN 0x7FC00000. *)
Definition Float32bits (x : float32) : Z :=
  let sign (s : bool) := if s then 2 ^ 31 else 0 in
  match x with
  | S754_zero s => sign s
  | S754_infinity s => sign s + Z.shiftl 255 23
  | S754_nan => 0x7FC00000
  | S754_finite s m e =>
      if Zpos m <? 2 ^ 23 then sign s + Zpos m
      else sign s + Z.shiftl (e + 150) 23 + (Zpos m - 2 ^ 23)
  end.

(** [binary.LittleEndian.PutUint32] *)
Definition PutUint32 (v : Z) : list Z :=
  [Z.land v 255; Z.land (Z.shiftr v 8) 255; Z.land (Z.shiftr v 16) 255;
   Z.land (Z.shiftr v 24) 255].

(** [float32ToBytes] *)
Definition float32ToBytes (samples : list float32) : list Z :=
  flat_map (fun sample => PutUint32 (Float32bits sample)) samples.

(** ** Observations on the store, and a small concrete deployment

    [stored] reads the points of the client's collection.  The [demo_]
    values are a concrete store, manager and collaborators on which the
    definitions can be run. *)

Definition stored (db : QdrantVectorDB) (s : Server) : gmap Z PointStruct :=
  match collections s !! collectionName db with
  | Some c => points c
  | None => ∅
  end.

Definition demo_db : QdrantVectorDB :=
  {| collectionName := "speaker_embeddings"; embeddingDim := 2 |}.

Definition dot (q v : list float32) : float32 :=
  fold_left (fun acc xy => F32.add acc (F32.mul (fst xy) (snd xy))) (zip q v) F32.zero.

(** a store that scores every candidate by the dot product with the query *)
Definition demo_knn (q : list float32) (cands : list PointStruct) : list ScoredPoint :=
  map (fun p => {| sp_Id := ps_Id p; sp_Payload := Some (ps_Payload p);
                   sp_Score := dot q (ps_Vectors p) |}) cands.

Definition no_faults : RPC -> option string := fun _ => None.

Definition demo_server : Server :=
  {| collections := ∅; faults := no_faults; calls := [];
     missing_collection := "Not found: collection does not exist"; knn := demo_knn |}.


Definition with_knn (k : list float32 -> list PointStruct -> list ScoredPoint) (s : Server)
    : Server :=
  {| collections := collections s; faults := faults s; calls := calls s;
     missing_collection := missing_collection s; knn := k |}.

(** the four filter dimensions of the optional-filter search, in the order
    in which the source tests them *)
Definition filter_dimensions (uid agentID speakerID speakerName : string)
    : list (string * string) :=
  [("uid", uid); ("agent_id", agentID); ("speaker_id", speakerID); ("speaker_name", speakerName)].

(** the demo store after one enrolment of speaker [s1] of tenant [u1]/[a1] *)
Definition demo_enrolled : Server :=
  snd (Insert demo_db "u1" "a1" "s1" "Alice" "U-1" [F32.of_Z 3; F32.of_Z 4] 0 100 100
         demo_server).

(** a store whose ranking reports a NaN score for every candidate *)
Definition nan_knn (q : list float32) (cands : list PointStruct) : list ScoredPoint :=
  map (fun p => {| sp_Id := ps_Id p; sp_Payload := Some (ps_Payload p); sp_Score := S754_nan |})
      cands.

Definition one_half : float32 := F32.of_decimal 5 1.



(** a toy embedding model: ready once two samples have arrived, and the
    embedding is the first two samples *)
Definition stream_samples (st : OnlineStream) : list float32 :=
  concat (map snd (os_chunks st)).

Definition demo_IsReady (st : OnlineStream) : bool :=
  (2 <=? Z.of_nat (length (stream_samples st))).

Definition demo_Compute (st : OnlineStream) : list float32 :=
  take 2 (stream_samples st).

Definition demo_manager : Manager unit :=
  {| m_threshold := one_half; m_embeddingDim := 2; vectorDB := demo_db;
     vadPool := Some {| pool_Get := Ok (TenVADInstance tt) |} |}.

Definition demo_world : World :=
  {| w_sherpa := {| streams := ∅; next_handle := 0; deleted := [] |};
     w_store := demo_enrolled |}.

(** a fresh session of the demo manager, filtered to tenant [u1]/[a1] *)
Definition demo_session : StreamingIdentifier * World :=
  NewStreamingIdentifier demo_manager "u1" "a1" "" "" 16000 None demo_world.

(** handles are handed out in increasing order, so a library state is
    well formed when every live or deleted handle is below the next one *)
Definition sherpa_wf (sh : Sherpa) : Prop :=
  forall h, h ∈ deleted sh -> (h < next_handle sh)%nat.

(** *** Edge-preserving trimming as the specification words it

    [audio[max(0, start(f_first) - edge) : min(len, end(f_last) + edge)]]
    for the first and the last speech frame, and the empty buffer when
    there is none.  The number of edge samples is a parameter. *)






(** a toy detector: a frame is speech when one of its samples reaches an
    amplitude of 1000; [int16] of an unrepresentable float is -32768, as on
    amd64 *)
Definition demo_ProcessAudio (h : unit) (frame : list Z) : unit * result Z :=
  (h, Ok (if existsb (fun x => 1000 <=? Z.abs x) frame then 1 else 0)).

Definition demo_int16_unrepresentable (x : float32) : Z := -32768.

(** ten samples: silence, except samples 4 and 5 at half scale *)
Definition demo_audio : list float32 :=
  [F32.zero; F32.zero; F32.zero; F32.zero; one_half; one_half;
   F32.zero; F32.zero; F32.zero; F32.zero].

(** *** The points of one speaker

    The specification counts the stored points matching
    [(uid, agent_id, speaker_id)]. *)

Definition matches_speaker (uid agentID speakerID : string) (p : PointStruct) : Prop :=
  ps_Payload p !! "uid" = Some (StringValue uid) /\
  ps_Payload p !! "agent_id" = Some (StringValue agentID) /\
  ps_Payload p !! "speaker_id" = Some (StringValue speakerID).

#[global] Instance matches_speaker_dec uid agentID speakerID p :
  Decision (matches_speaker uid agentID speakerID p).
Proof. unfold matches_speaker. apply _. Defined.

Definition speaker_points (uid agentID speakerID : string) (pts : gmap Z PointStruct)
    : list PointStruct :=
  filter (matches_speaker uid agentID speakerID) (map snd (map_to_list pts)).

(** a store in which speaker [s1] of tenant [u1]/[a1] has 10001 samples,
    enrolled with the sample indices 0 to 10000 *)
Definition crowded_points : gmap Z PointStruct :=
  list_to_map
    (map (fun i => (generatePointID "u1" "a1" "s1" i,
                    insert_point "u1" "a1" "s1" "Alice" "U-1" [F32.of_Z 3; F32.of_Z 4] i 100 100))
         (seqZ 0 10001)).

Definition crowded_server : Server :=
  set_collections
    {["speaker_embeddings" := {| vector_size := 2; points := crowded_points |}]}
    demo_server.

Definition crowded_world : World :=
  {| w_sherpa := {| streams := ∅; next_handle := 0; deleted := [] |};
     w_store := crowded_server |}.

(** *** Reading the RPC log *)

Definition kind (c : RpcCall * bool) : RPC := rpc_of (fst c).

(** [traced proj K T m]: running [m] appends to the RPC log calls of the
    kinds [K] only, each kind at most once, and leaves the fault plan alone;
    if [m] succeeds, every call it issued succeeded, except possibly calls
    of the tolerated kinds [T] *)
Definition traced {S A} (proj : S -> Server) (K T : list RPC) (m : ST S A) : Prop :=
  forall s, exists l,
    calls (proj (snd (m s))) = l ++ calls (proj s) /\
    faults (proj (snd (m s))) = faults (proj s) /\
    NoDup (map kind l) /\
    Forall (fun c => kind c ∈ K) l /\
    (is_ok (fst (m s)) = true -> Forall (fun c => snd c = true \/ kind c ∈ T) l).







(** *** Observations for the further properties *)

(** the string that [generatePointID] hashes *)
Definition point_key (uid agentID speakerID : string) (sampleIndex : Z) : string :=
  uid +:+ ":" +:+ agentID +:+ ":" +:+ speakerID +:+ ":" +:+ fmt_d sampleIndex.

(** handles of live streams are below the next handle to be handed out *)
Definition streams_below (sh : Sherpa) : Prop :=
  forall h, is_Some (streams sh !! h) -> (h < next_handle sh)%nat.

(** What one connection maintains, for a library state that had the live
    streams [streams0], the next handle [n0] and the deletion log [deleted0]
    when the connection began: the handles [n0 .. n0 + k - 1] have been
    created and deleted, in that order, and the session either holds the
    handle [n0 + k], the only live stream besides [streams0], or holds
    none. *)
Definition connection_inv {VadHandle} (streams0 : gmap nat OnlineStream) (n0 : nat)
    (deleted0 : list nat) (k : nat) (si : @StreamingIdentifier VadHandle) (sh : Sherpa) : Prop :=
  deleted sh = rev (seq n0 k) ++ deleted0 /\
  match sid_stream si with
  | Some h => h = (n0 + k)%nat /\ next_handle sh = S (n0 + k) /\
              delete h (streams sh) = streams0
  | None => (1 <= k)%nat /\ next_handle sh = (n0 + k)%nat /\ streams sh = streams0
  end.


(** the hits of the scroll behind the count, the info lookup and both
    delete operations *)
Definition strict_hits (uid field value agentID : string) (c : Collection)
    : list PointStruct :=
  take (Z.to_nat scroll_limit) (candidates (Some (strict_filter uid field value agentID)) c).

(** a payload that carries both timestamps, neither negative *)
Definition timestamped (payload : gmap string Value) : Prop :=
  exists c u, payload !! "created_at" = Some (IntegerValue c) /\
              payload !! "updated_at" = Some (IntegerValue u) /\ 0 <= c /\ 0 <= u.

(** every point is filed under its own ID, as upserts leave a collection *)
Definition ids_consistent (pts : gmap Z PointStruct) : Prop :=
  forall id p, pts !! id = Some p -> ps_Id p = id.

(** the points that a strict filter selects *)
Definition selected (uid field value agentID : string) (p : PointStruct) : Prop :=
  filter_holds (Some (strict_filter uid field value agentID)) (ps_Payload p) = true.

#[global] Instance selected_dec uid field value agentID p :
  Decision (selected uid field value agentID p).
Proof. unfold selected. apply _. Defined.

(** *** The scrolled points of one speaker *)

Definition speaker_of (point : RetrievedPoint) : string :=
  payload_string (GetPayload point) "speaker_id".

Definition points_of (speakerID : string) (pts : list RetrievedPoint) : list RetrievedPoint :=
  filter (fun p => speaker_of p = speakerID) pts.

Definition created_of (point : RetrievedPoint) : Z :=
  payload_integer (GetPayload point) "created_at".

Definition updated_of (point : RetrievedPoint) : Z :=
  payload_integer (GetPayload point) "updated_at".

(** the two timestamp updates of the aggregation loop *)
Definition created_step (cur ts : Z) : Z :=
  if (0 <? ts) && (time_IsZero cur || (ts <? cur)) then ts else cur.

Definition updated_step (cur ts : Z) : Z :=
  if (0 <? ts) && (time_IsZero cur || (cur <? ts)) then ts else cur.

(** the entry that the points of one speaker alone produce *)
Definition speaker_summary (speakerID : string) (own : list RetrievedPoint)
    : option SpeakerInfo :=
  match own with
  | [] => None
  | first :: _ =>
      Some {| si_ID := speakerID;
              si_Name := payload_string (GetPayload first) "speaker_name";
              si_UUID := payload_string (GetPayload first) "uuid";
              si_AgentID := payload_string (GetPayload first) "agent_id";
              si_SampleCount := Z.of_nat (length own);
              si_CreatedAt := fold_left created_step (map created_of own) (created_of first);
              si_UpdatedAt := fold_left updated_step (map updated_of own) (updated_of first) |}
  end.

(** what the scroll of [GetAllSpeakers] returns from a collection *)
Definition listed_points (uid agentID : string) (c : Collection) : list RetrievedPoint :=
  map (fun p => {| rp_Id := ps_Id p; rp_Payload := Some (ps_Payload p) |})
      (take (Z.to_nat scroll_limit) (candidates (Some (list_filter uid agentID)) c)).

(** a check of every integer from [n] on, [fuel] of them *)
Fixpoint forall_from (fuel : nat) (n : Z) (P : Z -> bool) : bool :=
  match fuel with
  | O => true
  | S fuel' => P n && forall_from fuel' (Z.succ n) P
  end.

(** a 16-bit sample read with the factor 32768: it lies in [[-1, 1)], and
    [int(sample * 32768)] gives it back *)
Definition sample_round_trips (n : Z) : bool :=
  let x := F32.div (F32.of_Z n) (F32.of_Z 32768) in
  F32.leb F32.neg_one x && F32.ltb x F32.one &&
  match float_trunc (F32.mul x (F32.of_Z 32768)) with
  | Some z => (- 2 ^ 63 <=? z) && (z <? 2 ^ 63) && (z =? n)
  | None => false
  end.

(** *** More of the concrete deployment *)

(** the parameters of a WebSocket connection of tenant [u1]/[a1] *)
Definition demo_params : WsParams :=
  {| wp_uid := "u1"; wp_agentID := "a1"; wp_speakerID := ""; wp_speakerName := "";
     wp_sampleRate := 16000; wp_threshold := F32.zero |}.

(** a request of tenant [u1] about a speaker that was never enrolled *)
Definition demo_request_unknown : Request :=
  {| req_header := fun k => if String.eqb k "X-User-ID" then "u1" else "";
     req_query := fun _ => "";
     req_postForm := fun _ => "";
     req_ctx := fun _ => None;
     req_param := fun k => if String.eqb k "speaker_id" then "s2" else "";
     req_audio := None |}.

(** a mono WAV file of three samples *)
Definition demo_decoder : WavDecoder :=
  {| wav_IsValidFile := true; wav_SampleRate := 16000; wav_NumChans := 1;
     wav_FullPCMBuffer := Ok [0; 16384; -32768] |}.

(** * Properties *)

(** a pair is known by its first component and the rest *)
Lemma pair_fst_eq {A B} (p : A * B) (a : A) : fst p = a -> p = (a, snd p).
Proof. destruct p. simpl. congruence. Qed.

(** ** Point identity and upsert *)

Lemma fnv_write_spec (data : list Z) :
  Fnv.Write Fnv.New64a data = fnv1a64_spec_rev (rev data).
Proof.
  induction data as [|b data IH] using rev_ind; [reflexivity|].
  unfold Fnv.Write in *. rewrite fold_left_app, rev_app_distr. simpl.
  rewrite IH, Z.land_ones by lia. reflexivity.
Qed.

Lemma generatePointID_spec uid a s i :
  generatePointID uid a s i = fnv1a64_spec (joined_key_spec uid a s i).
Proof.
  unfold generatePointID, fnv1a64_spec, Fnv.Sum64. rewrite fnv_write_spec. reflexivity.
Qed.

(** [fmt_d] never runs out of digits: [fmt_digits] is given one step per
    binary digit, and more steps would not change what it prints *)
Lemma fmt_digits_S (k : nat) (n : N) (acc : string) :
  fmt_digits (S k) n acc =
  let acc' := String (ascii_of_N (48 + n mod 10)) acc in
  if (n <? 10)%N then acc' else fmt_digits k (n / 10)%N acc'.
Proof. reflexivity. Qed.

Lemma fmt_digits_fuel (fuel extra : nat) (n : N) (acc : string) :
  (n < 2 ^ N.of_nat fuel)%N ->
  fmt_digits (S (fuel + extra)) n acc = fmt_digits (S fuel) n acc.
Proof.
  revert n acc. induction fuel as [|fuel IH]; intros n acc Hn.
  - assert (n = 0%N) as -> by (simpl in Hn; lia). reflexivity.
  - rewrite (fmt_digits_S (S fuel + extra)), (fmt_digits_S (S fuel)). cbv zeta.
    destruct (n <? 10)%N; [reflexivity|].
    apply (IH (n / 10)%N). rewrite Nat2N.inj_succ, N.pow_succ_r' in Hn.
    apply N.Div0.div_lt_upper_bound. lia.
Qed.

Lemma size_nat_size (n : N) : N.of_nat (N.size_nat n) = N.size n.
Proof.
  destruct n as [|p]; [reflexivity|]. unfold N.size_nat, N.size.
  induction p as [p IH|p IH|]; [| |reflexivity];
    change (Pos.size_nat _) with (S (Pos.size_nat p));
    rewrite Nat2N.inj_succ, IH; reflexivity.
Qed.

Lemma fmt_d_fuel (z : Z) (extra : nat) :
  fmt_digits (S (N.size_nat (Z.abs_N z) + extra)) (Z.abs_N z) "" =
  fmt_digits (S (N.size_nat (Z.abs_N z))) (Z.abs_N z) "".
Proof. apply fmt_digits_fuel. rewrite size_nat_size. apply N.size_gt. Qed.

Example fmt_d_examples :
  fmt_d 0 = "0" /\ fmt_d 7 = "7" /\ fmt_d 10000 = "10000" /\ fmt_d (-305) = "-305".
Proof. repeat split; vm_compute; reflexivity. Qed.

(** published FNV-1a test vectors *)
Example fnv1a64_vectors :
  fnv1a64_spec "" = 0xcbf29ce484222325 /\
  Fnv.Sum64 (Fnv.Write Fnv.New64a (bytes_of_string "a")) = 0xaf63dc4c8601ec8c /\
  Fnv.Sum64 (Fnv.Write Fnv.New64a (bytes_of_string "foobar")) = 0x85944171f73967e8.
Proof. repeat split; vm_compute; reflexivity. Qed.

Lemma ensureCollectionExists_ok db s s' :
  ensureCollectionExists db s = (Ok tt, s') ->
  stored db s' = stored db s /\ is_Some (collections s' !! collectionName db).
Proof.
  unfold ensureCollectionExists, client_GetCollectionInfo, client_CreateCollection,
    st_wrap, rpc, with_collection, stored.
  simpl. destruct (faults s GetCollectionInfo) eqn:F1; simpl.
  - destruct (faults s CreateCollection) eqn:F2; simpl; [discriminate|].
    destruct (collections s !! collectionName db) eqn:E; simpl; [discriminate|].
    intros [= <-]. simpl. rewrite lookup_insert_eq. simpl. eauto.
  - destruct (collections s !! collectionName db) eqn:E; simpl.
    + intros [= <-]. simpl. rewrite E. eauto.
    + destruct (faults s CreateCollection) eqn:F2; simpl; [discriminate|].
      rewrite E. intros [= <-]. simpl. rewrite lookup_insert_eq. simpl. eauto.
Qed.

Lemma Insert_ok db uid a sp name uuid emb i c u s s' :
  Insert db uid a sp name uuid emb i c u s = (Ok tt, s') ->
  stored db s' =
    <[generatePointID uid a sp i := insert_point uid a sp name uuid emb i c u]> (stored db s).
Proof.
  unfold Insert, st_bind, st_wrap.
  destruct (ensureCollectionExists db s) as [[[]|msg] s1] eqn:E; simpl; [|discriminate].
  apply ensureCollectionExists_ok in E as [E1 [c0 E2]].
  unfold client_Upsert, rpc, with_collection. simpl.
  destruct (faults s1 Upsert); simpl; [discriminate|].
  rewrite E2. simpl. intros [= <-]. unfold stored at 1. simpl. rewrite lookup_insert_eq. simpl.
  rewrite <- E1. unfold stored. rewrite E2. reflexivity.
Qed.

(** C1. The point ID written by an upsert is the 64-bit FNV-1a hash of
    [uid:agent_id:speaker_id:sample_index]; it depends on nothing else, so a
    second enrolment with the same tuple overwrites the point of the first:
    the collection holds the second point under that ID, has the size it had
    after the first enrolment, and holds exactly one point if it was empty
    before. *)
Theorem point_id_fnv1a_upsert_overwrites
    db uid a sp i name1 uuid1 emb1 c1 u1 name2 uuid2 emb2 c2 u2 s s1 s2 :
  Insert db uid a sp name1 uuid1 emb1 i c1 u1 s = (Ok tt, s1) ->
  Insert db uid a sp name2 uuid2 emb2 i c2 u2 s1 = (Ok tt, s2) ->
  let id := generatePointID uid a sp i in
  let p1 := insert_point uid a sp name1 uuid1 emb1 i c1 u1 in
  let p2 := insert_point uid a sp name2 uuid2 emb2 i c2 u2 in
  id = fnv1a64_spec (joined_key_spec uid a sp i) /\
  ps_Id p1 = id /\ ps_Id p2 = id /\
  stored db s1 !! id = Some p1 /\
  stored db s2 = <[id := p2]> (stored db s) /\
  size (stored db s2) = size (stored db s1) /\
  (stored db s = ∅ -> size (stored db s2) = 1%nat).
Proof.
  intros H1 H2 id p1 p2.
  apply Insert_ok in H1. apply Insert_ok in H2. fold id p1 in H1. fold id p2 in H2.
  assert (E2 : stored db s2 = <[id := p2]> (stored db s)).
  { rewrite H2, H1. apply insert_insert_eq. }
  repeat split; try reflexivity.
  - apply generatePointID_spec.
  - rewrite H1. apply lookup_insert_eq.
  - exact E2.
  - rewrite H2, H1, insert_insert_eq.
    destruct (stored db s !! id) eqn:L.
    + rewrite !map_size_insert_Some; eauto.
    + rewrite !map_size_insert_None; eauto.
  - intros E0. rewrite E2, E0, insert_empty. apply map_size_singleton.
Qed.

Lemma point_id_fnv1a_upsert_overwrites_witness :
  let s1 := snd (Insert demo_db "u1" "a1" "s1" "Alice" "U-1" [F32.of_Z 3; F32.of_Z 4] 0 100 100
                   demo_server) in
  let s2 := snd (Insert demo_db "u1" "a1" "s1" "Alice" "U-2" [F32.of_Z 4; F32.of_Z 3] 0 200 200
                   s1) in
  generatePointID "u1" "a1" "s1" 0 = 873282468195316379 /\
  size (stored demo_db s2) = 1%nat.
Proof.
  intros s1 s2.
  pose proof (point_id_fnv1a_upsert_overwrites demo_db "u1" "a1" "s1" 0
                "Alice" "U-1" [F32.of_Z 3; F32.of_Z 4] 100 100
                "Alice" "U-2" [F32.of_Z 4; F32.of_Z 3] 200 200
                demo_server s1 s2 eq_refl eq_refl) as H.
  split; [vm_compute; reflexivity|].
  apply H. reflexivity.
Defined.

(** ** The optional filter *)

Lemma kept_dimension (k v : string) (rest : list (string * string)) :
  map (fun kv => NewMatch (fst kv) (snd kv)) (filter (fun kv => snd kv <> "") ((k, v) :: rest))
  = (if bool_decide (v <> "") then [NewMatch k v] else []) ++
    map (fun kv => NewMatch (fst kv) (snd kv)) (filter (fun kv => snd kv <> "") rest).
Proof.
  rewrite filter_cons. simpl.
  destruct (decide (v <> "")) as [H|H].
  - rewrite (bool_decide_eq_true_2 _ H). reflexivity.
  - rewrite (bool_decide_eq_false_2 _ H). reflexivity.
Qed.

Lemma optional_conditions_dims uid agentID speakerID speakerName :
  optional_conditions uid agentID speakerID speakerName =
  map (fun kv => NewMatch (fst kv) (snd kv))
      (filter (fun kv => snd kv <> "") (filter_dimensions uid agentID speakerID speakerName)).
Proof.
  unfold filter_dimensions. rewrite !kept_dimension, filter_nil. unfold optional_conditions.
  destruct (bool_decide (uid <> "")), (bool_decide (agentID <> "")),
    (bool_decide (speakerID <> "")), (bool_decide (speakerName <> "")); reflexivity.
Qed.

Lemma optional_conditions_nil uid agentID speakerID speakerName :
  optional_conditions uid agentID speakerID speakerName = [] <->
  uid = "" /\ agentID = "" /\ speakerID = "" /\ speakerName = "".
Proof.
  unfold optional_conditions. split.
  - destruct (decide (uid = "")), (decide (agentID = "")), (decide (speakerID = "")),
      (decide (speakerName = "")); auto;
    repeat (first [ rewrite (bool_decide_eq_true_2 (_ <> "")) by assumption
                  | rewrite (bool_decide_eq_false_2 (_ <> "")) by auto ]);
    simpl; discriminate.
  - intros (-> & -> & -> & ->). reflexivity.
Qed.

(** what [SearchWithOptionalFilters] returns and what it leaves in the
    store's log, by the state of the store *)
Lemma SearchWithOptionalFilters_result (db : QdrantVectorDB)
    (uid agentID speakerID speakerName : string) (q : list float32)
    (threshold : float32) (topK : Z) (s : Server) :
  let req := SearchWithOptionalFilters_request db uid agentID speakerID speakerName q topK in
  SearchWithOptionalFilters db uid agentID speakerID speakerName q threshold topK s =
    match faults s Query, collections s !! collectionName db with
    | Some msg, _ => (Err ("failed to search: " +:+ msg), log (RpcQuery req) false s)
    | None, None =>
        (Err ("failed to search: " +:+ missing_collection s), log (RpcQuery req) false s)
    | None, Some c =>
        (Ok (convert_points threshold
               (take (Z.to_nat (search_limit topK))
                  (knn s (normalizeVector q)
                     (candidates (optional_filter uid agentID speakerID speakerName) c)))),
         log (RpcQuery req) true s)
    end.
Proof.
  intros req. unfold SearchWithOptionalFilters, st_bind, st_wrap, client_Query, rpc, with_collection.
  fold req. cbn [rpc_of]. destruct (faults s Query); [reflexivity|].
  cbn [qp_CollectionName req SearchWithOptionalFilters_request].
  destruct (collections s !! collectionName db); reflexivity.
Qed.

(** C2. The filter of the optional-filter search is the conjunction of one
    equality predicate per non-empty dimension among uid, agent_id,
    speaker_id and speaker_name, in that order; an empty dimension adds no
    predicate, so a point passes whatever its value in that field; with all
    four empty there is no filter.  [SearchWithOptionalFilters] submits its
    query with that filter, or with none: whatever the state of the store,
    it issues one Query RPC on the client's collection, and the request
    carries that filter.  When the RPC works and the collection exists, the
    answer is the store's ranking of the points that pass, cut at the limit
    and converted; the points that pass are the stored points that hold the
    given value in every non-empty dimension. *)
Theorem optional_filter_non_empty_dimensions
    (db : QdrantVectorDB) (uid agentID speakerID speakerName : string)
    (q : list float32) (topK : Z) :
  let dims := filter_dimensions uid agentID speakerID speakerName in
  let preds := map (fun kv => NewMatch (fst kv) (snd kv))
                   (filter (fun kv => snd kv <> "") dims) in
  let submitted := if bool_decide (uid = "" /\ agentID = "" /\ speakerID = "" /\ speakerName = "")
                   then None else Some {| Must := preds |} in
  optional_conditions uid agentID speakerID speakerName = preds /\
  qp_Filter (SearchWithOptionalFilters_request db uid agentID speakerID speakerName q topK)
    = submitted /\
  (forall payload : gmap string Value,
     filter_holds (optional_filter uid agentID speakerID speakerName) payload = true <->
     (forall k v, (k, v) ∈ dims -> v <> "" -> payload !! k = Some (StringValue v))) /\
  (forall (threshold : float32) (s : Server),
     let out := SearchWithOptionalFilters db uid agentID speakerID speakerName q threshold topK s in
     exists req,
       calls (snd out) = (RpcQuery req, is_ok (fst out)) :: calls s /\
       qp_CollectionName req = collectionName db /\
       qp_Filter req = submitted /\
       (faults s Query = None ->
        forall c, collections s !! collectionName db = Some c ->
          fst out = Ok (convert_points threshold
                          (take (Z.to_nat (search_limit topK))
                             (knn s (normalizeVector q) (candidates submitted c)))) /\
          (forall p, p ∈ candidates submitted c <->
             (exists id, points c !! id = Some p) /\
             (forall k v, (k, v) ∈ dims -> v <> "" ->
                          ps_Payload p !! k = Some (StringValue v))))).
Proof.
  intros dims preds submitted.
  pose proof (optional_conditions_dims uid agentID speakerID speakerName) as E.
  pose proof (optional_conditions_nil uid agentID speakerID speakerName) as N.
  fold dims in E. fold preds in E. rewrite E in N.
  assert (F : optional_filter uid agentID speakerID speakerName = submitted).
  { unfold optional_filter, submitted. rewrite E. case_bool_decide as D.
    - apply N in D. rewrite D. reflexivity.
    - destruct preds; [exfalso; apply D, N; reflexivity | reflexivity]. }
  assert (P : forall payload : gmap string Value,
            filter_holds submitted payload = true <->
            (forall k v, (k, v) ∈ dims -> v <> "" -> payload !! k = Some (StringValue v))).
  { intros payload.
    assert (Hp : forall c, c ∈ preds <->
                   exists k v, c = NewMatch k v /\ (k, v) ∈ dims /\ v <> "").
    { intros c. unfold preds. rewrite list_elem_of_fmap. split.
      - intros [[k v] [-> Hin]]. apply list_elem_of_filter in Hin as [Hne Hin]. eauto.
      - intros (k & v & -> & Hin & Hne). exists (k, v). split; [reflexivity|].
        apply list_elem_of_filter. auto. }
    unfold submitted. case_bool_decide as D; simpl.
    - split; [|reflexivity]. intros _ k v Hin Hne.
      assert (Hc : NewMatch k v ∈ preds) by (apply Hp; eauto).
      apply N in D. rewrite D in Hc. inversion Hc.
    - rewrite forallb_forall. split.
      + intros H k v Hin Hne. specialize (H (NewMatch k v)). simpl in H.
        eapply bool_decide_eq_true_1. apply H, list_elem_of_In, Hp. eauto.
      + intros H c Hc. apply list_elem_of_In, Hp in Hc as (k & v & -> & Hin & Hne).
        simpl. eapply bool_decide_eq_true_2. auto. }
  split; [exact E|]. split; [exact F|]. split; [intros payload; rewrite F; apply P|].
  intros threshold s out.
  exists (SearchWithOptionalFilters_request db uid agentID speakerID speakerName q topK).
  pose proof (SearchWithOptionalFilters_result db uid agentID speakerID speakerName q
                threshold topK s) as R.
  cbv zeta in R. fold out in R. rewrite F in R.
  split; [|split; [reflexivity|split; [exact F|]]].
  - rewrite R. destruct (faults s Query); [reflexivity|].
    destruct (collections s !! collectionName db); reflexivity.
  - intros Fq c C. rewrite Fq, C in R. split; [rewrite R; reflexivity|].
    intros p. unfold candidates. rewrite list_elem_of_filter, list_elem_of_fmap, P.
    split.
    + intros [H ([id p'] & -> & I)]. apply elem_of_map_to_list in I. eauto.
    + intros [[id I] H]. split; [exact H|]. exists (id, p). split; [reflexivity|].
      now apply elem_of_map_to_list.
Qed.

(** ** Scores, clamping and the threshold *)

Lemma SFcompare_antisym x y : SFcompare y x = option_map CompOpp (SFcompare x y).
Proof.
  destruct x as [sx|sx| |sx mx ex], y as [sy|sy| |sy my ey]; simpl;
    try destruct sx; try destruct sy; simpl; try reflexivity.
  all: rewrite (Z.compare_antisym ex ey); destruct (ex ?= ey) eqn:E; simpl; try reflexivity.
  all: rewrite (ZC4 my mx); try rewrite CompOpp_involutive; reflexivity.
Qed.

Lemma SFcompare_total x y :
  F32.is_nan x = false -> F32.is_nan y = false -> exists c, SFcompare x y = Some c.
Proof. destruct x, y; simpl; try discriminate; eauto. Qed.

Lemma ltb_false_leb x y :
  F32.is_nan x = false -> F32.is_nan y = false -> F32.ltb x y = false -> F32.leb y x = true.
Proof.
  intros Hx Hy. destruct (SFcompare_total x y Hx Hy) as [c Hc].
  unfold F32.ltb, F32.leb, SFltb, SFleb. rewrite (SFcompare_antisym x y), Hc.
  destruct c; simpl; congruence.
Qed.

Lemma clamp_score_range score :
  F32.is_nan score = false ->
  F32.leb F32.neg_one (clamp_score score) = true /\ F32.leb (clamp_score score) F32.one = true.
Proof.
  intros Hn. unfold clamp_score.
  destruct (F32.ltb score F32.neg_one) eqn:L1; [split; reflexivity|].
  destruct (F32.ltb F32.one score) eqn:L2; [split; reflexivity|].
  split; apply ltb_false_leb; auto.
Qed.

Lemma clamp_score_nan score : F32.is_nan (clamp_score score) = F32.is_nan score.
Proof.
  unfold clamp_score.
  destruct (F32.ltb score F32.neg_one) eqn:L1.
  { destruct score; try discriminate; reflexivity. }
  destruct (F32.ltb F32.one score) eqn:L2; [|reflexivity].
  destruct score; try discriminate; reflexivity.
Qed.

Lemma convert_points_elem threshold hits r :
  r ∈ convert_points threshold hits ->
  exists p, p ∈ hits /\ convert_point threshold p = Some r.
Proof. unfold convert_points. rewrite list_elem_of_omap. intros (p & Hp & E). eauto. Qed.

Lemma convert_point_some threshold p r :
  convert_point threshold p = Some r ->
  sr_Confidence r = clamp_score (sp_Score p) /\ F32.ltb (sr_Confidence r) threshold = false.
Proof.
  unfold convert_point. destruct (sp_Payload p); [|discriminate].
  destruct (F32.ltb (clamp_score (sp_Score p)) threshold) eqn:L; [discriminate|].
  intros [= <-]. simpl. auto.
Qed.

Lemma search_ok_inv {A B} (prefix : string) (m : ST Server A) (f : A -> B) s rs s' :
  (do x <- st_wrap prefix m; st_ret (f x)) s = (Ok rs, s') ->
  exists hits, m s = (Ok hits, s') /\ rs = f hits.
Proof.
  unfold st_bind, st_wrap, st_ret. destruct (m s) as [[hits|msg] s1]; simpl; [|discriminate].
  intros [= <- <-]. eauto.
Qed.

(** What the result loop of both searches achieves.  Both searches answer
    with the store's hits converted by the same loop.  The confidence of
    every returned result is the store's raw score clamped (below -1 becomes
    -1, above 1 becomes 1, anything else unchanged), and it is not strictly
    below the threshold; a hit whose clamped score is strictly below the
    threshold is dropped.  If the raw score is not NaN the confidence lies
    in [-1, 1], and if the threshold is not NaN either, the confidence is at
    least the threshold. *)
Theorem search_confidence_clamped_thresholded
    db uid agentID speakerID speakerName q threshold topK s rs s' :
  SearchWithOptionalFilters db uid agentID speakerID speakerName q threshold topK s = (Ok rs, s')
  \/ SearchWithFilter db uid agentID speakerID q threshold topK s = (Ok rs, s') ->
  exists req hits,
    client_Query req s = (Ok hits, s') /\
    rs = convert_points threshold hits /\
    (forall p, p ∈ hits -> F32.ltb (clamp_score (sp_Score p)) threshold = true ->
               convert_point threshold p = None) /\
    (forall r, r ∈ rs ->
       exists p, p ∈ hits /\
         sr_Confidence r = clamp_score (sp_Score p) /\
         (F32.ltb (sp_Score p) F32.neg_one = true -> sr_Confidence r = F32.neg_one) /\
         (F32.ltb (sp_Score p) F32.neg_one = false -> F32.ltb F32.one (sp_Score p) = true ->
          sr_Confidence r = F32.one) /\
         (F32.ltb (sp_Score p) F32.neg_one = false -> F32.ltb F32.one (sp_Score p) = false ->
          sr_Confidence r = sp_Score p) /\
         F32.ltb (sr_Confidence r) threshold = false /\
         (F32.is_nan (sp_Score p) = false ->
          F32.leb F32.neg_one (sr_Confidence r) = true /\
          F32.leb (sr_Confidence r) F32.one = true /\
          (F32.is_nan threshold = false -> F32.leb threshold (sr_Confidence r) = true))).
Proof.
  intros H.
  assert (exists req hits, client_Query req s = (Ok hits, s') /\ rs = convert_points threshold hits)
    as (req & hits & HQ & ->).
  { destruct H as [H|H]; apply search_ok_inv in H as (hits & HQ & ->); eauto. }
  exists req, hits. split; [exact HQ|]. split; [reflexivity|]. split.
  - intros p _ L. unfold convert_point. destruct (sp_Payload p); [|reflexivity]. now rewrite L.
  - intros r Hr. apply convert_points_elem in Hr as (p & Hp & E).
    apply convert_point_some in E as [EC ET]. exists p. split; [exact Hp|].
    split; [exact EC|]. rewrite EC in *. unfold clamp_score at 1 2 3.
    repeat split.
    + intros ->. reflexivity.
    + intros -> ->. reflexivity.
    + intros -> ->. reflexivity.
    + exact ET.
    + apply clamp_score_range; assumption.
    + apply clamp_score_range; assumption.
    + intros Ht. apply ltb_false_leb; auto. now rewrite clamp_score_nan.
Qed.

Lemma search_confidence_clamped_thresholded_witness :
  exists r s',
    SearchWithOptionalFilters demo_db "u1" "a1" "" "" [F32.of_Z 3; F32.of_Z 4] one_half 1
      demo_enrolled = (Ok [r], s') /\
    sr_SpeakerID r = "s1" /\ sr_Confidence r = F32.one.
Proof.
  pose (res := SearchWithOptionalFilters demo_db "u1" "a1" "" "" [F32.of_Z 3; F32.of_Z 4]
                 one_half 1 demo_enrolled).
  pose (rs := match fst res with Ok rs => rs | Err _ => [] end).
  assert (E : res = (Ok rs, snd res)) by (apply pair_fst_eq; vm_compute; reflexivity).
  destruct (search_confidence_clamped_thresholded demo_db "u1" "a1" "" "" _ _ _ _ _ _ (or_introl E))
    as (req & hits & _ & _ & _ & _).
  exists (default {| sr_SpeakerID := ""; sr_SpeakerName := ""; sr_Confidence := F32.zero;
                     sr_Distance := F32.zero; sr_SampleIndex := 0 |} (head rs)), (snd res).
  repeat split; vm_compute; reflexivity.
Defined.

(** C3.  The clamp and the threshold test miss a NaN score.  The three
    comparisons [score < -1], [score > 1] and [confidence < threshold] are
    all false on NaN: for a store that reports the score NaN, the search
    with threshold 0.5 returns the candidate, with a confidence that is
    neither in [-1, 1] nor at least the threshold. *)
Lemma search_confidence_nan_counterexample :
  exists r s',
    SearchWithOptionalFilters demo_db "u1" "" "" "" [F32.of_Z 1; F32.of_Z 0] one_half 1
      (with_knn nan_knn demo_enrolled) = (Ok [r], s') /\
    F32.leb F32.neg_one (sr_Confidence r) = false /\
    F32.leb (sr_Confidence r) F32.one = false /\
    F32.leb one_half (sr_Confidence r) = false.
Proof.
  eexists _, _. split; [vm_compute; reflexivity|]. repeat split.
Qed.

(** ** Query normalisation *)

Lemma client_Query_trace (q : QueryPoints) (s : Server) :
  calls (snd (client_Query q s)) = (RpcQuery q, is_ok (fst (client_Query q s))) :: calls s /\
  collections (snd (client_Query q s)) = collections s /\
  faults (snd (client_Query q s)) = faults s.
Proof.
  unfold client_Query, rpc, with_collection. cbn [rpc_of].
  destruct (faults s Query); [auto|].
  destruct (collections s !! qp_CollectionName q); auto.
Qed.

Lemma search_trace {B} (prefix : string) (q : QueryPoints) (f : list ScoredPoint -> B) s :
  let res := (do x <- st_wrap prefix (client_Query q); st_ret (f x)) s in
  calls (snd res) = (RpcQuery q, is_ok (fst res)) :: calls s /\
  collections (snd res) = collections s /\
  faults (snd res) = faults s.
Proof.
  pose proof (client_Query_trace q s) as H. unfold st_bind, st_wrap, st_ret.
  destruct (client_Query q s) as [[hits|msg] s1]; exact H.
Qed.

(** C4 (as amended).  The optional-filter search, used by identify, submits
    the L2-normalised query; the strict-filter search, used by verify,
    submits the query unchanged and leaves normalisation to the store.  In
    both cases the submitted request is the one logged by the store. *)
Theorem query_normalised_only_in_optional_search
    db uid agentID speakerID speakerName (q : list float32) threshold topK s :
  let s1 := snd (SearchWithOptionalFilters db uid agentID speakerID speakerName q threshold topK s) in
  let s2 := snd (SearchWithFilter db uid agentID speakerID q threshold topK s) in
  (exists req ok, calls s1 = (RpcQuery req, ok) :: calls s /\ qp_Query req = normalizeVector q) /\
  (exists req ok, calls s2 = (RpcQuery req, ok) :: calls s /\ qp_Query req = q).
Proof.
  intros s1 s2. split.
  - exists (SearchWithOptionalFilters_request db uid agentID speakerID speakerName q topK).
    eexists. split; [|reflexivity]. apply search_trace.
  - exists (SearchWithFilter_request db uid agentID speakerID q topK).
    eexists. split; [|reflexivity]. apply search_trace.
Qed.

(** C4, as stated, fails for the strict-filter search: the query (3, 4) is
    submitted as it is, not as (0.6, 0.8). *)
Lemma strict_search_not_normalised_counterexample :
  let q := [F32.of_Z 3; F32.of_Z 4] in
  let s' := snd (SearchWithFilter demo_db "u1" "a1" "s1" q one_half 1 demo_enrolled) in
  exists req rest, calls s' = (RpcQuery req, true) :: rest /\
    qp_Query req = q /\
    normalizeVector q = [F32.of_decimal 6 1; F32.of_decimal 8 1] /\
    qp_Query req <> normalizeVector q.
Proof.
  eexists _, _. split; [vm_compute; reflexivity|].
  repeat split; try (vm_compute; reflexivity). vm_compute. discriminate.
Qed.

(** ** L2 normalisation *)









(** ** The streaming session *)

Section SessionProperties.

Context {VadHandle : Type}.
Variable ready : OnlineStream -> bool.
Variable compute : OnlineStream -> list float32.

Local Abbreviation session := (@StreamingIdentifier VadHandle).
Local Abbreviation finish := (FinishAndIdentify (VadHandle:=VadHandle) ready compute).
Local Abbreviation run := (session_calls (VadHandle:=VadHandle) ready compute).
Local Abbreviation call := (session_call (VadHandle:=VadHandle) ready compute).

Lemma release_count_delete h h' sh :
  release_count h (DeleteOnlineStream h' sh) =
  ((if decide (h' = h) then 1 else 0) + release_count h sh)%nat.
Proof.
  unfold release_count, DeleteOnlineStream. simpl. rewrite filter_cons.
  destruct (decide (h' = h)); reflexivity.
Qed.

Lemma release_count_fresh h sh :
  (forall h', h' ∈ deleted sh -> h' <> h) -> release_count h sh = 0%nat.
Proof.
  unfold release_count. induction (deleted sh) as [|h' l IH]; intros H; [reflexivity|].
  rewrite filter_cons, decide_False.
  - apply IH. intros h0 Hin. apply H. now right.
  - apply H. now left.
Qed.

Lemma cleanup_held (si : session) w h :
  sid_stream si = Some h ->
  cleanup (si, w) = (set_stream None si, set_sherpa (DeleteOnlineStream h (w_sherpa w)) w).
Proof. intros E. unfold cleanup. rewrite E. reflexivity. Qed.

Lemma cleanup_released (si : session) w :
  sid_stream si = None -> cleanup (si, w) = (si, w).
Proof. intros E. unfold cleanup. rewrite E. reflexivity. Qed.

(** what [FinishAndIdentify] does to an open session that holds its stream:
    on each of its four paths the session is finished and cleaned up once *)
Lemma finish_open (si : session) w h :
  sid_isFinished si = false -> sid_stream si = Some h ->
  exists r store',
    finish (si, w) =
      (r, (set_stream None (set_isFinished true si),
           {| w_sherpa := DeleteOnlineStream h (InputFinished h (w_sherpa w));
              w_store := store' |})) /\
    (r = Err "insufficient audio data for embedding extraction" \/
     r = Err "failed to extract embedding" \/
     (exists msg, r = Err ("failed to search in vector database: " +:+ msg)) \/
     (exists result, r = Ok result)).
Proof.
  intros F E. unfold FinishAndIdentify, cleanup, on_store. rewrite F, E.
  cbn [w_sherpa w_store set_sherpa set_isFinished set_stream sid_stream].
  destruct (negb _); [rewrite E; eauto 6|].
  destruct (_ =? 0); [rewrite E; eauto 6|].
  destruct (SearchWithOptionalFilters _ _ _ _ _ _ _ _ _) as [[rs|msg] s1];
    cbn [w_sherpa w_store set_sherpa set_isFinished set_stream sid_stream];
    rewrite E; eauto 8.
Qed.

Lemma call_released (c : SessionCall) (si : session) w :
  sid_stream si = None ->
  sid_stream (fst (call c (si, w))) = None /\
  w_sherpa (snd (call c (si, w))) = w_sherpa w.
Proof.
  intros E. destruct c as [audio| |]; unfold session_call.
  - unfold AcceptAudio. destruct (sid_isFinished si); [auto|]. rewrite E. auto.
  - unfold FinishAndIdentify. destruct (sid_isFinished si); [auto|]. rewrite E. auto.
  - unfold Close, cleanup. rewrite E. auto.
Qed.

Lemma run_cons (c : SessionCall) (cs : list SessionCall) (st : session * World) :
  run (c :: cs) st = run cs (call c st).
Proof. reflexivity. Qed.

Lemma run_released (cs : list SessionCall) (si : session) w :
  sid_stream si = None ->
  sid_stream (fst (run cs (si, w))) = None /\
  w_sherpa (snd (run cs (si, w))) = w_sherpa w.
Proof.
  revert si w. induction cs as [|c cs IH]; intros si w E; [auto|].
  rewrite run_cons.
  destruct (call c (si, w)) as [si1 w1] eqn:C.
  pose proof (call_released c si w E) as [E1 E2]. rewrite C in E1, E2. simpl in *.
  destruct (IH si1 w1 E1) as [I1 I2]. split; congruence.
Qed.

Lemma call_held (c : SessionCall) (si : session) w h :
  sid_stream si = Some h -> release_count h (w_sherpa w) = 0%nat ->
  let st' := call c (si, w) in
  (sid_stream (fst st') = Some h /\ release_count h (w_sherpa (snd st')) = 0%nat) \/
  (sid_stream (fst st') = None /\ release_count h (w_sherpa (snd st')) = 1%nat).
Proof.
  intros E R. destruct c as [audio| |]; unfold session_call; cbv zeta.
  - left. unfold AcceptAudio. destruct (sid_isFinished si); [auto|]. rewrite E. auto.
  - destruct (sid_isFinished si) eqn:F.
    + left. unfold FinishAndIdentify. rewrite F. auto.
    + right. destruct (finish_open si w h F E) as (r & store' & -> & _).
      cbn [fst snd set_stream sid_stream w_sherpa].
      split; [reflexivity|]. rewrite release_count_delete, decide_True by reflexivity.
      unfold release_count in *. cbn [InputFinished deleted]. rewrite R. reflexivity.
  - right. unfold Close, cleanup. rewrite E. cbn [fst snd set_stream sid_stream w_sherpa set_sherpa].
    split; [reflexivity|]. rewrite release_count_delete, decide_True by reflexivity. lia.
Qed.

Lemma run_held (cs : list SessionCall) (si : session) w h :
  sid_stream si = Some h -> release_count h (w_sherpa w) = 0%nat ->
  (release_count h (w_sherpa (snd (run cs (si, w)))) <= 1)%nat.
Proof.
  revert si w. induction cs as [|c cs IH]; intros si w E R; [simpl; lia|].
  rewrite run_cons.
  destruct (call c (si, w)) as [si1 w1] eqn:C.
  pose proof (call_held c si w h E R) as H. rewrite C in H. simpl in H.
  destruct H as [[E1 R1]|[E1 R1]].
  - apply IH; assumption.
  - destruct (run_released cs si1 w1 E1) as [_ ->]. lia.
Qed.

Lemma call_finished (c : SessionCall) (si : session) w :
  sid_isFinished si = true -> sid_isFinished (fst (call c (si, w))) = true.
Proof.
  intros F. destruct c as [audio| |]; unfold session_call.
  - unfold AcceptAudio. rewrite F. exact F.
  - unfold FinishAndIdentify. rewrite F. exact F.
  - unfold Close, cleanup. destruct (sid_stream si); exact F.
Qed.

Lemma run_finished (cs : list SessionCall) (si : session) w :
  sid_isFinished si = true -> sid_isFinished (fst (run cs (si, w))) = true.
Proof.
  revert si w. induction cs as [|c cs IH]; intros si w F; [exact F|].
  rewrite run_cons. pose proof (call_finished c si w F) as F1.
  destruct (call c (si, w)) as [si1 w1]. apply IH, F1.
Qed.

Lemma Close_twice (st : session * World) : Close (Close st) = Close st.
Proof.
  destruct st as [si w]. unfold Close, cleanup.
  destruct (sid_stream si) eqn:E; cbn [set_stream sid_stream]; [reflexivity|].
  rewrite E. reflexivity.
Qed.

(** a session that was closed before it was finished stays as it is,
    whatever is called on it *)
Lemma run_closed (cs : list SessionCall) (si : session) w :
  sid_isFinished si = false -> sid_stream si = None -> run cs (si, w) = (si, w).
Proof.
  intros F E. induction cs as [|c cs IH]; [reflexivity|].
  rewrite run_cons. replace (call c (si, w)) with (si, w); [exact IH|].
  destruct c as [audio| |]; unfold session_call, AcceptAudio, FinishAndIdentify, Close, cleanup;
    rewrite ?F, E; reflexivity.
Qed.

(** a session that is finished or closed refuses audio and a finish, and
    is not changed by the attempt *)
Lemma refused (si : session) w audioData :
  sid_isFinished si = true \/ sid_stream si = None ->
  let e := if sid_isFinished si then "stream already finished" else "stream is nil" in
  AcceptAudio audioData (si, w) = (Err e, (si, w)) /\ finish (si, w) = (Err e, (si, w)).
Proof.
  intros H. unfold AcceptAudio, FinishAndIdentify.
  destruct (sid_isFinished si); [split; reflexivity|].
  destruct H as [H|H]; [discriminate|]. rewrite H. split; reflexivity.
Qed.

(** C6 (as amended).  On a session in state FINISHED both [AcceptAudio] and
    [FinishAndIdentify] fail with "stream already finished" and change
    nothing, and the session stays FINISHED under every further sequence of
    calls, so every later accept or finish fails the same way.  A finish on
    an open session that holds its stream puts it in that state.  [Close]
    cannot fail; in any state it leaves the session without a stream and
    the stream it held deleted, and closing again, any number of times,
    changes nothing more.  A finish on a session that is not finished and
    holds no stream, as [Close] leaves it, fails with "stream is nil" and
    changes nothing: after a finish the session is FINISHED exactly when it
    was so before or held its stream.  In either case, once finish has been
    called, every later accept and every later finish fails and changes
    nothing, whatever was called in between: with "stream already finished"
    on a FINISHED session and with "stream is nil" otherwise. *)
Theorem finished_session_rejects_close_idempotent
    (si : session) (w : World) (audioData : list float32) :
  (sid_isFinished si = true ->
   AcceptAudio audioData (si, w) = (Err "stream already finished", (si, w)) /\
   finish (si, w) = (Err "stream already finished", (si, w)) /\
   forall cs, sid_isFinished (fst (run cs (si, w))) = true) /\
  (sid_isFinished si = false -> is_Some (sid_stream si) ->
   sid_isFinished (fst (snd (finish (si, w)))) = true) /\
  sid_stream (fst (Close (si, w))) = None /\
  (forall h, sid_stream si = Some h ->
             streams (w_sherpa (snd (Close (si, w)))) !! h = None) /\
  (forall n, Nat.iter (S n) Close (si, w) = Close (si, w)) /\
  (sid_isFinished si = false -> sid_stream si = None ->
   finish (si, w) = (Err "stream is nil", (si, w))) /\
  (sid_isFinished (fst (snd (finish (si, w)))) = true <->
   sid_isFinished si = true \/ is_Some (sid_stream si)) /\
  (forall cs,
     let st := run cs (snd (finish (si, w))) in
     let e := if sid_isFinished (fst (snd (finish (si, w))))
              then "stream already finished" else "stream is nil" in
     sid_isFinished (fst st) = sid_isFinished (fst (snd (finish (si, w)))) /\
     AcceptAudio audioData st = (Err e, st) /\
     finish st = (Err e, st)).
Proof.
  assert (After : sid_isFinished (fst (snd (finish (si, w)))) = true \/
                  (sid_isFinished (fst (snd (finish (si, w)))) = false /\
                   sid_stream (fst (snd (finish (si, w)))) = None /\
                   sid_isFinished si = false /\ sid_stream si = None)).
  { destruct (sid_isFinished si) eqn:F.
    - left. unfold FinishAndIdentify. rewrite F. exact F.
    - destruct (sid_stream si) as [h|] eqn:E.
      + left. destruct (finish_open si w h F E) as (r & store' & -> & _). reflexivity.
      + right. unfold FinishAndIdentify. rewrite F, E. auto. }
  split; [|split; [|split; [|split; [|split; [|split; [|split]]]]]].
  - intros H. repeat split.
    + unfold AcceptAudio. now rewrite H.
    + unfold FinishAndIdentify. now rewrite H.
    + intros cs. now apply run_finished.
  - intros F [h E]. destruct (finish_open si w h F E) as (r & store' & -> & _). reflexivity.
  - unfold Close, cleanup. destruct (sid_stream si) eqn:E; [reflexivity|exact E].
  - intros h E. unfold Close, cleanup. rewrite E. cbn. apply lookup_delete_eq.
  - intros n. induction n as [|n IH]; [reflexivity|].
    change (Close (Nat.iter (S n) Close (si, w)) = Close (si, w)).
    rewrite IH. apply Close_twice.
  - intros F E. unfold FinishAndIdentify. now rewrite F, E.
  - split.
    + intros H. destruct After as [_|(H' & _ & F & E)]; [|congruence].
      destruct (sid_isFinished si) eqn:F; [now left|]. right.
      destruct (sid_stream si) eqn:E; [eauto|].
      unfold FinishAndIdentify in H. rewrite F, E in H. cbn in H. congruence.
    + destruct After as [H|(_ & _ & F & E)]; [auto|].
      intros [H|[h H]]; congruence.
  - intros cs st e. subst st e.
    destruct (snd (finish (si, w))) as [si1 w1] eqn:S1. cbn [fst] in *.
    destruct After as [F1|(F1 & E1 & _)].
    + pose proof (run_finished cs si1 w1 F1) as F2.
      destruct (run cs (si1, w1)) as [si2 w2]. cbn [fst] in *.
      rewrite F1. split; [exact F2|].
      pose proof (refused si2 w2 audioData (or_introl F2)) as R. cbv zeta in R.
      rewrite F2 in R. exact R.
    + rewrite (run_closed cs si1 w1 F1 E1). cbn [fst]. split; [reflexivity|].
      pose proof (refused si1 w1 audioData (or_intror E1)) as R. cbv zeta in R.
      rewrite F1 in R |- *. exact R.
Qed.

(** C7.  The first [FinishAndIdentify] on an open session that holds a
    stream not yet released deletes that stream exactly once, whichever way
    it returns: extractor not ready, empty embedding, store search failure
    or success.  It returns with the session holding no stream.  Whatever
    calls follow, the stream stays released exactly once; and from the open
    session onwards no sequence of accept, finish and close calls releases
    it more than once. *)
Theorem finish_releases_stream_exactly_once (si : session) (w : World) (h : nat) :
  sid_isFinished si = false ->
  sid_stream si = Some h ->
  release_count h (w_sherpa w) = 0%nat ->
  (exists r si' w',
     finish (si, w) = (r, (si', w')) /\
     (r = Err "insufficient audio data for embedding extraction" \/
      r = Err "failed to extract embedding" \/
      (exists msg, r = Err ("failed to search in vector database: " +:+ msg)) \/
      (exists result, r = Ok result)) /\
     sid_stream si' = None /\
     sid_isFinished si' = true /\
     deleted (w_sherpa w') = h :: deleted (w_sherpa w) /\
     streams (w_sherpa w') !! h = None /\
     release_count h (w_sherpa w') = 1%nat /\
     forall cs, release_count h (w_sherpa (snd (run cs (si', w')))) = 1%nat) /\
  (forall cs, (release_count h (w_sherpa (snd (run cs (si, w)))) <= 1)%nat).
Proof.
  intros F E R. split; [|intros cs; now apply run_held].
  destruct (finish_open si w h F E) as (r & store' & EQ & Hr).
  eexists r, _, _. split; [exact EQ|]. split; [exact Hr|].
  assert (RC : release_count h (DeleteOnlineStream h (InputFinished h (w_sherpa w))) = 1%nat).
  { rewrite release_count_delete, decide_True by reflexivity.
    unfold release_count in *. cbn [InputFinished deleted]. rewrite R. reflexivity. }
  repeat split; try reflexivity.
  - cbn. apply lookup_delete_eq.
  - exact RC.
  - intros cs. edestruct (run_released cs) as [_ ->]; [reflexivity|]. exact RC.
Qed.

(** a session just created on a well-formed library state is open, holds
    its stream, and that stream has never been released *)
Lemma new_session_fresh (m : Manager VadHandle) uid agentID speakerID speakerName
    sampleRate threshold w :
  sherpa_wf (w_sherpa w) ->
  let '(si, w') := NewStreamingIdentifier m uid agentID speakerID speakerName
                     sampleRate threshold w in
  sid_isFinished si = false /\
  sid_stream si = Some (next_handle (w_sherpa w)) /\
  release_count (next_handle (w_sherpa w)) (w_sherpa w') = 0%nat.
Proof.
  intros WF. unfold NewStreamingIdentifier, CreateStream. cbn.
  repeat split. apply release_count_fresh. cbn.
  intros h' Hin ->. apply WF in Hin. lia.
Qed.

End SessionProperties.

Lemma finished_session_rejects_close_idempotent_witness :
  let st := snd (FinishAndIdentify demo_IsReady demo_Compute
                   (snd (AcceptAudio [F32.of_Z 3; F32.of_Z 4] demo_session))) in
  sid_isFinished (fst st) = true /\
  fst (AcceptAudio [F32.one] st) = Err "stream already finished" /\
  fst (FinishAndIdentify demo_IsReady demo_Compute st) = Err "stream already finished".
Proof.
  intros st.
  destruct (finished_session_rejects_close_idempotent demo_IsReady demo_Compute
              (fst st) (snd st) [F32.one]) as [H _].
  assert (F : sid_isFinished (fst st) = true) by (vm_compute; reflexivity).
  destruct (H F) as (HA & HF & _).
  split; [exact F|]. replace st with (fst st, snd st) by (destruct st; reflexivity).
  rewrite HA, HF. split; reflexivity.
Defined.

(** C6, as stated, fails for a finish that follows a close: finish has
    been called, but the session is not FINISHED, and the accept and the
    finish that follow fail with "stream is nil", not with "stream already
    finished". *)
Lemma finish_after_close_counterexample :
  let closed := Close demo_session in
  let st := snd (FinishAndIdentify demo_IsReady demo_Compute closed) in
  fst (FinishAndIdentify demo_IsReady demo_Compute closed) = Err "stream is nil" /\
  sid_isFinished (fst st) = false /\
  fst (AcceptAudio [F32.one] st) = Err "stream is nil" /\
  fst (FinishAndIdentify demo_IsReady demo_Compute st) = Err "stream is nil" /\
  fst (AcceptAudio [F32.one] st) <> Err "stream already finished" /\
  fst (FinishAndIdentify demo_IsReady demo_Compute st) <> Err "stream already finished".
Proof.
  repeat split; try (vm_compute; reflexivity); vm_compute; discriminate.
Qed.

Lemma finish_releases_stream_exactly_once_witness :
  let st := snd (AcceptAudio [F32.of_Z 3] demo_session) in
  fst (FinishAndIdentify demo_IsReady demo_Compute st)
    = Err "insufficient audio data for embedding extraction" /\
  release_count 0
    (w_sherpa (snd (session_calls demo_IsReady demo_Compute
                      [CallFinish; CallClose; CallFinish; CallClose] st))) = 1%nat.
Proof.
  intros st. split; [vm_compute; reflexivity|].
  assert (F : sid_isFinished (fst st) = false) by (vm_compute; reflexivity).
  assert (E : sid_stream (fst st) = Some 0%nat) by (vm_compute; reflexivity).
  assert (R : release_count 0 (w_sherpa (snd st)) = 0%nat) by (vm_compute; reflexivity).
  destruct (finish_releases_stream_exactly_once demo_IsReady demo_Compute
              (fst st) (snd st) 0%nat F E R)
    as [(r & si' & w' & EQ & _ & _ & _ & _ & _ & _ & Hcs) _].
  replace st with (fst st, snd st) by (destruct st; reflexivity).
  change (session_calls demo_IsReady demo_Compute
            [CallFinish; CallClose; CallFinish; CallClose] (fst st, snd st))
    with (session_calls demo_IsReady demo_Compute [CallClose; CallFinish; CallClose]
            (snd (FinishAndIdentify demo_IsReady demo_Compute (fst st, snd st)))).
  rewrite EQ. apply Hcs.
Defined.

(** ** Edge-preserving silence trimming *)



Section Trimming.

Context {VadHandle : Type}.
Variable ProcessAudio : VadHandle -> list Z -> VadHandle * result Z.
Variable hopSize : Z.
Variable int16_unrepresentable : float32 -> Z.
Hypothesis hopSize_pos : 0 < hopSize.

Local Abbreviation loop := (vad_frames_loop ProcessAudio hopSize int16_unrepresentable).
Local Abbreviation trim := (filterSilenceWithVADKeepEdges ProcessAudio hopSize int16_unrepresentable).











End Trimming.

(** the rates of common audio formats *)
Example silenceSamples_common_rates :
  silenceSamples 8000 = 800 /\ silenceSamples 16000 = 1600 /\
  silenceSamples 44100 = 4410 /\ silenceSamples 48000 = 4800 /\
  silenceSamples 11025 = 1102.
Proof. repeat split; vm_compute; reflexivity. Qed.



(** ** The sample index of an enrolment *)

Lemma client_Scroll_result (q : ScrollPoints) (s : Server) :
  fst (client_Scroll q s) =
    match faults s Scroll, collections s !! sc_CollectionName q with
    | Some msg, _ => Err msg
    | None, None => Err (missing_collection s)
    | None, Some c =>
        Ok (map (fun p => {| rp_Id := ps_Id p;
                              rp_Payload := if sc_WithPayload q then Some (ps_Payload p) else None |})
                (take (Z.to_nat (sc_Limit q)) (candidates (sc_Filter q) c)))
    end /\
  snd (client_Scroll q s) = log (RpcScroll q) (is_ok (fst (client_Scroll q s))) s.
Proof.
  unfold client_Scroll, rpc, with_collection. cbn [rpc_of].
  destruct (faults s Scroll); [auto|].
  cbn [collections log]. destruct (collections s !! sc_CollectionName q); auto.
Qed.

Lemma candidates_strict uid agentID speakerID (c : Collection) :
  agentID <> "" ->
  candidates (Some (strict_filter uid "speaker_id" speakerID agentID)) c
  = speaker_points uid agentID speakerID (points c).
Proof.
  intros Ha. unfold candidates, speaker_points. apply list_filter_iff. intros p.
  unfold filter_holds, strict_filter, matches_speaker.
  rewrite (bool_decide_eq_true_2 _ Ha). cbn [Must app forallb condition_holds].
  rewrite !andb_true_iff, !bool_decide_eq_true. tauto.
Qed.

Lemma GetSpeakerSampleCount_result db uid agentID speakerID (s : Server) :
  agentID <> "" ->
  let res := GetSpeakerSampleCount db uid agentID speakerID s in
  match faults s Scroll, collections s !! collectionName db with
  | None, Some c =>
      fst res = Ok (Z.min 10000
                      (Z.of_nat (length (speaker_points uid agentID speakerID (points c)))))
  | _, _ => is_ok (fst res) = false
  end /\
  collections (snd res) = collections s /\ faults (snd res) = faults s.
Proof.
  intros Ha res. subst res. unfold GetSpeakerSampleCount, st_bind, st_wrap, st_ret.
  set (q := strict_scroll db uid "speaker_id" speakerID agentID true).
  destruct (client_Scroll_result q s) as [Hr Hs].
  destruct (client_Scroll q s) as [r s1]. cbn [fst snd] in Hr, Hs. subst s1.
  cbn [sc_CollectionName q strict_scroll] in Hr.
  destruct (faults s Scroll) eqn:F.
  { subst r. cbn. auto. }
  destruct (collections s !! collectionName db) as [c|] eqn:C.
  2:{ subst r. cbn. auto. }
  subst r. cbn [wrap_err fst snd is_ok log collections faults].
  split; [|auto]. rewrite length_map, length_take. subst q.
  cbn [sc_Filter sc_Limit strict_scroll]. rewrite candidates_strict by exact Ha.
  unfold scroll_limit. f_equal. lia.
Qed.

Section Enrolment.

Context {VadHandle : Type}.
Variable ready : OnlineStream -> bool.
Variable compute : OnlineStream -> list float32.

Lemma extractEmbedding_store audioData sampleRate w :
  w_store (snd (extractEmbedding ready compute audioData sampleRate w)) = w_store w.
Proof.
  unfold extractEmbedding. destruct (CreateStream (w_sherpa w)) as [stream sh].
  destruct (negb _); [reflexivity|]. destruct (_ =? 0); reflexivity.
Qed.

(** C8 (as amended).  When the embedding has been extracted, the sample
    index of an enrolment is the number of stored points matching
    [(uid, agent_id, speaker_id)] as the bounded scroll reports it, that is,
    capped at 10000; when the count query fails (the Scroll RPC fails or the
    collection is missing) the index is 0.  In both cases the enrolment goes
    on to the insert with that index and fails only if the insert fails; a
    successful enrolment stores the new point under the ID of that index. *)
Theorem enrol_sample_index_capped_count
    (now : Z) (m : Manager VadHandle) (uid agentID speakerID speakerName uuid : string)
    (audioData embedding : list float32) (sampleRate : Z) (w w0 : World) :
  uid <> "" -> agentID <> "" -> uuid <> "" ->
  extractEmbedding ready compute audioData sampleRate w = (Ok embedding, w0) ->
  Z.of_nat (length embedding) = m_embeddingDim m ->
  let db := vectorDB m in
  let s := w_store w in
  let counted := GetSpeakerSampleCount db uid agentID speakerID s in
  let sampleIndex :=
    match faults s Scroll, collections s !! collectionName db with
    | None, Some c =>
        Z.min 10000 (Z.of_nat (length (speaker_points uid agentID speakerID (points c))))
    | _, _ => 0
    end in
  match faults s Scroll, collections s !! collectionName db with
  | None, Some _ => fst counted = Ok sampleIndex
  | _, _ => is_ok (fst counted) = false
  end /\
  RegisterSpeaker ready compute now m uid agentID speakerID speakerName uuid
    audioData sampleRate w
  = (let '(r, s2) := Insert db uid agentID speakerID speakerName uuid embedding
                       sampleIndex now now (snd counted) in
     (wrap_err "failed to insert to vector database: " r,
      {| w_sherpa := w_sherpa w0; w_store := s2 |})) /\
  (forall w',
     RegisterSpeaker ready compute now m uid agentID speakerID speakerName uuid
       audioData sampleRate w = (Ok tt, w') ->
     stored db (w_store w') =
       <[generatePointID uid agentID speakerID sampleIndex :=
           insert_point uid agentID speakerID speakerName uuid embedding sampleIndex now now]>
         (stored db s)).
Proof.
  intros Hu Ha Hid Hx Hd db s counted sampleIndex.
  pose proof (GetSpeakerSampleCount_result db uid agentID speakerID s Ha) as (Hc & Hcol & Hf).
  fold counted in Hc, Hcol, Hf.
  pose proof (extractEmbedding_store audioData sampleRate w) as Hs0. rewrite Hx in Hs0.
  cbn [snd] in Hs0.
  assert (Hreg :
    RegisterSpeaker ready compute now m uid agentID speakerID speakerName uuid
      audioData sampleRate w
    = (let '(r, s2) := Insert db uid agentID speakerID speakerName uuid embedding
                         sampleIndex now now (snd counted) in
       (wrap_err "failed to insert to vector database: " r,
        {| w_sherpa := w_sherpa w0; w_store := s2 |}))).
  { unfold RegisterSpeaker.
    rewrite (bool_decide_eq_false_2 _ Hu), (bool_decide_eq_false_2 _ Ha),
      (bool_decide_eq_false_2 _ Hid).
    unfold st_bind at 1. unfold st_wrap at 1. rewrite Hx. cbn [wrap_err].
    rewrite Hd, Z.eqb_refl. cbn [negb]. unfold on_store at 1. rewrite Hs0.
    fold db s counted. destruct counted as [r s1] eqn:Ec. cbn [fst snd] in *.
    assert (Hi : match r with Ok n => n | Err _ => 0 end = sampleIndex).
    { subst sampleIndex. destruct (faults s Scroll); [destruct r; [discriminate|reflexivity]|].
      destruct (collections s !! collectionName db); [subst r; reflexivity|].
      destruct r; [discriminate|reflexivity]. }
    rewrite Hi. unfold st_bind, st_wrap, on_store, st_ret. cbn [w_store w_sherpa].
    destruct (Insert db _ _ _ _ _ _ _ _ _ s1) as [[[]|msg] s2]; reflexivity. }
  split; [|split; [exact Hreg|]].
  - subst sampleIndex. destruct (faults s Scroll); [exact Hc|].
    destruct (collections s !! collectionName db); exact Hc.
  - intros w' Hok. rewrite Hreg in Hok.
    destruct (Insert db _ _ _ _ _ _ _ _ _ (snd counted)) as [[[]|msg] s2] eqn:Ei;
      [|discriminate].
    injection Hok as <-. cbn [w_store]. rewrite (Insert_ok _ _ _ _ _ _ _ _ _ _ _ _ Ei).
    unfold stored. rewrite Hcol. reflexivity.
Qed.

End Enrolment.

Lemma enrol_sample_index_capped_count_witness :
  exists w',
    RegisterSpeaker demo_IsReady demo_Compute 200 demo_manager
      "u1" "a1" "s1" "Alice" "U-2" [F32.of_Z 4; F32.of_Z 3] 16000 demo_world = (Ok tt, w') /\
    size (stored (vectorDB demo_manager) (w_store w')) = 2%nat.
Proof.
  pose (res := RegisterSpeaker demo_IsReady demo_Compute 200 demo_manager
                 "u1" "a1" "s1" "Alice" "U-2" [F32.of_Z 4; F32.of_Z 3] 16000 demo_world).
  assert (Hx : extractEmbedding demo_IsReady demo_Compute [F32.of_Z 4; F32.of_Z 3] 16000 demo_world
               = (Ok [F32.of_Z 4; F32.of_Z 3],
                  snd (extractEmbedding demo_IsReady demo_Compute [F32.of_Z 4; F32.of_Z 3]
                         16000 demo_world))) by (apply pair_fst_eq; vm_compute; reflexivity).
  assert (Hres : res = (Ok tt, snd res)) by (apply pair_fst_eq; vm_compute; reflexivity).
  pose proof (enrol_sample_index_capped_count demo_IsReady demo_Compute 200 demo_manager
                "u1" "a1" "s1" "Alice" "U-2" _ _ 16000 demo_world _
                ltac:(discriminate) ltac:(discriminate) ltac:(discriminate) Hx eq_refl)
    as (_ & _ & H).
  exists (snd res). split; [exact Hres|].
  rewrite (H _ Hres). vm_compute. reflexivity.
Defined.

(** C8, as stated, fails beyond 10000 samples: with 10001 stored points of
    the speaker, the new point gets sample index 10000, not 10001, and so
    replaces the point that had index 10000. *)
Lemma enrol_sample_index_cap_counterexample :
  let res := RegisterSpeaker demo_IsReady demo_Compute 777 demo_manager
               "u1" "a1" "s1" "Alice" "U-9" [F32.of_Z 4; F32.of_Z 3] 16000 crowded_world in
  let pts := stored demo_db (w_store (snd res)) in
  let written id :=
    option_map (fun p => (payload_integer (ps_Payload p) "sample_index",
                          payload_string (ps_Payload p) "uuid")) (pts !! id) in
  Z.of_nat (length (speaker_points "u1" "a1" "s1" crowded_points)) = 10001 /\
  fst res = Ok tt /\
  written (generatePointID "u1" "a1" "s1" 10000) = Some (10000, "U-9") /\
  written (generatePointID "u1" "a1" "s1" 10001) = None /\
  Z.of_nat (size pts) = 10001.
Proof.
  intros res pts written.
  assert (H : (Z.of_nat (length (speaker_points "u1" "a1" "s1" crowded_points)),
               fst res,
               written (generatePointID "u1" "a1" "s1" 10000),
               written (generatePointID "u1" "a1" "s1" 10001),
               Z.of_nat (size pts))
              = (10001, Ok tt, Some (10000, "U-9"), None, 10001))
    by (vm_compute; reflexivity).
  apply pair_equal_spec in H as [H H5]. apply pair_equal_spec in H as [H H4].
  apply pair_equal_spec in H as [H H3]. apply pair_equal_spec in H as [H1 H2].
  auto.
Qed.

(** ** Store failures and what the client sees *)

Section Traces.
Context {S : Type} (proj : S -> Server).

Lemma traced_ret {A} (a : A) : traced proj [] [] (st_ret a).
Proof.
  intros s. exists []. cbn. repeat split; auto using NoDup_nil_2.
Qed.


Lemma traced_weaken {A} K T K' T' (m : ST S A) :
  traced proj K T m -> K ⊆ K' -> T ⊆ T' -> traced proj K' T' m.
Proof.
  intros H HK HT s. destruct (H s) as (l & H1 & H2 & H3 & H4 & H5).
  exists l. repeat split; auto.
  - eapply Forall_impl; [exact H4|]. intros c Hc. apply HK, Hc.
  - intros Hok. eapply Forall_impl; [exact (H5 Hok)|]. intros c [Hc|Hc]; auto.
Qed.

Lemma traced_wrap {A} K T prefix (m : ST S A) :
  traced proj K T m -> traced proj K T (st_wrap prefix m).
Proof.
  intros H s. destruct (H s) as (l & H1 & H2 & H3 & H4 & H5).
  exists l. unfold st_wrap. destruct (m s) as [[a|msg] s1]; cbn in *; repeat split; auto.
Qed.

Lemma traced_bind {A B} K1 T1 K2 T2 (m : ST S A) (k : A -> ST S B) :
  traced proj K1 T1 m -> (forall a, traced proj K2 T2 (k a)) ->
  (forall r, r ∈ K1 -> r ∈ K2 -> False) ->
  traced proj (K1 ++ K2) (T1 ++ T2) (st_bind m k).
Proof.
  intros Hm Hk Hd s. destruct (Hm s) as (l1 & H1 & H2 & H3 & H4 & H5).
  unfold st_bind. destruct (m s) as [[a|msg] s1]; cbn [fst snd] in *.
  - destruct (Hk a s1) as (l2 & G1 & G2 & G3 & G4 & G5).
    exists (l2 ++ l1). rewrite G1, H1, G2, H2, app_assoc. repeat split; auto.
    + rewrite map_app. apply NoDup_app. repeat split; auto.
      intros r Hr2 Hr1. apply list_elem_of_fmap in Hr1 as (c1 & -> & Hc1).
      apply list_elem_of_fmap in Hr2 as (c2 & E & Hc2).
      rewrite Forall_forall in H4, G4. apply (Hd (kind c1)).
      * apply H4, Hc1.
      * rewrite E. apply G4, Hc2.
    + apply Forall_app. split.
      * eapply Forall_impl; [exact G4|]. intros c Hc. apply elem_of_app. auto.
      * eapply Forall_impl; [exact H4|]. intros c Hc. apply elem_of_app. auto.
    + intros Hok. apply Forall_app. split.
      * eapply Forall_impl; [exact (G5 Hok)|]. intros c [Hc|Hc]; auto.
        right. apply elem_of_app. auto.
      * eapply Forall_impl; [exact (H5 eq_refl)|]. intros c [Hc|Hc]; auto.
        right. apply elem_of_app. auto.
  - exists l1. repeat split; auto.
    + eapply Forall_impl; [exact H4|]. intros c Hc. apply elem_of_app. auto.
    + discriminate.
Qed.

End Traces.

Local Abbreviation self := (fun s : Server => s).

Lemma traced_rpc {A} (r : RpcCall) (body : ST Server A) :
  (forall s, calls (snd (body s)) = calls s /\ faults (snd (body s)) = faults s) ->
  traced self [rpc_of r] [] (rpc r body).
Proof.
  intros Hb s. unfold rpc. destruct (faults s (rpc_of r)) eqn:F.
  - exists [(r, false)]. cbn [fst snd log calls faults app map is_ok].
    split; [reflexivity|]. split; [reflexivity|]. split; [apply NoDup_singleton|].
    split; [|discriminate].
    repeat constructor.
  - destruct (Hb s) as [B1 B2]. destruct (body s) as [res s1]. cbn [fst snd] in *.
    exists [(r, is_ok res)]. cbn [fst snd log calls faults app map is_ok].
    split; [now rewrite B1|]. split; [exact B2|]. split; [apply NoDup_singleton|].
    split.
    + repeat constructor.
    + intros ->. repeat constructor.
Qed.

Lemma with_collection_quiet {A} name (k : Collection -> ST Server A) :
  (forall c s, calls (snd (k c s)) = calls s /\ faults (snd (k c s)) = faults s) ->
  forall s, calls (snd (with_collection name k s)) = calls s /\
            faults (snd (with_collection name k s)) = faults s.
Proof.
  intros Hk s. unfold with_collection. destruct (collections s !! name); [apply Hk|auto].
Qed.

Lemma traced_GetCollectionInfo name : traced self [GetCollectionInfo] [] (client_GetCollectionInfo name).
Proof. apply (traced_rpc (RpcGetCollectionInfo name)), with_collection_quiet. auto. Qed.

Lemma traced_CreateCollection name size :
  traced self [CreateCollection] [] (client_CreateCollection name size).
Proof.
  apply (traced_rpc (RpcCreateCollection name size)). intros s.
  destruct (collections s !! name); auto.
Qed.

Lemma traced_Upsert name ps : traced self [Upsert] [] (client_Upsert name ps).
Proof. apply (traced_rpc (RpcUpsert name ps)), with_collection_quiet. auto. Qed.


Lemma traced_Scroll q : traced self [Scroll] [] (client_Scroll q).
Proof. apply (traced_rpc (RpcScroll q)), with_collection_quiet. auto. Qed.


Section MoreTraces.
Context {S : Type} (proj : S -> Server).

Lemma traced_same {A B} K T (m : ST S A) (m' : ST S B) :
  (forall s, snd (m' s) = snd (m s) /\ (is_ok (fst (m' s)) = true -> is_ok (fst (m s)) = true)) ->
  traced proj K T m -> traced proj K T m'.
Proof.
  intros E H s. destruct (H s) as (l & H1 & H2 & H3 & H4 & H5). destruct (E s) as [E1 E2].
  exists l. rewrite E1. repeat split; auto.
Qed.

Lemma traced_ext {A} K T (m m' : ST S A) :
  (forall s, m' s = m s) -> traced proj K T m -> traced proj K T m'.
Proof. intros E. apply traced_same. intros s. rewrite E. auto. Qed.

(** a computation whose error is handled: the calls of the handled part
    may have failed although the whole succeeds *)
Lemma traced_catch {A B} K1 T1 K2 T2 (m : ST S A) (onok : A -> ST S B) (onerr : string -> ST S B) :
  traced proj K1 T1 m ->
  (forall a, traced proj K2 T2 (onok a)) ->
  (forall e, traced proj K2 T2 (onerr e)) ->
  (forall r, r ∈ K1 -> r ∈ K2 -> False) ->
  traced proj (K1 ++ K2) (K1 ++ T2)
    (fun s => match m s with
              | (Ok a, s1) => onok a s1
              | (Err e, s1) => onerr e s1
              end).
Proof.
  intros Hm Hok Herr Hd s. destruct (Hm s) as (l1 & H1 & H2 & H3 & H4 & H5).
  assert (G : exists k : ST S B,
             traced proj K2 T2 k /\
             match m s with (Ok a, s1) => onok a s1 | (Err e, s1) => onerr e s1 end
             = k (snd (m s))).
  { destruct (m s) as [[a|e] s1]; [exists (onok a)|exists (onerr e)]; split; auto. }
  destruct G as (k & Hk & ->). set (s1 := snd (m s)) in *.
  destruct (Hk s1) as (l2 & G1 & G2 & G3 & G4 & G5).
  exists (l2 ++ l1). rewrite G1, H1, G2, H2, app_assoc. repeat split; auto.
  - rewrite map_app. apply NoDup_app. repeat split; auto.
    intros r Hr2 Hr1. apply list_elem_of_fmap in Hr1 as (c1 & -> & Hc1).
    apply list_elem_of_fmap in Hr2 as (c2 & E & Hc2).
    rewrite Forall_forall in H4, G4. apply (Hd (kind c1)).
    + apply H4, Hc1.
    + rewrite E. apply G4, Hc2.
  - apply Forall_app. split.
    + eapply Forall_impl; [exact G4|]. intros c Hc. apply elem_of_app. auto.
    + eapply Forall_impl; [exact H4|]. intros c Hc. apply elem_of_app. auto.
  - intros Hok'. apply Forall_app. split.
    + eapply Forall_impl; [exact (G5 Hok')|]. intros c [Hc|Hc]; auto.
      right. apply elem_of_app. auto.
    + eapply Forall_impl; [exact H4|]. intros c Hc. right. apply elem_of_app. auto.
Qed.

End MoreTraces.

(** *** The client operations *)

Ltac rpc_disjoint :=
  let r := fresh in let H1 := fresh in let H2 := fresh in
  intros r H1 H2;
  repeat (apply elem_of_cons in H1 as [H1|H1]; [subst r|]);
  try (now inversion H1);
  repeat (apply elem_of_cons in H2 as [H2|H2]; [discriminate H2|]);
  now inversion H2.

Ltac rpc_subset :=
  let r := fresh in let H := fresh in
  intros r H;
  repeat (apply elem_of_app in H as [H|H]);
  repeat (apply elem_of_cons in H as [H|H]; [subst r; repeat constructor|]);
  try (now inversion H).

Lemma traced_ensureCollectionExists db :
  traced self [GetCollectionInfo; CreateCollection] [GetCollectionInfo]
    (ensureCollectionExists db).
Proof.
  eapply traced_weaken.
  - eapply (traced_ext self _ _
             (fun s => match client_GetCollectionInfo (collectionName db) s with
                       | (Ok a, s1) => st_ret tt s1
                       | (Err e, s1) =>
                           st_wrap "failed to create collection: "
                             (client_CreateCollection (collectionName db)
                                (embeddingDim db mod 2 ^ 64)) s1
                       end)).
    + intros s. reflexivity.
    + eapply traced_catch.
      * apply traced_GetCollectionInfo.
      * intros a. eapply traced_weaken; [apply traced_ret| |]; rpc_subset.
      * intros e. apply traced_wrap, traced_CreateCollection.
      * rpc_disjoint.
  - rpc_subset.
  - rpc_subset.
Qed.

Lemma traced_Insert db uid a sp name uuid emb i c u :
  traced self [GetCollectionInfo; CreateCollection; Upsert] [GetCollectionInfo]
    (Insert db uid a sp name uuid emb i c u).
Proof.
  unfold Insert. eapply traced_weaken.
  - eapply traced_bind.
    + apply traced_wrap, traced_ensureCollectionExists.
    + intros _. eapply traced_bind.
      * apply traced_wrap, traced_Upsert.
      * intros _. apply traced_ret.
      * rpc_disjoint.
    + rpc_disjoint.
  - rpc_subset.
  - rpc_subset.
Qed.


Lemma traced_scroll_then {B} prefix q K T (k : list RetrievedPoint -> ST Server B) :
  (forall r, traced self K T (k r)) ->
  (forall r, r ∈ [Scroll] -> r ∈ K -> False) ->
  traced self (Scroll :: K) T (do x <- st_wrap prefix (client_Scroll q); k x).
Proof.
  intros Hk Hd. eapply traced_weaken.
  - eapply traced_bind; [apply traced_wrap, traced_Scroll|exact Hk|exact Hd].
  - intros r Hr. exact Hr.
  - intros r Hr. exact Hr.
Qed.



Lemma traced_GetAllSpeakers db uid a : traced self [Scroll] [] (GetAllSpeakers db uid a).
Proof.
  apply traced_scroll_then; [intros r; apply traced_ret|rpc_disjoint].
Qed.




(** *** The manager operations *)



Section ManagerTraces.

Context {VadHandle : Type}.
Variable ready : OnlineStream -> bool.
Variable compute : OnlineStream -> list float32.
Variable m : Manager VadHandle.







End ManagerTraces.

(** *** The handlers *)




Section HandlerTraces.

Context {VadHandle : Type}.
Variable ready : OnlineStream -> bool.
Variable compute : OnlineStream -> list float32.
Variable parseFloat32 : string -> result float32.
Variable ProcessAudio : VadHandle -> list Z -> VadHandle * result Z.
Variable hopSize : Z.
Variable int16_unrepresentable : float32 -> Z.
Variable wsMaxMessageSize : Z.
Variable m : Manager VadHandle.














End HandlerTraces.



(** * Further properties *)

(** the collection of the demo store, as the enrolment left it *)
Lemma demo_collection :
  exists c, collections demo_enrolled !! collectionName demo_db = Some c /\
            points c = stored demo_db demo_enrolled.
Proof.
  unfold stored. destruct (collections demo_enrolled !! collectionName demo_db) as [c|] eqn:C.
  - exists c. split; reflexivity.
  - exfalso. vm_compute in C. discriminate.
Qed.

(** ** Embedding extraction and streaming sessions *)

Section ExtractProperties.
Variable ready : OnlineStream -> bool.
Variable compute : OnlineStream -> list float32.

(** X1.  [extractEmbedding] works on a stream of its own and deletes it on
    every return path.  It creates one stream, gives it the whole buffer at
    the given rate and marks the input finished.  The result is the
    insufficient-audio error when the extractor is not ready on that stream,
    the failed-to-extract error when the computed embedding is empty, and
    the embedding otherwise.  In all three cases the deletion log gains the
    handle of the new stream and nothing else, the live streams are those
    from before the call (when the live handles were below the next handle
    to be handed out), and the store is not touched. *)
Theorem extractEmbedding_releases_its_stream (audioData : list float32) (sampleRate : Z)
    (w : World) :
  let out := extractEmbedding ready compute audioData sampleRate w in
  let h := next_handle (w_sherpa w) in
  let st := {| os_chunks := [(sampleRate, audioData)]; os_inputFinished := true |} in
  fst out = (if negb (ready st) then Err "insufficient audio data for embedding extraction"
             else if Z.of_nat (length (compute st)) =? 0 then Err "failed to extract embedding"
             else Ok (compute st)) /\
  deleted (w_sherpa (snd out)) = h :: deleted (w_sherpa w) /\
  next_handle (w_sherpa (snd out)) = S h /\
  streams (w_sherpa (snd out)) = delete h (streams (w_sherpa w)) /\
  (streams_below (w_sherpa w) -> streams (w_sherpa (snd out)) = streams (w_sherpa w)) /\
  w_store (snd out) = w_store w.
Proof.
  intros out h st. subst out. unfold extractEmbedding, CreateStream.
  fold h.
  set (sh := InputFinished h (AcceptWaveform h sampleRate audioData
               {| streams := <[h := {| os_chunks := []; os_inputFinished := false |}]>
                               (streams (w_sherpa w));
                  next_handle := S h; deleted := deleted (w_sherpa w) |})).
  assert (L : streams sh !! h = Some st).
  { subst sh. unfold InputFinished, AcceptWaveform. cbn [streams].
    rewrite !lookup_alter_eq, lookup_insert_eq. reflexivity. }
  assert (D : delete h (streams sh) = delete h (streams (w_sherpa w))).
  { subst sh. unfold InputFinished, AcceptWaveform. cbn [streams].
    rewrite !delete_alter_eq. apply delete_insert_eq. }
  assert (R : IsReady ready h sh = ready st) by (unfold IsReady; now rewrite L).
  assert (C : Compute compute h sh = compute st) by (unfold Compute; now rewrite L).
  assert (B : streams_below (w_sherpa w) -> delete h (streams (w_sherpa w)) = streams (w_sherpa w)).
  { intros W. apply delete_id. destruct (streams (w_sherpa w) !! h) eqn:E; [|reflexivity].
    specialize (W h (ex_intro _ _ E)). subst h. lia. }
  rewrite R, C.
  destruct (negb (ready st)); [|destruct (_ =? 0)];
    cbn [fst snd set_sherpa w_sherpa w_store DeleteOnlineStream deleted next_handle streams];
    rewrite ?D; repeat split; auto; intros W; now rewrite B.
Qed.

End ExtractProperties.

Section SessionExtras.
Context {VadHandle : Type}.
Variable ready : OnlineStream -> bool.
Variable compute : OnlineStream -> list float32.

Local Abbreviation session := (@StreamingIdentifier VadHandle).
Local Abbreviation finish := (FinishAndIdentify (VadHandle:=VadHandle) ready compute).
Local Abbreviation run := (session_calls (VadHandle:=VadHandle) ready compute).

(** X2.  Once a session that was not finished has been closed,
    [AcceptAudio] and [FinishAndIdentify] fail with [stream is nil] and
    change neither the session nor the world; in particular the session is
    still not marked finished. *)
Theorem closed_session_reports_nil_stream (si : session) (w : World) (audioData : list float32) :
  sid_isFinished si = false ->
  let st := Close (si, w) in
  AcceptAudio audioData st = (Err "stream is nil", st) /\
  finish st = (Err "stream is nil", st) /\
  sid_isFinished (fst st) = false.
Proof.
  intros F st. subst st. unfold Close, cleanup.
  destruct (sid_stream si) eqn:E; unfold AcceptAudio, FinishAndIdentify;
    cbn [set_stream sid_isFinished sid_stream]; rewrite F, ?E; auto.
Qed.

Lemma accept_open (si : session) (w : World) (h : nat) (audioData : list float32) :
  sid_isFinished si = false -> sid_stream si = Some h ->
  AcceptAudio audioData (si, w) =
    (Ok tt, (si, set_sherpa (AcceptWaveform h (sid_sampleRate si) audioData (w_sherpa w)) w)).
Proof. intros F E. unfold AcceptAudio. now rewrite F, E. Qed.

Lemma run_accepts (chunks : list (list float32)) (si : session) (w : World) (h : nat)
    (st0 : OnlineStream) :
  sid_isFinished si = false -> sid_stream si = Some h ->
  streams (w_sherpa w) !! h = Some st0 ->
  run (map CallAccept chunks) (si, w) =
    (si, set_sherpa
           {| streams := <[h := {| os_chunks := os_chunks st0 ++
                                      map (fun a => (sid_sampleRate si, a)) chunks;
                                    os_inputFinished := os_inputFinished st0 |}]>
                           (streams (w_sherpa w));
              next_handle := next_handle (w_sherpa w);
              deleted := deleted (w_sherpa w) |} w).
Proof.
  intros F E. revert w st0. induction chunks as [|a chunks IH]; intros w st0 L.
  - cbn [map]. unfold session_calls. cbn [fold_left]. rewrite app_nil_r.
    destruct w as [[ss n d] store]. cbn in *. unfold set_sherpa. cbn.
    rewrite insert_id; [reflexivity|]. rewrite L. now destruct st0.
  - cbn [map]. rewrite (run_cons ready compute).
    unfold session_call. rewrite (accept_open si w h a F E). cbn [snd].
    rewrite (IH _ {| os_chunks := os_chunks st0 ++ [(sid_sampleRate si, a)];
                     os_inputFinished := os_inputFinished st0 |}).
    + unfold set_sherpa, AcceptWaveform. cbn. f_equal. f_equal. f_equal.
      rewrite <- app_assoc. cbn [app].
      apply map_eq. intros k. destruct (decide (k = h)) as [->|N].
      * now rewrite !lookup_insert_eq.
      * now rewrite !lookup_insert_ne, lookup_alter_ne by congruence.
    + unfold set_sherpa, AcceptWaveform. cbn. now rewrite lookup_alter_eq, L.
Qed.

(** X3.  On an open session that holds a live stream, a run of
    [AcceptAudio] calls leaves the session as it is and appends the chunks
    to its stream, in the order of the calls, each at the session's sample
    rate.  No other stream is touched, nor the deletion log, nor the store.  The
    finish that follows judges all the audio heard: it fails with the
    insufficient-audio error when the extractor is not ready on it, and with
    the failed-to-extract error when the embedding computed from it is
    empty. *)
Theorem accepted_audio_accumulates_in_order (chunks : list (list float32)) (si : session)
    (w : World) (h : nat) (st0 : OnlineStream) :
  sid_isFinished si = false -> sid_stream si = Some h ->
  streams (w_sherpa w) !! h = Some st0 ->
  let out := run (map CallAccept chunks) (si, w) in
  let heard := {| os_chunks := os_chunks st0 ++ map (fun a => (sid_sampleRate si, a)) chunks;
                  os_inputFinished := true |} in
  fst out = si /\
  streams (w_sherpa (snd out)) !! h =
    Some {| os_chunks := os_chunks heard; os_inputFinished := os_inputFinished st0 |} /\
  (forall h', h' <> h -> streams (w_sherpa (snd out)) !! h' = streams (w_sherpa w) !! h') /\
  deleted (w_sherpa (snd out)) = deleted (w_sherpa w) /\
  w_store (snd out) = w_store w /\
  (ready heard = false ->
   fst (finish out) = Err "insufficient audio data for embedding extraction") /\
  (ready heard = true -> compute heard = [] ->
   fst (finish out) = Err "failed to extract embedding").
Proof.
  intros F E L out heard. subst out. rewrite (run_accepts chunks si w h st0 F E L).
  cbn [fst snd set_sherpa w_sherpa w_store streams deleted].
  repeat split.
  - now rewrite lookup_insert_eq.
  - intros h' N. now rewrite lookup_insert_ne by congruence.
  - intros R. unfold FinishAndIdentify. rewrite F, E. cbv zeta.
    unfold IsReady. cbn [set_sherpa w_sherpa InputFinished streams].
    rewrite lookup_alter_eq, lookup_insert_eq. cbn [fmap option_fmap option_map os_chunks].
    subst heard. now rewrite R.
  - intros R C. unfold FinishAndIdentify. rewrite F, E. cbv zeta.
    unfold IsReady, Compute. cbn [set_sherpa w_sherpa InputFinished streams].
    rewrite lookup_alter_eq, lookup_insert_eq. cbn [fmap option_fmap option_map os_chunks].
    subst heard. now rewrite R, C.
Qed.

End SessionExtras.

Lemma closed_session_reports_nil_stream_witness :
  let st := Close (fst demo_session, snd demo_session) in
  AcceptAudio [F32.zero] st = (Err "stream is nil", st) /\
  FinishAndIdentify demo_IsReady demo_Compute st = (Err "stream is nil", st) /\
  sid_isFinished (fst st) = false.
Proof.
  apply (closed_session_reports_nil_stream demo_IsReady demo_Compute
           (fst demo_session) (snd demo_session) [F32.zero]).
  vm_compute. reflexivity.
Defined.

Lemma accepted_audio_accumulates_in_order_witness :
  streams (w_sherpa (snd (session_calls demo_IsReady demo_Compute
                            (map CallAccept [[F32.of_Z 3]; [F32.of_Z 4]])
                            (fst demo_session, snd demo_session)))) !! 0%nat =
  Some {| os_chunks := [(16000, [F32.of_Z 3]); (16000, [F32.of_Z 4])];
          os_inputFinished := false |}.
Proof.
  assert (F : sid_isFinished (fst demo_session) = false) by (vm_compute; reflexivity).
  assert (E : sid_stream (fst demo_session) = Some 0%nat) by (vm_compute; reflexivity).
  assert (L : streams (w_sherpa (snd demo_session)) !! 0%nat =
              Some {| os_chunks := []; os_inputFinished := false |})
    by (vm_compute; reflexivity).
  destruct (accepted_audio_accumulates_in_order demo_IsReady demo_Compute
              [[F32.of_Z 3]; [F32.of_Z 4]] _ _ _ _ F E L) as (_ & H & _).
  exact H.
Defined.

Section WebSocketExtras.
Context {VadHandle : Type}.
Variable ready : OnlineStream -> bool.
Variable compute : OnlineStream -> list float32.
Variable wsMaxMessageSize : Z.
Variable m : Manager VadHandle.
Variable p : WsParams.
Variable streams0 : gmap nat OnlineStream.
Variable n0 : nat.
Variable deleted0 : list nat.
Hypothesis streams0_below : forall h, is_Some (streams0 !! h) -> (h < n0)%nat.

Local Abbreviation session := (@StreamingIdentifier VadHandle).
Local Abbreviation inv := (connection_inv (VadHandle:=VadHandle) streams0 n0 deleted0).

Lemma inv_cleanup k (si : session) (w : World) :
  inv k si (w_sherpa w) ->
  exists k', (k <= k')%nat /\
    inv k' (fst (cleanup (si, w))) (w_sherpa (snd (cleanup (si, w)))) /\
    sid_stream (fst (cleanup (si, w))) = None.
Proof.
  intros [D I]. unfold cleanup. destruct (sid_stream si) as [h|] eqn:E.
  - destruct I as (-> & N & Hs). exists (S k). split; [lia|]. split; [|reflexivity].
    split.
    + cbn [fst snd w_sherpa set_sherpa DeleteOnlineStream deleted].
      rewrite D, seq_S, rev_app_distr. reflexivity.
    + cbn. split; [lia|]. split; [lia|exact Hs].
  - exists k. split; [lia|]. split; [|exact E]. split; [exact D|]. cbn. now rewrite E.
Qed.

Lemma inv_create k (w : World) :
  deleted (w_sherpa w) = rev (seq n0 k) ++ deleted0 ->
  next_handle (w_sherpa w) = (n0 + k)%nat ->
  streams (w_sherpa w) = streams0 ->
  inv k (fst (createIdentifier m p w)) (w_sherpa (snd (createIdentifier m p w))).
Proof.
  intros D N Hs.
  assert (G : forall thr,
    inv k (fst (NewStreamingIdentifier m (wp_uid p) (wp_agentID p) (wp_speakerID p)
                  (wp_speakerName p) (wp_sampleRate p) thr w))
          (w_sherpa (snd (NewStreamingIdentifier m (wp_uid p) (wp_agentID p) (wp_speakerID p)
                  (wp_speakerName p) (wp_sampleRate p) thr w)))).
  { intros thr. unfold NewStreamingIdentifier, CreateStream. cbn. split; [exact D|].
    cbn. split; [exact N|]. split; [now rewrite N|].
    rewrite delete_insert_eq, Hs. apply delete_id.
    destruct (streams0 !! next_handle (w_sherpa w)) eqn:L; [|reflexivity].
    specialize (streams0_below _ (ex_intro _ _ L)). lia. }
  unfold createIdentifier. destruct (F32.ltb _ _); apply G.
Qed.

Lemma inv_reset k (si : session) (st : WsState) (w : World) :
  inv k si (w_sherpa w) ->
  exists k', (k <= k')%nat /\
    inv k' (ws_identifier (fst (ws_reset m p si st w))) (w_sherpa (snd (ws_reset m p si st w))) /\
    ws_sent (fst (ws_reset m p si st w)) = ws_sent st.
Proof.
  intros I. unfold ws_reset, Close.
  destruct (inv_cleanup k si w I) as (k' & Hk & I' & E').
  destruct (cleanup (si, w)) as [si1 w1]. cbn [fst snd] in I', E'.
  destruct I' as [D' I']. rewrite E' in I'. destruct I' as (_ & N' & S').
  pose proof (inv_create k' w1 D' N' S') as I2.
  destruct (createIdentifier m p w1) as [fresh w2]. cbn [fst snd] in *.
  exists k'. auto.
Qed.

Lemma inv_accept k (si : session) (w : World) audioData :
  inv k si (w_sherpa w) ->
  inv k (fst (snd (AcceptAudio audioData (si, w))))
        (w_sherpa (snd (snd (AcceptAudio audioData (si, w))))).
Proof.
  intros [D I]. unfold AcceptAudio. destruct (sid_isFinished si); [split; assumption|].
  destruct (sid_stream si) as [h|] eqn:E; cbn [fst snd]; [|split; [exact D|now rewrite E]].
  split; [exact D|]. rewrite E. destruct I as (-> & N & Hs).
  cbn. rewrite delete_alter_eq. auto.
Qed.

Lemma inv_finish k (si : session) (w : World) :
  inv k si (w_sherpa w) ->
  exists k', (k <= k')%nat /\
    inv k' (fst (snd (FinishAndIdentify ready compute (si, w))))
           (w_sherpa (snd (snd (FinishAndIdentify ready compute (si, w))))).
Proof.
  intros I. destruct (sid_isFinished si) eqn:F.
  { exists k. unfold FinishAndIdentify. rewrite F. auto. }
  destruct (sid_stream si) as [h|] eqn:E.
  2:{ exists k. unfold FinishAndIdentify. rewrite F, E. auto. }
  destruct (finish_open ready compute si w h F E) as (r & store' & -> & _).
  cbn [fst snd w_sherpa]. destruct I as [D I]. rewrite E in I. destruct I as (-> & N & Hs).
  exists (S k). split; [lia|]. split.
  - cbn [fst snd w_sherpa set_sherpa DeleteOnlineStream InputFinished deleted].
    rewrite D, seq_S, rev_app_distr. reflexivity.
  - cbn. rewrite delete_alter_eq. split; [lia|]. split; [lia|exact Hs].
Qed.

Lemma inv_message k msg (st st' : WsState) (w w' : World) b :
  inv k (ws_identifier st) (w_sherpa w) ->
  ws_message ready compute wsMaxMessageSize m p msg st w = Some (b, (st', w')) ->
  exists k', (k <= k')%nat /\ inv k' (ws_identifier st') (w_sherpa w').
Proof.
  intros I. unfold ws_message.
  destruct (_ && _); [intros [= <- <- <-]; exists k; auto|].
  destruct msg as [size [action|]|message].
  - destruct (bool_decide (action = "finish")).
    { cbn [ws_identifier].
      destruct (inv_finish k (ws_identifier st) w I) as (k1 & H1 & I1).
      destruct (FinishAndIdentify ready compute (ws_identifier st, w)) as [[result|e] [si w1]];
        cbn [fst snd] in I1.
      - set (st1 := ws_send _ _).
        destruct (inv_reset k1 si st1 w1 I1) as (k2 & H2 & I2 & _).
        destruct (ws_reset m p si st1 w1) as [st2 w2]. cbn [fst snd] in I2.
        intros [= <- <- <-]. exists k2. split; [lia|exact I2].
      - set (st1 := ws_send _ _).
        destruct (inv_reset k1 si st1 w1 I1) as (k2 & H2 & I2 & _).
        intros [= <- E]. rewrite E in I2. exists k2. split; [lia|exact I2]. }
    destruct (bool_decide (action = "cancel")).
    { destruct (inv_reset k (ws_identifier st) st w I) as (k2 & H2 & I2 & _).
      destruct (ws_reset m p (ws_identifier st) st w) as [st2 w2]. cbn [fst snd] in I2.
      intros [= <- <- <-]. exists k2. auto. }
    destruct (bool_decide (action = "close")); intros [= <- <- <-]; exists k; auto.
  - intros [= <- <- <-]. exists k; auto.
  - destruct (negb _); [intros [= <- <- <-]; exists k; auto|].
    destruct (decode_samples message) as [|a audio]; [discriminate|].
    pose proof (inv_accept k (ws_identifier st) w (a :: audio) I) as I1.
    destruct (AcceptAudio (a :: audio) (ws_identifier st, w)) as [[[]|e] [si w1]];
      cbn [fst snd] in I1; intros [= <- <- <-]; exists k; auto.
Qed.

Lemma inv_loop msgs k (st st' : WsState) (w w' : World) :
  inv k (ws_identifier st) (w_sherpa w) ->
  ws_loop ready compute wsMaxMessageSize m p msgs st w = Some (st', w') ->
  exists k', (k <= k')%nat /\ inv k' (ws_identifier st') (w_sherpa w').
Proof.
  revert k st w. induction msgs as [|msg msgs IH]; intros k st w I; cbn [ws_loop].
  - intros [= <- <-]. exists k. auto.
  - destruct (ws_message ready compute wsMaxMessageSize m p msg st w)
      as [[[] [st1 w1]]|] eqn:M; [| |discriminate].
    + destruct (inv_message _ _ _ _ _ _ _ I M) as (k1 & H1 & I1).
      intros L. destruct (IH _ _ _ I1 L) as (k2 & H2 & I2). exists k2. split; [lia|exact I2].
    + intros [= <- <-]. exact (inv_message _ _ _ _ _ _ _ I M).
Qed.

End WebSocketExtras.

Section WebSocketLeak.
Context {VadHandle : Type}.
Variable ready : OnlineStream -> bool.
Variable compute : OnlineStream -> list float32.
Variable wsMaxMessageSize : Z.

(** X5.  A WebSocket connection whose handler returns leaves the
    live streams of the extractor as it found them.  The connection used at
    least one session; each session had a stream of its own, and all of them
    have been deleted, in the order in which they were created. *)
Theorem websocket_connection_releases_every_stream (m : Manager VadHandle) (p : WsParams)
    (msgs : list WsMessage) (w w' : World) (sent : list ServerMessage) :
  streams_below (w_sherpa w) ->
  IdentifySpeakerWebSocket ready compute wsMaxMessageSize m p msgs w = Some (sent, w') ->
  streams (w_sherpa w') = streams (w_sherpa w) /\
  exists sessions : nat,
    (1 <= sessions)%nat /\
    next_handle (w_sherpa w') = (next_handle (w_sherpa w) + sessions)%nat /\
    deleted (w_sherpa w') =
      rev (seq (next_handle (w_sherpa w)) sessions) ++ deleted (w_sherpa w).
Proof.
  intros W. unfold IdentifySpeakerWebSocket.
  set (streams0 := streams (w_sherpa w)). set (n0 := next_handle (w_sherpa w)).
  set (deleted0 := deleted (w_sherpa w)).
  pose proof (inv_create m p streams0 n0 deleted0 W 0 w eq_refl (eq_sym (Nat.add_0_r _)) eq_refl)
    as I1.
  destruct (createIdentifier m p w) as [identifier w0]. cbn [fst snd] in I1.
  set (st := {| ws_identifier := identifier |}).
  destruct (ws_loop ready compute wsMaxMessageSize m p msgs st w0) as [[st' w1]|] eqn:L;
    [|discriminate].
  destruct (inv_loop ready compute wsMaxMessageSize m p streams0 n0 deleted0 W msgs 0 st st' w0 w1
              I1 L) as (k1 & _ & I2).
  destruct (inv_cleanup streams0 n0 deleted0 k1 (ws_identifier st') w1 I2)
    as (k2 & _ & [D I3] & E).
  unfold Close. destruct (cleanup (ws_identifier st', w1)) as [si2 w2]. cbn [fst snd] in *.
  rewrite E in I3. destruct I3 as (K & N & Hs).
  intros [= _ <-]. split; [exact Hs|]. exists k2. auto.
Qed.

End WebSocketLeak.

Lemma websocket_connection_releases_every_stream_witness :
  exists sent w',
    IdentifySpeakerWebSocket demo_IsReady demo_Compute 0 demo_manager demo_params
      [BinaryMessage (float32ToBytes [F32.of_Z 3; F32.of_Z 4]);
       TextMessage 19 (Some "finish"); TextMessage 18 (Some "close")] demo_world
      = Some (sent, w') /\
    streams (w_sherpa w') = streams (w_sherpa demo_world).
Proof.
  assert (W : streams_below (w_sherpa demo_world)).
  { intros h [st Hst]. vm_compute in Hst. discriminate. }
  assert (R : is_Some (IdentifySpeakerWebSocket demo_IsReady demo_Compute 0 demo_manager
                         demo_params
                         [BinaryMessage (float32ToBytes [F32.of_Z 3; F32.of_Z 4]);
                          TextMessage 19 (Some "finish"); TextMessage 18 (Some "close")]
                         demo_world)).
  { apply (bool_decide_unpack _). vm_compute. exact I. }
  destruct R as [[sent w'] E].
  exists sent, w'. split; [exact E|].
  exact (proj1 (websocket_connection_releases_every_stream demo_IsReady demo_Compute 0
                  demo_manager demo_params _ demo_world w' sent W E)).
Defined.

Lemma resolve_threshold_again (default : float32) (threshold : option float32) :
  let t := resolve_threshold default threshold in
  (if F32.ltb F32.zero t then t else default) = t.
Proof.
  unfold resolve_threshold. destruct threshold as [t|].
  - destruct (F32.ltb F32.zero t) eqn:E; [now rewrite E|].
    destruct (F32.ltb F32.zero default); reflexivity.
  - destruct (F32.ltb F32.zero default); reflexivity.
Qed.

Section StreamingEquivalence.
Context {VadHandle : Type}.
Variable ready : OnlineStream -> bool.
Variable compute : OnlineStream -> list float32.

(** what [extractEmbedding] answers and leaves behind: the extractor sees
    one stream holding the whole audio, and that stream is deleted *)
Lemma extractEmbedding_eq (audioData : list float32) (sampleRate : Z) (w : World) :
  let h := next_handle (w_sherpa w) in
  let heard := {| os_chunks := [(sampleRate, audioData)]; os_inputFinished := true |} in
  extractEmbedding ready compute audioData sampleRate w =
    ((if negb (ready heard) then Err "insufficient audio data for embedding extraction"
      else if Z.of_nat (length (compute heard)) =? 0 then Err "failed to extract embedding"
      else Ok (compute heard)),
     set_sherpa
       {| streams := delete h (streams (w_sherpa w));
          next_handle := S h;
          deleted := h :: deleted (w_sherpa w) |} w).
Proof.
  intros h heard. unfold extractEmbedding, CreateStream. fold h.
  set (sh := InputFinished h (AcceptWaveform h sampleRate audioData
               {| streams := <[h := {| os_chunks := []; os_inputFinished := false |}]>
                               (streams (w_sherpa w));
                  next_handle := S h; deleted := deleted (w_sherpa w) |})).
  assert (L : streams sh !! h = Some heard).
  { subst sh. unfold InputFinished, AcceptWaveform. cbn [streams].
    rewrite !lookup_alter_eq, lookup_insert_eq. reflexivity. }
  assert (D : DeleteOnlineStream h sh =
              {| streams := delete h (streams (w_sherpa w)); next_handle := S h;
                 deleted := h :: deleted (w_sherpa w) |}).
  { subst sh. unfold DeleteOnlineStream, InputFinished, AcceptWaveform.
    cbn [streams next_handle deleted]. f_equal.
    rewrite !delete_alter_eq. apply delete_insert_eq. }
  assert (R : IsReady ready h sh = ready heard) by (unfold IsReady; now rewrite L).
  assert (C : Compute compute h sh = compute heard) by (unfold Compute; now rewrite L).
  rewrite R, C, D. destruct (negb (ready heard)); [reflexivity|].
  destruct (_ =? 0); reflexivity.
Qed.

(** X4.  A new streaming session that is given the whole recording as
    one chunk and is then finished answers as the one-shot [IdentifySpeaker]
    does on that recording with the same filters and threshold.  The chunk
    is accepted.  When an embedding is extracted, both return the same
    result or the same error, and leave the store, with its log of calls, in
    the same state.  When the extraction fails, both fail; the one-shot
    operation puts [failed to extract embedding: ] in front of the error
    text. *)
Theorem one_chunk_round_is_one_shot_identification (m : Manager VadHandle)
    (uid agentID speakerID speakerName : string) (audioData : list float32)
    (sampleRate : Z) (threshold : option float32) (w : World) :
  let heard := {| os_chunks := [(sampleRate, audioData)]; os_inputFinished := true |} in
  let session := NewStreamingIdentifier m uid agentID speakerID speakerName sampleRate
                   threshold w in
  let streamed := FinishAndIdentify ready compute (snd (AcceptAudio audioData session)) in
  let one_shot := IdentifySpeaker ready compute m uid agentID speakerID speakerName
                    audioData sampleRate threshold w in
  fst (AcceptAudio audioData session) = Ok tt /\
  (ready heard = true -> compute heard <> [] ->
   fst streamed = fst one_shot /\
   w_store (snd (snd streamed)) = w_store (snd one_shot)) /\
  (ready heard = false ->
   fst streamed = Err "insufficient audio data for embedding extraction" /\
   fst one_shot =
     Err "failed to extract embedding: insufficient audio data for embedding extraction") /\
  (ready heard = true -> compute heard = [] ->
   fst streamed = Err "failed to extract embedding" /\
   fst one_shot = Err "failed to extract embedding: failed to extract embedding").
Proof.
  intros heard session streamed one_shot.
  assert (One : one_shot =
    let thr := resolve_threshold (m_threshold m) threshold in
    (do embedding <- st_wrap "failed to extract embedding: "
                       (extractEmbedding ready compute audioData sampleRate);
     do results <- st_wrap "failed to search in vector database: "
          (on_store (SearchWithOptionalFilters (vectorDB m) uid agentID speakerID speakerName
                       embedding thr 1));
     st_ret (identify_result thr results)) w) by reflexivity.
  clearbody one_shot. cbv zeta in One. unfold st_bind at 1 in One. unfold st_wrap at 1 in One.
  rewrite extractEmbedding_eq in One. fold heard in One.
  set (h := next_handle (w_sherpa w)) in *.
  set (sh := {| streams := <[h := {| os_chunks := [(sampleRate, audioData)];
                                      os_inputFinished := false |}]> (streams (w_sherpa w));
                next_handle := S h; deleted := deleted (w_sherpa w) |}).
  assert (Acc : AcceptAudio audioData session =
                (Ok tt, (fst session, set_sherpa sh w))).
  { unfold session, NewStreamingIdentifier, CreateStream, AcceptAudio.
    cbn [sid_isFinished sid_stream sid_sampleRate fst snd set_sherpa w_sherpa w_store].
    unfold AcceptWaveform. cbn [streams next_handle deleted]. fold h.
    rewrite alter_insert_eq. reflexivity. }
  assert (Str : streamed = FinishAndIdentify ready compute (fst session, set_sherpa sh w))
    by (unfold streamed; now rewrite Acc).
  clearbody streamed. rewrite Acc. split; [reflexivity|].
  unfold FinishAndIdentify in Str.
  assert (F : sid_isFinished (fst session) = false) by reflexivity.
  assert (E : sid_stream (fst session) = Some h) by reflexivity.
  assert (T : sid_threshold (fst session) = resolve_threshold (m_threshold m) threshold)
    by reflexivity.
  assert (Mg : sid_manager (fst session) = m) by reflexivity.
  assert (Ids : sid_uid (fst session) = uid /\ sid_agentID (fst session) = agentID /\
                sid_speakerID (fst session) = speakerID /\
                sid_speakerName (fst session) = speakerName) by (repeat split).
  destruct Ids as (I1 & I2 & I3 & I4).
  rewrite F, E in Str. cbv zeta in Str.
  assert (L : streams (InputFinished h (w_sherpa (set_sherpa sh w))) !! h = Some heard).
  { cbn [set_sherpa w_sherpa InputFinished streams sh].
    rewrite lookup_alter_eq, lookup_insert_eq. reflexivity. }
  unfold IsReady, Compute in Str.
  cbn [w_sherpa set_sherpa] in Str, L. rewrite L in Str.
  cbn [set_isFinished sid_threshold sid_manager sid_uid sid_agentID sid_speakerID
       sid_speakerName] in Str.
  rewrite T, Mg, I1, I2, I3, I4 in Str.
  rewrite (resolve_threshold_again (m_threshold m) threshold) in Str.
  split; [|split].
  - intros R C. rewrite R in Str, One. cbn [negb] in Str, One.
    replace (Z.of_nat (length (compute heard)) =? 0) with false in Str, One
      by (symmetry; apply Z.eqb_neq; destruct (compute heard); [congruence|cbn; lia]).
    cbn [wrap_err] in One. unfold st_bind, st_wrap, on_store, st_ret in One.
    unfold on_store in Str. cbn [w_store set_sherpa] in Str, One.
    destruct (SearchWithOptionalFilters _ _ _ _ _ _ _ _ (w_store w)) as [[results|msg] s1].
    + rewrite Str, One. split; reflexivity.
    + rewrite Str, One. split; reflexivity.
  - intros R. rewrite R in Str, One. cbn [negb] in Str, One. rewrite Str, One. split; reflexivity.
  - intros R C. rewrite R, C in Str, One. cbn in Str, One. rewrite Str, One. split; reflexivity.
Qed.

End StreamingEquivalence.

(** ** Audio frames of the WebSocket endpoint *)

Lemma digits2_pos_size (m : positive) : digits2_pos m = Pos.size m.
Proof. induction m; cbn; congruence. Qed.

(** a valid binary32 mantissa and exponent: subnormal, or normal with 24
    significant bits *)
Lemma valid_binary32_shape (s : bool) (m : positive) (e : Z) :
  valid_binary F32.prec F32.emax (S754_finite s m e) = true ->
  (Zpos m < 2 ^ 23 /\ e = -149) \/ (2 ^ 23 <= Zpos m < 2 ^ 24 /\ -149 <= e <= 104).
Proof.
  unfold valid_binary, bounded, canonical_mantissa, fexp, emin, F32.prec, F32.emax.
  intros V. apply andb_true_iff in V as [C B]. apply Z.leb_le in B.
  apply Z.eqb_eq in C. rewrite digits2_pos_size in C.
  pose proof (Pos.size_gt m) as G. pose proof (Pos.size_le m) as L.
  assert (G' : Zpos m < 2 ^ Zpos (Pos.size m)) by (rewrite <- Pos2Z.inj_pow; lia).
  assert (L' : 2 ^ Zpos (Pos.size m) <= 2 * Zpos m) by (rewrite <- Pos2Z.inj_pow; lia).
  destruct (Z_lt_le_dec (Zpos m) (2 ^ 23)) as [Lt|Ge].
  - left. split; [exact Lt|].
    assert (Zpos (Pos.size m) <= 23).
    { destruct (Z_lt_le_dec 23 (Zpos (Pos.size m))) as [Hlt|]; [|lia].
      exfalso. assert (2 ^ 24 <= 2 ^ Zpos (Pos.size m)) by (apply Z.pow_le_mono_r; lia). lia. }
    lia.
  - right.
    assert (24 <= Zpos (Pos.size m)).
    { destruct (Z_lt_le_dec (Zpos (Pos.size m)) 24) as [Hlt|]; [|lia].
      exfalso. assert (2 ^ Zpos (Pos.size m) <= 2 ^ 23) by (apply Z.pow_le_mono_r; lia). lia. }
    assert (S24 : Zpos (Pos.size m) = 24) by lia.
    rewrite S24 in G'. lia.
Qed.

Lemma Float32bits_range (x : float32) :
  valid_binary F32.prec F32.emax x = true -> 0 <= Float32bits x < 2 ^ 32.
Proof.
  destruct x as [s|s| |s m e]; cbn [Float32bits]; intros V.
  - destruct s; lia.
  - rewrite Z.shiftl_mul_pow2 by lia. destruct s; lia.
  - lia.
  - apply valid_binary32_shape in V as [[Lt ->]|[[Ge Lt] E]].
    + apply Z.ltb_lt in Lt as Lt'. rewrite Lt'. destruct s; lia.
    + apply Z.ltb_ge in Ge as Ge'. rewrite Ge'.
      rewrite Z.shiftl_mul_pow2 by lia. destruct s; lia.
Qed.

Lemma Float32frombits_Float32bits (x : float32) :
  valid_binary F32.prec F32.emax x = true -> Float32frombits (Float32bits x) = x.
Proof.
  destruct x as [s|s| |s m e]; intros V.
  - destruct s; reflexivity.
  - destruct s; reflexivity.
  - reflexivity.
  - apply valid_binary32_shape in V as [[Lt ->]|[[Ge Lt] E]]; cbn [Float32bits].
    + apply Z.ltb_lt in Lt as Lt'. rewrite Lt'. clear Lt'.
      unfold Float32frombits.
      set (bits := (if s then 2 ^ 31 else 0) + Zpos m).
      assert (T : Z.testbit bits 31 = s).
      { rewrite Z.testbit_eqb by lia. subst bits. destruct s.
        - replace ((2 ^ 31 + Zpos m) / 2 ^ 31) with 1 by (apply Z.div_unique with (Zpos m); lia). reflexivity.
        - replace ((0 + Zpos m) / 2 ^ 31) with 0 by (apply Z.div_unique with (Zpos m); lia). reflexivity. }
      assert (Ex : Z.land (Z.shiftr bits 23) 255 = 0).
      { change 255 with (Z.ones 8). rewrite Z.land_ones, Z.shiftr_div_pow2 by lia.
        subst bits. destruct s.
        - replace ((2 ^ 31 + Zpos m) / 2 ^ 23) with 256 by (apply Z.div_unique with (Zpos m); lia). reflexivity.
        - replace ((0 + Zpos m) / 2 ^ 23) with 0 by (apply Z.div_unique with (Zpos m); lia). reflexivity. }
      assert (Mx : Z.land bits (2 ^ 23 - 1) = Zpos m).
      { change (2 ^ 23 - 1) with (Z.ones 23). rewrite Z.land_ones by lia.
        subst bits. destruct s.
        - symmetry. apply Z.mod_unique with 256; lia.
        - symmetry. apply Z.mod_unique with 0; lia. }
      rewrite T, Ex, Mx. reflexivity.
    + apply Z.ltb_ge in Ge as Ge'. rewrite Ge'. clear Ge'.
      unfold Float32frombits. rewrite Z.shiftl_mul_pow2 by lia.
      set (bits := (if s then 2 ^ 31 else 0) + (e + 150) * 2 ^ 23 + (Zpos m - 2 ^ 23)).
      assert (T : Z.testbit bits 31 = s).
      { rewrite Z.testbit_eqb by lia. subst bits. destruct s.
        - replace ((2 ^ 31 + (e + 150) * 2 ^ 23 + (Zpos m - 2 ^ 23)) / 2 ^ 31) with 1
            by (apply Z.div_unique with ((e + 150) * 2 ^ 23 + (Zpos m - 2 ^ 23)); lia).
          reflexivity.
        - replace ((0 + (e + 150) * 2 ^ 23 + (Zpos m - 2 ^ 23)) / 2 ^ 31) with 0
            by (apply Z.div_unique with ((e + 150) * 2 ^ 23 + (Zpos m - 2 ^ 23)); lia).
          reflexivity. }
      assert (Ex : Z.land (Z.shiftr bits 23) 255 = e + 150).
      { change 255 with (Z.ones 8). rewrite Z.land_ones, Z.shiftr_div_pow2 by lia.
        subst bits. destruct s.
        - replace ((2 ^ 31 + (e + 150) * 2 ^ 23 + (Zpos m - 2 ^ 23)) / 2 ^ 23)
            with (256 + (e + 150))
            by (apply Z.div_unique with (Zpos m - 2 ^ 23); lia).
          symmetry. apply Z.mod_unique with 1; lia.
        - replace ((0 + (e + 150) * 2 ^ 23 + (Zpos m - 2 ^ 23)) / 2 ^ 23) with (e + 150)
            by (apply Z.div_unique with (Zpos m - 2 ^ 23); lia).
          symmetry. apply Z.mod_unique with 0; lia. }
      assert (Mx : Z.land bits (2 ^ 23 - 1) = Zpos m - 2 ^ 23).
      { change (2 ^ 23 - 1) with (Z.ones 23). rewrite Z.land_ones by lia.
        subst bits. destruct s.
        - symmetry. apply Z.mod_unique with (256 + (e + 150)); lia.
        - symmetry. apply Z.mod_unique with (e + 150); lia. }
      rewrite T, Ex, Mx.
      destruct (e + 150 =? 255) eqn:E1; [apply Z.eqb_eq in E1; lia|].
      destruct (e + 150 =? 0) eqn:E2; [apply Z.eqb_eq in E2; lia|].
      replace (Zpos m - 2 ^ 23 + 2 ^ 23) with (Zpos m) by lia.
      f_equal. lia.
Qed.

Lemma byte_bit (v k n : Z) :
  0 <= k -> 0 <= n ->
  Z.testbit (Z.shiftl (Z.land (Z.shiftr v k) (Z.ones 8)) k) n =
  Z.testbit v n && (k <=? n) && (n <? k + 8).
Proof.
  intros Hk Hn. destruct (Z.leb_spec k n) as [L|L].
  - rewrite Z.shiftl_spec, Z.land_spec, Z.shiftr_spec by lia.
    replace (n - k + k) with n by lia. rewrite andb_true_r. f_equal.
    destruct (Z.ltb_spec n (k + 8)).
    + apply Z.ones_spec_low. lia.
    + apply Z.ones_spec_high. lia.
  - rewrite Z.shiftl_spec_low by lia. now rewrite andb_false_r.
Qed.

Lemma uint32_bytes (v : Z) :
  0 <= v < 2 ^ 32 ->
  Z.lor (Z.land v 255)
    (Z.lor (Z.shiftl (Z.land (Z.shiftr v 8) 255) 8)
       (Z.lor (Z.shiftl (Z.land (Z.shiftr v 16) 255) 16)
              (Z.shiftl (Z.land (Z.shiftr v 24) 255) 24))) = v.
Proof.
  intros R. change 255 with (Z.ones 8).
  change (Z.land v (Z.ones 8)) with (Z.shiftl (Z.land (Z.shiftr v 0) (Z.ones 8)) 0).
  apply Z.bits_inj'. intros n Hn.
  rewrite !Z.lor_spec, !byte_bit by lia.
  assert (High : 32 <= n -> Z.testbit v n = false).
  { intros H. apply Z.bits_above_log2; [lia|].
    destruct (Z.eq_dec v 0) as [->|]; [cbn; lia|].
    assert (2 ^ 32 <= 2 ^ n) by (apply Z.pow_le_mono_r; lia).
    apply Z.log2_lt_pow2; lia. }
  destruct (Z_lt_le_dec n 32) as [Lt|Ge]; [|rewrite High by lia; reflexivity].
  destruct (Z.testbit v n); [|reflexivity]. cbn [andb].
  repeat match goal with
         | |- context [?a <=? ?b] => destruct (Z.leb_spec a b)
         | |- context [?a <? ?b] => destruct (Z.ltb_spec a b)
         end; cbn; try reflexivity; lia.
Qed.

Lemma decode_samples_length (message : list Z) :
  Z.of_nat (length (decode_samples message)) = Z.of_nat (length message) / 4.
Proof.
  assert (G : forall n (msg : list Z), (length msg <= n)%nat ->
            Z.of_nat (length (decode_samples msg)) = Z.of_nat (length msg) / 4).
  { induction n as [|n IH]; intros msg L.
    - destruct msg; [reflexivity|cbn in L; lia].
    - destruct msg as [|b0 [|b1 [|b2 [|b3 rest]]]]; try reflexivity.
      cbn [decode_samples length]. rewrite Nat2Z.inj_succ, IH by (cbn in L; lia).
      rewrite !Nat2Z.inj_succ.
      replace (Z.succ (Z.succ (Z.succ (Z.succ (Z.of_nat (length rest))))))
        with (Z.of_nat (length rest) + 1 * 4) by lia.
      rewrite Z.div_add by lia. lia. }
  apply (G (length message)). lia.
Qed.

(** X6.  The test client's [float32ToBytes] and the decoding loop of
    the WebSocket handler are inverse to each other: for samples that are
    binary32 values, decoding the encoded frame gives the samples back.  The
    frame has four bytes per sample, each between 0 and 255. *)
Theorem websocket_samples_round_trip (samples : list float32) :
  Forall (fun x => valid_binary F32.prec F32.emax x = true) samples ->
  decode_samples (float32ToBytes samples) = samples /\
  length (float32ToBytes samples) = (4 * length samples)%nat /\
  Forall (fun b => 0 <= b < 256) (float32ToBytes samples).
Proof.
  induction 1 as [|x samples V _ (IH1 & IH2 & IH3)]; [repeat split; constructor|].
  unfold float32ToBytes. cbn [flat_map]. fold (float32ToBytes samples).
  unfold PutUint32. cbn [app]. repeat split.
  - cbn [decode_samples]. rewrite IH1, uint32_bytes by now apply Float32bits_range.
    now rewrite Float32frombits_Float32bits.
  - cbn [length]. rewrite IH2. lia.
  - repeat (constructor; [change 255 with (Z.ones 8); rewrite Z.land_ones by lia;
                          apply Z.mod_pos_bound; lia|]).
    exact IH3.
Qed.

Lemma websocket_samples_round_trip_witness :
  decode_samples (float32ToBytes [one_half; F32.of_Z (-3)]) = [one_half; F32.of_Z (-3)].
Proof.
  apply (websocket_samples_round_trip [one_half; F32.of_Z (-3)]).
  repeat constructor.
Defined.

Section WebSocketFrames.
Context {VadHandle : Type}.
Variable ready : OnlineStream -> bool.
Variable compute : OnlineStream -> list float32.
Variable wsMaxMessageSize : Z.

(** X7.  A binary frame within the size limit.  If its length is not a
    multiple of four, the server sends [invalid audio data length] and goes
    on; session and world are unchanged.  An empty frame passes that check,
    and the handler then panics on [audioData[0]].  A non-empty frame of a
    valid length, on an open session, is decoded and given to the session's
    stream, and the server acknowledges a quarter of its length as the
    number of samples. *)
Theorem websocket_binary_frame (m : Manager VadHandle) (p : WsParams) (message : list Z)
    (st : WsState) (w : World) :
  (0 <? wsMaxMessageSize) && (wsMaxMessageSize <? Z.of_nat (length message)) = false ->
  let out := ws_message ready compute wsMaxMessageSize m p (BinaryMessage message) st w in
  (Z.of_nat (length message) mod 4 <> 0 ->
   out = Some (true, (ws_send (SmError "invalid audio data length" None) st, w))) /\
  (message = [] -> out = None) /\
  (Z.of_nat (length message) mod 4 = 0 -> message <> [] ->
   forall h, sid_isFinished (ws_identifier st) = false ->
             sid_stream (ws_identifier st) = Some h ->
     out = Some (true,
                 (ws_send (SmAudioReceived (Z.of_nat (length message) / 4)) st,
                  set_sherpa (AcceptWaveform h (sid_sampleRate (ws_identifier st))
                                (decode_samples message) (w_sherpa w)) w))).
Proof.
  intros Size out. subst out. unfold ws_message. rewrite Size. split; [|split].
  - intros N. now replace (Z.of_nat (length message) mod 4 =? 0) with false
      by (symmetry; now apply Z.eqb_neq).
  - intros ->. reflexivity.
  - intros D NE h F E. rewrite D. cbn [Z.eqb negb].
    pose proof (decode_samples_length message) as L.
    destruct (decode_samples message) as [|a audio] eqn:Dec.
    { exfalso. cbn [length] in L. destruct message as [|b message]; [congruence|].
      cbn [length] in *. rewrite Nat2Z.inj_succ in *.
      assert (0 < Z.succ (Z.of_nat (length message)) / 4); [|lia].
      apply Z.div_str_pos. split; [lia|].
      destruct (Z.le_gt_cases 4 (Z.succ (Z.of_nat (length message)))) as [|Lt]; [assumption|].
      rewrite Z.mod_small in D by lia. lia. }
    unfold AcceptAudio. rewrite F, E. rewrite <- L. destruct st; reflexivity.
Qed.

End WebSocketFrames.

Lemma websocket_binary_frame_witness :
  let st := {| ws_identifier := fst demo_session; ws_roundCount := 0; ws_sent := [] |} in
  ws_message demo_IsReady demo_Compute 0 demo_manager demo_params
    (BinaryMessage [0; 0; 128]) st (snd demo_session) =
  Some (true, (ws_send (SmError "invalid audio data length" None) st, snd demo_session)).
Proof.
  intros st.
  destruct (websocket_binary_frame demo_IsReady demo_Compute 0 demo_manager demo_params
              [0; 0; 128] st (snd demo_session) eq_refl) as [H _].
  apply H. vm_compute. discriminate.
Defined.

(** ** Silence removal *)

Section FilterExtras.
Context {VadHandle : Type}.
Variable ProcessAudio : VadHandle -> list Z -> VadHandle * result Z.
Variable hopSize : Z.
Variable int16_unrepresentable : float32 -> Z.
Hypothesis hopSize_pos : 0 < hopSize.

Local Abbreviation floop := (vad_filter_loop ProcessAudio hopSize int16_unrepresentable).

(** the frame cut at [i] extends the prefix read so far *)
Lemma frame_at (audioData : list float32) (i : Z) :
  0 <= i < Z.of_nat (length audioData) ->
  let end_ := if Z.of_nat (length audioData) <? i + hopSize
              then Z.of_nat (length audioData) else i + hopSize in
  exists frame, go_slice audioData i end_ = Some frame /\
    take (Z.to_nat (i + hopSize)) audioData = take (Z.to_nat i) audioData ++ frame.
Proof.
  intros R end_. unfold go_slice.
  assert (B : i < end_ /\ end_ <= Z.of_nat (length audioData)).
  { subst end_. destruct (Z.ltb_spec (Z.of_nat (length audioData)) (i + hopSize)); lia. }
  replace ((0 <=? i) && (i <=? end_) && (end_ <=? Z.of_nat (length audioData))) with true.
  2:{ symmetry. rewrite !andb_true_iff. repeat split; apply Z.leb_le; lia. }
  eexists. split; [reflexivity|].
  rewrite take_take_drop.
  subst end_. destruct (Z.ltb_spec (Z.of_nat (length audioData)) (i + hopSize)).
  - rewrite !take_ge by lia. reflexivity.
  - f_equal. lia.
Qed.

Lemma filter_loop_spec (fuel : nat) (audioData : list float32) (i : Z) (vad : VadHandle)
    (filteredAudio : list float32) :
  0 <= i -> Z.of_nat (length audioData) - i <= Z.of_nat fuel ->
  filteredAudio `sublist_of` take (Z.to_nat i) audioData ->
  exists r, floop fuel audioData i vad filteredAudio = Some r /\
    forall out, r = Ok out ->
      out `sublist_of` audioData /\
      ((forall h frame v flag, ProcessAudio h frame = (v, Ok flag) -> flag = 1) ->
       filteredAudio = take (Z.to_nat i) audioData -> out = audioData) /\
      ((forall h frame v flag, ProcessAudio h frame = (v, Ok flag) -> flag <> 1) ->
       filteredAudio = [] -> out = []).
Proof.
  revert i vad filteredAudio. induction fuel as [|fuel IH]; intros i vad filteredAudio Hi Hf Sub.
  - cbn [vad_filter_loop]. replace (i <? Z.of_nat (length audioData)) with false
      by (symmetry; apply Z.ltb_ge; lia).
    eexists. split; [reflexivity|]. intros out [= <-].
    rewrite take_ge in Sub by lia. split; [exact Sub|]. split; [|auto].
    intros _ ->. apply take_ge. lia.
  - cbn [vad_filter_loop]. destruct (Z.ltb_spec i (Z.of_nat (length audioData))) as [Lt|Ge].
    2:{ eexists. split; [reflexivity|]. intros out [= <-].
        rewrite take_ge in Sub by lia. split; [exact Sub|]. split; [|auto].
        intros _ ->. apply take_ge. lia. }
    cbv zeta. destruct (frame_at audioData i (conj Hi Lt)) as (frame & -> & T).
    destruct (ProcessAudio vad (frame_to_int16 int16_unrepresentable frame))
      as [vad' [flag|msg]] eqn:PA.
    2:{ eexists. split; [reflexivity|]. discriminate. }
    destruct (IH (i + hopSize) vad' (if flag =? 1 then filteredAudio ++ frame else filteredAudio))
      as (r & -> & Hr); [lia|lia| |].
    { rewrite T. destruct (flag =? 1).
      - apply sublist_app; [exact Sub|reflexivity].
      - now apply sublist_inserts_r. }
    exists r. split; [reflexivity|]. intros out E. destruct (Hr out E) as (S1 & S2 & S3).
    split; [exact S1|]. split.
    + intros All ->. apply S2; [exact All|]. rewrite (All _ _ _ _ PA). cbn. now rewrite T.
    + intros Non ->. apply S3; [exact Non|].
      destruct (Z.eqb_spec flag 1) as [E1|]; [|reflexivity]. now apply Non in PA.
Qed.

(** X8.  For a positive hop size [filterSilenceWithVAD] returns, one
    step per sample being enough.  Without a VAD pool it returns the audio
    unchanged.  Whenever it succeeds, its output is the input with samples
    left out: a sub-sequence in the original order, so never longer than the
    input.  It is the whole input when the detector flags every frame as
    speech, and it is empty when a pool is configured and the detector flags
    no frame. *)
Theorem filterSilenceWithVAD_keeps_speech_frames (m : Manager VadHandle)
    (audioData : list float32) (sampleRate : Z) :
  exists r,
    filterSilenceWithVAD ProcessAudio hopSize int16_unrepresentable
      (length audioData) m audioData sampleRate = Some r /\
    (vadPool m = None -> r = Ok audioData) /\
    forall out, r = Ok out ->
      out `sublist_of` audioData /\
      (length out <= length audioData)%nat /\
      ((forall h frame v flag, ProcessAudio h frame = (v, Ok flag) -> flag = 1) ->
       out = audioData) /\
      (is_Some (vadPool m) ->
       (forall h frame v flag, ProcessAudio h frame = (v, Ok flag) -> flag <> 1) ->
       out = []).
Proof.
  unfold filterSilenceWithVAD. destruct (vadPool m) as [pool|].
  2:{ eexists. split; [reflexivity|]. split; [reflexivity|]. intros out [= <-].
      split; [reflexivity|]. split; [lia|]. split; [reflexivity|]. intros [? H]. discriminate. }
  destruct (pool_Get pool) as [[Handle|]|msg];
    try (eexists; split; [reflexivity|]; split; [discriminate|]; discriminate).
  destruct (filter_loop_spec (length audioData) audioData 0 Handle []) as (r & -> & Hr);
    [lia|lia|apply sublist_nil_l|].
  exists r. split; [reflexivity|]. split; [discriminate|]. intros out E.
  destruct (Hr out E) as (S1 & S2 & S3). split; [exact S1|].
  split; [now apply sublist_length|]. split; [intros All; now apply S2|].
  intros _ Non. now apply S3.
Qed.

End FilterExtras.

Lemma filterSilenceWithVAD_keeps_speech_frames_witness :
  exists out,
    filterSilenceWithVAD demo_ProcessAudio 2 demo_int16_unrepresentable
      (length demo_audio) demo_manager demo_audio 16000 = Some (Ok out) /\
    out `sublist_of` demo_audio.
Proof.
  destruct (filterSilenceWithVAD_keeps_speech_frames demo_ProcessAudio 2
              demo_int16_unrepresentable ltac:(lia) demo_manager demo_audio 16000)
    as (r & E & _ & H).
  destruct r as [out|e].
  - exists out. split; [exact E|]. exact (proj1 (H out eq_refl)).
  - exfalso. vm_compute in E. discriminate.
Defined.

(** X9.  The conversion of a frame for the detector clamps a sample to
    [[-1, 1]] and multiplies it by 32768 before the conversion to [int16].
    A sample of -1 or less gives -32768.  A sample of 1 or more gives the
    float 32768, which [int16] cannot hold: the result is whatever the
    platform makes of that conversion.  A NaN is not clamped and is
    converted as it is.  A zero of either sign gives 0. *)
Theorem frame_to_int16_full_scale (int16_unrepresentable : float32 -> Z) (f : float32) :
  (F32.ltb F32.one f = true \/ f = F32.one ->
   frame_to_int16 int16_unrepresentable [f] = [int16_unrepresentable (F32.of_Z 32768)]) /\
  (F32.ltb f F32.neg_one = true \/ f = F32.neg_one ->
   frame_to_int16 int16_unrepresentable [f] = [-32768]) /\
  (f = S754_nan -> frame_to_int16 int16_unrepresentable [f] = [int16_unrepresentable S754_nan]) /\
  (f = S754_zero false \/ f = S754_zero true -> frame_to_int16 int16_unrepresentable [f] = [0]).
Proof.
  unfold frame_to_int16. cbn [map]. split; [|split; [|split]].
  - intros [H| ->].
    + rewrite H. reflexivity.
    + reflexivity.
  - intros [H| ->]; [|reflexivity].
    assert (N : F32.ltb F32.one f = false).
    { destruct f as [[]|[]| |[] m e]; try reflexivity; discriminate H. }
    rewrite N, H. reflexivity.
  - intros ->. reflexivity.
  - intros [-> | ->]; reflexivity.
Qed.

(** ** The store: listing, deleting, looking up *)

Ltac status_case :=
  cbn [fst snd status body JSON];
  first [ reflexivity
        | let H := fresh in intros H; first [reflexivity | discriminate H | (vm_compute in H; discriminate H)] ].

Lemma delete_error_response_status (msg : string) :
  status (delete_error_response msg) <> StatusBadRequest.
Proof.
  unfold delete_error_response.
  destruct (strings_Contains msg "not found"); [discriminate|].
  destruct (strings_Contains msg "belongs to different uid"); discriminate.
Qed.

Section ValidationExtras.
Context {VadHandle : Type}.
Variable ready : OnlineStream -> bool.
Variable compute : OnlineStream -> list float32.
Variable parseFloat32 : string -> result float32.
Variable ProcessAudio : VadHandle -> list Z -> VadHandle * result Z.
Variable hopSize : Z.
Variable int16_unrepresentable : float32 -> Z.

(** X18.  A request that is answered with status 400 has changed
    nothing: for enrol, identify, verify, list and delete, the world after a
    400 response is the world before it, so that neither a stream was
    created nor an RPC issued.  Enrol, verify, list and delete answer a
    request without a user ID with 400 and the error [uid_required]. *)
Theorem bad_requests_change_nothing (fuel : nat) (now : Z) (m : Manager VadHandle)
    (c : Request) (w : World) :
  (forall out,
     Handler_RegisterSpeaker ready compute ProcessAudio hopSize int16_unrepresentable
       fuel now m c w = Some out ->
     status (fst out) = StatusBadRequest -> snd out = w) /\
  (status (fst (Handler_IdentifySpeaker ready compute parseFloat32 m c w)) = StatusBadRequest ->
   snd (Handler_IdentifySpeaker ready compute parseFloat32 m c w) = w) /\
  (status (fst (Handler_VerifySpeaker ready compute now m c w)) = StatusBadRequest ->
   snd (Handler_VerifySpeaker ready compute now m c w) = w) /\
  (status (fst (Handler_GetAllSpeakers m c w)) = StatusBadRequest ->
   snd (Handler_GetAllSpeakers m c w) = w) /\
  (status (fst (Handler_DeleteSpeaker m c w)) = StatusBadRequest ->
   snd (Handler_DeleteSpeaker m c w) = w) /\
  (getUIDFromRequest c = "" ->
   Handler_RegisterSpeaker ready compute ProcessAudio hopSize int16_unrepresentable
     fuel now m c w = Some (JSON StatusBadRequest (ErrorBody uid_required), w) /\
   Handler_VerifySpeaker ready compute now m c w =
     (JSON StatusBadRequest (ErrorBody uid_required), w) /\
   Handler_GetAllSpeakers m c w = (JSON StatusBadRequest (ErrorBody uid_required), w) /\
   Handler_DeleteSpeaker m c w = (JSON StatusBadRequest (ErrorBody uid_required), w)).
Proof.
  split; [|split; [|split; [|split; [|split]]]].
  - intros out. unfold Handler_RegisterSpeaker.
    repeat (destruct (bool_decide _); [intros [= <-]; reflexivity|]).
    destruct (req_audio c) as [[[audioData sampleRate]|msg]|];
      [|intros [= <-]; reflexivity|intros [= <-]; reflexivity].
    destruct (filterSilenceWithVADKeepEdges _ _ _ _ _ _ _) as [[filtered|msg]|];
      [|intros [= <-]; status_case|discriminate].
    destruct (RegisterSpeaker _ _ _ _ _ _ _ _ _ _ _ _) as [[[]|msg] w1];
      intros [= <-]; status_case.
  - unfold Handler_IdentifySpeaker.
    destruct (req_audio c) as [[[audioData sampleRate]|msg]|]; [|reflexivity|reflexivity].
    cbv zeta. destruct (F32.ltb _ _);
      match goal with |- context [IdentifySpeaker ?a ?b ?c ?d ?e ?f ?g ?h ?i ?j ?k] =>
        destruct (IdentifySpeaker a b c d e f g h i j k) as [[r|msg] w1] end; status_case.
  - unfold Handler_VerifySpeaker.
    repeat (destruct (bool_decide _); [reflexivity|]).
    destruct (req_audio c) as [[[audioData sampleRate]|msg]|]; [|reflexivity|reflexivity].
    destruct (VerifySpeaker _ _ _ _ _ _ _ _ _ _) as [[r|msg] w1]; [status_case|].
    destruct (strings_Contains _ _); status_case.
  - unfold Handler_GetAllSpeakers.
    destruct (bool_decide _); [reflexivity|].
    destruct (Manager_GetAllSpeakers _ _ _ _) as [speakers w1]. status_case.
  - unfold Handler_DeleteSpeaker.
    destruct (bool_decide (getUIDFromRequest c = "")); [reflexivity|].
    destruct (bool_decide (req_query c "uuid" <> "")).
    + destruct (Manager_DeleteSpeakerByUUID _ _ _ _ _) as [[[]|msg] w1]; [status_case|].
      cbn [fst snd]. intros H. now apply delete_error_response_status in H.
    + destruct (bool_decide _); [reflexivity|].
      destruct (Manager_DeleteSpeaker _ _ _ _ _) as [[[]|msg] w1]; [status_case|].
      cbn [fst snd]. intros H. now apply delete_error_response_status in H.
  - intros U. unfold Handler_RegisterSpeaker, Handler_VerifySpeaker, Handler_GetAllSpeakers,
      Handler_DeleteSpeaker. rewrite !(bool_decide_eq_true_2 _ U). auto.
Qed.

End ValidationExtras.

(** the payload written by [Insert] passes every strict filter built from
    the same identity, whether or not the agent id is empty *)
Lemma insert_payload_selected (uid agentID speakerID speakerName uuid : string)
    (embedding : list float32) (sampleIndex createdAt updatedAt : Z) :
  filter_holds (Some (strict_filter uid "speaker_id" speakerID agentID))
    (insert_payload uid agentID speakerID speakerName uuid sampleIndex createdAt updatedAt) = true /\
  filter_holds (Some (strict_filter uid "uuid" uuid agentID))
    (insert_payload uid agentID speakerID speakerName uuid sampleIndex createdAt updatedAt) = true /\
  filter_holds (Some (list_filter uid agentID))
    (insert_payload uid agentID speakerID speakerName uuid sampleIndex createdAt updatedAt) = true.
Proof.
  unfold filter_holds, strict_filter, list_filter, insert_payload.
  repeat split; destruct (bool_decide (agentID <> ""));
    cbn [Must app forallb condition_holds]; rewrite ?andb_true_r, ?andb_true_iff;
    repeat split; apply bool_decide_eq_true_2;
    repeat first [ apply lookup_insert_eq | rewrite lookup_insert_ne by discriminate ].
Qed.

Lemma Insert_faults db uid a sp name uuid emb i c u (s : Server) :
  faults (snd (Insert db uid a sp name uuid emb i c u s)) = faults s.
Proof.
  destruct (traced_Insert db uid a sp name uuid emb i c u s) as (l & _ & F & _). exact F.
Qed.

Lemma stored_lookup_collection (db : QdrantVectorDB) (s : Server) (id : Z) (p : PointStruct) :
  stored db s !! id = Some p ->
  exists c, collections s !! collectionName db = Some c /\ points c !! id = Some p.
Proof.
  unfold stored. destruct (collections s !! collectionName db) as [c|]; [eauto|].
  rewrite lookup_empty. discriminate.
Qed.

Lemma info_times_nonneg (pts : list RetrievedPoint) :
  pts <> [] ->
  Forall (fun p => exists c u, GetPayload p !! "created_at" = Some (IntegerValue c) /\
                               GetPayload p !! "updated_at" = Some (IntegerValue u) /\
                               0 <= c /\ 0 <= u) pts ->
  let '(minCreatedAt, maxUpdatedAt) := fold_left info_times_step pts (-1, -1) in
  0 <= minCreatedAt /\ 0 <= maxUpdatedAt /\
  Forall (fun p => minCreatedAt <= payload_integer (GetPayload p) "created_at" /\
                   payload_integer (GetPayload p) "updated_at" <= maxUpdatedAt) pts /\
  minCreatedAt ∈ map (fun p => payload_integer (GetPayload p) "created_at") pts /\
  maxUpdatedAt ∈ map (fun p => payload_integer (GetPayload p) "updated_at") pts.
Proof.
  induction pts as [|p pts IH] using rev_ind; [congruence|]. intros _ F.
  apply Forall_app in F as [F Fp]. inversion Fp as [|? ? (c & u & Ec & Eu & Pc & Pu) _]; subst.
  rewrite fold_left_app. cbn [fold_left].
  assert (Ic : payload_integer (GetPayload p) "created_at" = c)
    by (unfold payload_integer; now rewrite Ec).
  assert (Iu : payload_integer (GetPayload p) "updated_at" = u)
    by (unfold payload_integer; now rewrite Eu).
  destruct pts as [|q pts'].
  - assert (E : info_times_step (fold_left info_times_step [] (-1, -1)) p = (c, u)).
    { cbn [fold_left]. unfold info_times_step. rewrite Ec, Eu. cbn [GetIntegerValue].
      cbn [Z.eqb orb]. now replace (-1 <? u) with true by (symmetry; apply Z.ltb_lt; lia). }
    rewrite E. cbn [app map]. rewrite Ic, Iu.
    split; [lia|]. split; [lia|]. split; [repeat constructor; lia|]. split; left.
  - specialize (IH ltac:(discriminate) F).
    destruct (fold_left info_times_step (q :: pts') (-1, -1)) as [a b].
    destruct IH as (Pa & Pb & All & Ma & Mb).
    assert (E : info_times_step (a, b) p = (Z.min a c, Z.max b u)).
    { unfold info_times_step. rewrite Ec, Eu. cbn [GetIntegerValue].
      replace (a =? -1) with false by (symmetry; apply Z.eqb_neq; lia). cbn [orb].
      destruct (Z.ltb_spec c a), (Z.ltb_spec b u); f_equal; lia. }
    rewrite E, !map_app. cbn [map]. rewrite Ic, Iu.
    split; [lia|]. split; [lia|]. split.
    { apply Forall_app. split.
      - eapply Forall_impl; [exact All|]. cbn. intros ? [? ?]. lia.
      - repeat constructor; rewrite ?Ic, ?Iu; lia. }
    rewrite !elem_of_app, !list_elem_of_singleton.
    destruct (Z.min_spec a c) as [[_ ->]|[_ ->]], (Z.max_spec b u) as [[_ ->]|[_ ->]]; auto.
Qed.

Lemma strict_scroll_result (db : QdrantVectorDB) (uid field value agentID : string)
    (withPayload : bool) (s : Server) :
  let q := strict_scroll db uid field value agentID withPayload in
  client_Scroll q s =
    match faults s Scroll, collections s !! collectionName db with
    | Some msg, _ => (Err msg, log (RpcScroll q) false s)
    | None, None => (Err (missing_collection s), log (RpcScroll q) false s)
    | None, Some c =>
        (Ok (map (fun p => {| rp_Id := ps_Id p;
                              rp_Payload := if withPayload then Some (ps_Payload p) else None |})
               (strict_hits uid field value agentID c)),
         log (RpcScroll q) true s)
    end.
Proof.
  intros q. destruct (client_Scroll_result q s) as [Hr Hs].
  destruct (client_Scroll q s) as [r s1]. cbn [fst snd] in Hr, Hs. subst s1.
  cbn [sc_CollectionName q strict_scroll] in Hr.
  destruct (faults s Scroll); [now subst r|].
  destruct (collections s !! collectionName db); now subst r.
Qed.

(** X15.  With the Scroll RPC working and the collection present,
    [GetSpeakerInfo] fails with [speaker ... not found] when no stored point
    matches [(uid, agent_id, speaker_id)].  Otherwise it reports the
    requested speaker ID, the name of the first point returned and the
    number of points returned; and when every returned point carries both
    timestamps, neither negative, the reported creation time is the earliest
    and the reported update time the latest among them. *)
Theorem GetSpeakerInfo_summarises (now : Z) (db : QdrantVectorDB)
    (uid agentID speakerID : string) (s : Server) (c : Collection) :
  faults s Scroll = None ->
  collections s !! collectionName db = Some c ->
  let hits := take (Z.to_nat scroll_limit)
                (candidates (Some (strict_filter uid "speaker_id" speakerID agentID)) c) in
  match hits with
  | [] => fst (GetSpeakerInfo now db uid agentID speakerID s) =
            Err ("speaker " +:+ speakerID +:+ " not found")
  | first :: _ =>
      exists info,
        fst (GetSpeakerInfo now db uid agentID speakerID s) = Ok info /\
        si_ID info = speakerID /\
        si_Name info = payload_string (ps_Payload first) "speaker_name" /\
        si_SampleCount info = Z.of_nat (length hits) /\
        (Forall (fun p => timestamped (ps_Payload p)) hits ->
         Forall (fun p => si_CreatedAt info <= payload_integer (ps_Payload p) "created_at" /\
                          payload_integer (ps_Payload p) "updated_at" <= si_UpdatedAt info) hits /\
         si_CreatedAt info ∈ map (fun p => payload_integer (ps_Payload p) "created_at") hits /\
         si_UpdatedAt info ∈ map (fun p => payload_integer (ps_Payload p) "updated_at") hits)
  end.
Proof.
  intros F C hits. unfold GetSpeakerInfo, st_bind, st_wrap.
  rewrite strict_scroll_result, F, C. cbn [wrap_err].
  change (strict_hits uid "speaker_id" speakerID agentID c) with hits.
  destruct hits as [|first rest]; [reflexivity|].
  cbn [map].
  set (pts := {| rp_Id := ps_Id first; rp_Payload := Some (ps_Payload first) |}
              :: map (fun p => {| rp_Id := ps_Id p; rp_Payload := Some (ps_Payload p) |}) rest).
  assert (Epts : pts = map (fun p => {| rp_Id := ps_Id p; rp_Payload := Some (ps_Payload p) |})
                         (first :: rest)) by reflexivity.
  destruct (fold_left info_times_step pts (-1, -1)) as [a b] eqn:Fold.
  unfold st_ret. cbn [fst]. eexists. split; [reflexivity|].
  cbn [si_ID si_Name si_SampleCount si_CreatedAt si_UpdatedAt GetPayload rp_Payload default].
  split; [reflexivity|]. split; [reflexivity|].
  split; [now rewrite Epts, length_map|].
  intros T. pose proof (info_times_nonneg pts) as I. rewrite Fold in I.
  destruct I as (Pa & Pb & All & Ma & Mb).
  { discriminate. }
  { rewrite Epts. apply Forall_fmap. eapply Forall_impl; [exact T|]. intros p H. exact H. }
  replace (a =? -1) with false by (symmetry; apply Z.eqb_neq; lia).
  replace (b =? -1) with false by (symmetry; apply Z.eqb_neq; lia).
  rewrite Epts in All, Ma, Mb. rewrite map_map in Ma, Mb.
  split; [|split; [exact Ma|exact Mb]].
  apply Forall_forall. intros p Hp.
  apply (proj1 (Forall_forall _ _) All
           {| rp_Id := ps_Id p; rp_Payload := Some (ps_Payload p) |}).
  apply list_elem_of_fmap. eauto.
Qed.

Lemma GetSpeakerInfo_summarises_witness :
  exists info,
    fst (GetSpeakerInfo 0 demo_db "u1" "a1" "s1" demo_enrolled) = Ok info /\
    si_Name info = "Alice" /\ si_SampleCount info = 1.
Proof.
  destruct demo_collection as (c & C & P).
  pose proof (GetSpeakerInfo_summarises 0 demo_db "u1" "a1" "s1" demo_enrolled c eq_refl C) as H.
  assert (E : candidates (Some (strict_filter "u1" "speaker_id" "s1" "a1")) c =
              [insert_point "u1" "a1" "s1" "Alice" "U-1" [F32.of_Z 3; F32.of_Z 4] 0 100 100])
    by (unfold candidates; rewrite P; vm_compute; reflexivity).
  cbv zeta in H. rewrite E in H. destruct H as (info & G & _ & N & L & _).
  exists info. split; [exact G|]. split; [exact N|exact L].
Defined.

Lemma candidates_elem (f : option Filter) (c : Collection) (p : PointStruct) :
  p ∈ candidates f c <->
  (exists id, points c !! id = Some p) /\ filter_holds f (ps_Payload p) = true.
Proof.
  unfold candidates. rewrite list_elem_of_filter, list_elem_of_fmap. split.
  - intros [H ([id q] & -> & I)]. apply elem_of_map_to_list in I. eauto.
  - intros [[id I] H]. split; [exact H|]. exists (id, p). split; [reflexivity|].
    now apply elem_of_map_to_list.
Qed.

(** X16.  Insert and look-up agree.  After a successful [Insert],
    with the Scroll RPC working, the collection exists and holds the new
    point among those that the strict filter on its own
    [(uid, agent_id, speaker_id)] selects; [GetSpeakerSampleCount] for that
    speaker succeeds with a count between 1 and 10000, and [GetSpeakerInfo]
    succeeds with that speaker ID and the same count. *)
Theorem inserted_sample_is_found (now : Z) (db : QdrantVectorDB)
    (uid agentID speakerID speakerName uuid : string) (embedding : list float32)
    (sampleIndex createdAt updatedAt : Z) (s s' : Server) :
  Insert db uid agentID speakerID speakerName uuid embedding sampleIndex createdAt updatedAt s
    = (Ok tt, s') ->
  faults s Scroll = None ->
  exists c n info,
    collections s' !! collectionName db = Some c /\
    insert_point uid agentID speakerID speakerName uuid embedding sampleIndex createdAt updatedAt
      ∈ candidates (Some (strict_filter uid "speaker_id" speakerID agentID)) c /\
    fst (GetSpeakerSampleCount db uid agentID speakerID s') = Ok n /\
    1 <= n <= 10000 /\
    fst (GetSpeakerInfo now db uid agentID speakerID s') = Ok info /\
    si_ID info = speakerID /\ si_SampleCount info = n.
Proof.
  intros I F.
  pose proof (Insert_faults db uid agentID speakerID speakerName uuid embedding sampleIndex
                createdAt updatedAt s) as F'.
  rewrite I in F'. cbn [snd] in F'.
  apply Insert_ok in I.
  set (pt := insert_point uid agentID speakerID speakerName uuid embedding sampleIndex
               createdAt updatedAt) in *.
  assert (L : stored db s' !! generatePointID uid agentID speakerID sampleIndex = Some pt)
    by (rewrite I; apply lookup_insert_eq).
  apply stored_lookup_collection in L as (c & C & L).
  assert (Cand : pt ∈ candidates (Some (strict_filter uid "speaker_id" speakerID agentID)) c).
  { apply candidates_elem. split; [eauto|].
    apply (insert_payload_selected uid agentID speakerID speakerName uuid embedding). }
  set (hits := strict_hits uid "speaker_id" speakerID agentID c).
  assert (H : exists first rest, hits = first :: rest /\ Z.of_nat (length hits) <= 10000).
  { unfold hits, strict_hits.
    destruct (candidates (Some (strict_filter uid "speaker_id" speakerID agentID)) c)
      as [|first l] eqn:E; [inversion Cand|].
    exists first, (take (Z.to_nat scroll_limit - 1) l).
    split.
    - unfold scroll_limit. change (Z.to_nat 10000) with (S (Z.to_nat 9999)).
      cbn [take]. reflexivity.
    - rewrite length_take. unfold scroll_limit. lia. }
  destruct H as (first & rest & Eh & Le).
  exists c, (Z.of_nat (length hits)). 
  unfold GetSpeakerInfo, GetSpeakerSampleCount, st_bind, st_wrap.
  rewrite !strict_scroll_result, F', F, C. cbn [wrap_err]. fold hits. rewrite Eh.
  cbn [map]. destruct (fold_left info_times_step _ _) as [a b]. unfold st_ret. cbn [fst].
  rewrite Eh in Le. cbn [length] in *. rewrite length_map.
  eexists. split; [reflexivity|]. split; [exact Cand|]. split; [reflexivity|].
  split; [lia|]. split; [reflexivity|]. split; reflexivity.
Qed.

Lemma inserted_sample_is_found_witness :
  exists n, fst (GetSpeakerSampleCount demo_db "u1" "a1" "s1" demo_enrolled) = Ok n /\
            1 <= n <= 10000.
Proof.
  assert (I : Insert demo_db "u1" "a1" "s1" "Alice" "U-1" [F32.of_Z 3; F32.of_Z 4] 0 100 100
                demo_server = (Ok tt, demo_enrolled))
    by (apply pair_fst_eq; vm_compute; reflexivity).
  destruct (inserted_sample_is_found 0 demo_db "u1" "a1" "s1" "Alice" "U-1" _ 0 100 100
              demo_server demo_enrolled I eq_refl) as (c & n & info & _ & _ & E & R & _).
  exists n. split; [exact E|exact R].
Defined.

Lemma points_of_snoc speakerID pts p :
  points_of speakerID (pts ++ [p]) =
  points_of speakerID pts ++ (if decide (speaker_of p = speakerID) then [p] else []).
Proof.
  unfold points_of. rewrite filter_app. reflexivity.
Qed.

Lemma speaker_summary_snoc speakerID own p info :
  speaker_summary speakerID own = Some info ->
  speaker_summary speakerID (own ++ [p]) =
  Some {| si_ID := si_ID info; si_Name := si_Name info; si_UUID := si_UUID info;
          si_AgentID := si_AgentID info; si_SampleCount := si_SampleCount info + 1;
          si_CreatedAt := created_step (si_CreatedAt info) (created_of p);
          si_UpdatedAt := updated_step (si_UpdatedAt info) (updated_of p) |}.
Proof.
  destruct own as [|first rest]; [discriminate|]. intros [= <-].
  cbn [speaker_summary app si_ID si_Name si_UUID si_AgentID si_SampleCount si_CreatedAt
       si_UpdatedAt].
  f_equal. f_equal.
  - change (first :: rest ++ [p]) with ((first :: rest) ++ [p]). rewrite length_app. cbn [length]. lia.
  - change (first :: rest ++ [p]) with ((first :: rest) ++ [p]).
    rewrite map_app, fold_left_app. reflexivity.
  - change (first :: rest ++ [p]) with ((first :: rest) ++ [p]).
    rewrite map_app, fold_left_app. reflexivity.
Qed.

(** the aggregation loop decomposes by speaker: the entry of a speaker is
    what its own points produce, in scroll order; points without a speaker
    id produce nothing *)
Lemma aggregate_entry (pts : list RetrievedPoint) (speakerID : string) :
  fold_left aggregate_step pts ∅ !! speakerID =
  if decide (speakerID = "") then None
  else speaker_summary speakerID (points_of speakerID pts).
Proof.
  induction pts as [|p pts IH] using rev_ind.
  { cbn [fold_left]. rewrite lookup_empty. now destruct (decide _). }
  rewrite fold_left_app. cbn [fold_left]. rewrite points_of_snoc.
  set (M := fold_left aggregate_step pts ∅) in *.
  unfold aggregate_step. fold (speaker_of p). fold (created_of p). fold (updated_of p).
  destruct (decide (speakerID = "")) as [->|NE].
  { destruct (bool_decide (speaker_of p = "")) eqn:B; [exact IH|].
    apply bool_decide_eq_false_1 in B. now rewrite lookup_insert_ne. }
  destruct (decide (speaker_of p = speakerID)) as [E|N].
  - rewrite bool_decide_eq_false_2 by congruence. rewrite E, lookup_insert_eq, IH.
    destruct (speaker_summary speakerID (points_of speakerID pts)) as [info|] eqn:S.
    + rewrite (speaker_summary_snoc _ _ p info S). reflexivity.
    + destruct (points_of speakerID pts); [|discriminate]. cbn [app speaker_summary].
      cbn [si_ID si_Name si_UUID si_AgentID si_SampleCount si_CreatedAt si_UpdatedAt length
           map fold_left].
      reflexivity.
  - rewrite app_nil_r.
    destruct (bool_decide (speaker_of p = "")); [exact IH|].
    rewrite lookup_insert_ne by exact N. exact IH.
Qed.

Lemma speaker_summary_id speakerID own info :
  speaker_summary speakerID own = Some info ->
  si_ID info = speakerID /\ si_SampleCount info = Z.of_nat (length own) /\ own <> [].
Proof. destruct own; [discriminate|]. intros [= <-]. cbn. auto. Qed.

Lemma GetAllSpeakers_result db uid agentID (s : Server) (c : Collection) :
  faults s Scroll = None ->
  collections s !! collectionName db = Some c ->
  GetAllSpeakers db uid agentID s =
    (Ok (map snd (map_to_list (fold_left aggregate_step (listed_points uid agentID c) ∅))),
     log (RpcScroll {| sc_CollectionName := collectionName db;
                       sc_Filter := Some (list_filter uid agentID);
                       sc_Limit := scroll_limit; sc_WithPayload := true |}) true s).
Proof.
  intros F C. unfold GetAllSpeakers, st_bind, st_wrap, st_ret.
  set (q := {| sc_CollectionName := collectionName db |}).
  destruct (client_Scroll_result q s) as [Hr Hs].
  destruct (client_Scroll q s) as [r s1]. cbn [fst snd] in Hr, Hs. subst s1.
  rewrite F in Hr. cbn [sc_CollectionName q] in Hr. rewrite C in Hr. subst r.
  cbn [wrap_err is_ok]. reflexivity.
Qed.

(** counting the points of each listed speaker counts every point with a
    speaker id once *)
Lemma count_by_speaker (ids : list string) (pts : list RetrievedPoint) :
  NoDup ids ->
  fold_left (fun total id => total + Z.of_nat (length (points_of id pts))) ids 0 =
  Z.of_nat (length (filter (fun p => speaker_of p ∈ ids) pts)).
Proof.
  intros ND.
  assert (G : forall acc, fold_left (fun total id => total + Z.of_nat (length (points_of id pts))) ids acc
              = acc + Z.of_nat (length (filter (fun p => speaker_of p ∈ ids) pts))).
  { induction ND as [|id ids NI ND IH]; intros acc.
    - cbn [fold_left].
      assert (E : filter (fun p => speaker_of p ∈ []) pts = []).
      { induction pts as [|p pts IHp]; [reflexivity|].
        rewrite filter_cons, decide_False; [exact IHp|]. intros H. inversion H. }
      rewrite E. cbn. lia.
    - cbn [fold_left]. rewrite IH. unfold points_of.
      assert (L : length (filter (fun p => speaker_of p ∈ id :: ids) pts) =
                  (length (filter (fun p => speaker_of p = id) pts) +
                   length (filter (fun p => speaker_of p ∈ ids) pts))%nat).
      { clear IH. induction pts as [|p pts IHp]; [reflexivity|].
        rewrite !filter_cons.
        destruct (decide (speaker_of p = id)) as [E|N].
        - rewrite decide_True by (rewrite E; left).
          rewrite decide_False by (rewrite E; exact NI). cbn [length]. lia.
        - destruct (decide (speaker_of p ∈ ids)) as [I|NI'].
          + rewrite decide_True by (now right). cbn [length]. lia.
          + rewrite decide_False; [exact IHp|]. intros H. apply elem_of_cons in H as [|]; auto. }
      rewrite L. lia. }
  rewrite G. lia.
Qed.

Lemma filter_ext_elem {A} (P Q : A -> Prop) `{!forall x, Decision (P x)}
    `{!forall x, Decision (Q x)} (l : list A) :
  (forall x, x ∈ l -> (P x <-> Q x)) -> filter P l = filter Q l.
Proof.
  induction l as [|x l IH]; intros Hx; [reflexivity|].
  rewrite !filter_cons. rewrite IH by (intros y Hy; apply Hx; now right).
  destruct (decide (P x)) as [p|np].
  - rewrite decide_True; [reflexivity|]. apply Hx; [left|exact p].
  - rewrite decide_False; [reflexivity|]. intros q. apply np, Hx; [left|exact q].
Qed.

Lemma fold_sum_map {A} (f : A -> Z) (l : list A) (acc : Z) :
  fold_left (fun total x => total + f x) l acc = acc + fold_left (fun total x => total + f x) l 0.
Proof.
  revert acc. induction l as [|x l IH]; intros acc; cbn [fold_left]; [lia|].
  rewrite (IH (acc + f x)), (IH (0 + f x)). lia.
Qed.

(** what the aggregation of [GetAllSpeakers] returns for scrolled points *)
Lemma aggregate_speakers (pts : list RetrievedPoint) :
  let speakers := map snd (map_to_list (fold_left aggregate_step pts ∅)) in
  NoDup (map si_ID speakers) /\
  (forall info, info ∈ speakers <->
     si_ID info <> "" /\
     speaker_summary (si_ID info) (points_of (si_ID info) pts) = Some info) /\
  (forall id, id ∈ map si_ID speakers <-> id <> "" /\ id ∈ map speaker_of pts) /\
  fold_left (fun total speaker => total + si_SampleCount speaker) speakers 0 =
    Z.of_nat (length (filter (fun p => speaker_of p <> "") pts)).
Proof.
  intros speakers. subst speakers. set (M := fold_left aggregate_step pts ∅).
  assert (Key : forall id info, M !! id = Some info <->
            id <> "" /\ speaker_summary id (points_of id pts) = Some info).
  { intros id info. unfold M. rewrite aggregate_entry.
    destruct (decide (id = "")); [split; [discriminate|tauto]|tauto]. }
  assert (Id : forall kv, kv ∈ map_to_list M -> si_ID (snd kv) = fst kv).
  { intros [id info] H. apply elem_of_map_to_list in H. apply Key in H as [_ H].
    cbn [fst snd]. now apply speaker_summary_id in H as [? _]. }
  assert (Ids : map si_ID (map snd (map_to_list M)) = map fst (map_to_list M)).
  { rewrite map_map. apply map_ext_in. intros kv H. apply Id. now apply list_elem_of_In. }
  assert (Mem : forall info, info ∈ map snd (map_to_list M) <->
            si_ID info <> "" /\
            speaker_summary (si_ID info) (points_of (si_ID info) pts) = Some info).
  { intros info. rewrite list_elem_of_fmap. split.
    - intros ([id i] & -> & H). pose proof (Id _ H) as E. cbn [fst snd] in *.
      apply elem_of_map_to_list in H. rewrite E. now apply Key.
    - intros H. apply Key in H. exists (si_ID info, info). split; [reflexivity|].
      now apply elem_of_map_to_list. }
  assert (Dom : forall id, id ∈ map si_ID (map snd (map_to_list M)) <->
            id <> "" /\ id ∈ map speaker_of pts).
  { intros id. rewrite Ids. change (map fst (map_to_list M)) with ((map_to_list M).*1).
    rewrite list_elem_of_fmap. split.
    - intros ([id' info] & -> & H). cbn [fst]. apply elem_of_map_to_list, Key in H as [NE S].
      split; [exact NE|]. apply speaker_summary_id in S as (_ & _ & NN).
      destruct (points_of id' pts) as [|p own] eqn:P; [congruence|].
      assert (Hp : p ∈ points_of id' pts) by (rewrite P; left).
      unfold points_of in Hp. apply list_elem_of_filter in Hp as [E Hp].
      apply list_elem_of_fmap. eauto.
    - intros [NE H]. apply list_elem_of_fmap in H as (p & -> & Hp).
      assert (Hq : p ∈ points_of (speaker_of p) pts).
      { unfold points_of. apply list_elem_of_filter. auto. }
      destruct (speaker_summary (speaker_of p) (points_of (speaker_of p) pts)) as [info|] eqn:S.
      + exists (speaker_of p, info). split; [reflexivity|]. apply elem_of_map_to_list, Key. auto.
      + destruct (points_of (speaker_of p) pts); [inversion Hq|discriminate]. }
  assert (ND : NoDup (map si_ID (map snd (map_to_list M)))).
  { rewrite Ids. apply NoDup_fst_map_to_list. }
  split; [exact ND|]. split; [exact Mem|]. split; [exact Dom|].
  transitivity (fold_left (fun total id => total + Z.of_nat (length (points_of id pts)))
                  (map si_ID (map snd (map_to_list M))) 0).
  - assert (G : forall l, (forall info, info ∈ l -> si_SampleCount info =
                              Z.of_nat (length (points_of (si_ID info) pts))) ->
              forall acc, fold_left (fun total speaker => total + si_SampleCount speaker) l acc =
                fold_left (fun total id => total + Z.of_nat (length (points_of id pts)))
                  (map si_ID l) acc).
    { induction l as [|x l IH]; intros H acc; [reflexivity|]. cbn [map fold_left].
      rewrite (H x) by left. apply IH. intros i Hi. apply H. now right. }
    apply G. intros info H. apply Mem in H as [_ H].
    now apply speaker_summary_id in H as (_ & -> & _).
  - rewrite count_by_speaker by exact ND. f_equal. f_equal.
    apply filter_ext_elem. intros p Hp. rewrite Dom. split; [tauto|].
    intros NE. split; [exact NE|]. apply list_elem_of_fmap. eauto.
Qed.

(** X10.  With the Scroll RPC working and the collection present,
    the store's [GetAllSpeakers] succeeds and groups the scrolled points of
    the tenant by speaker ID.  No speaker is listed twice; a speaker is
    listed exactly when some scrolled point carries its non-empty ID; the
    sample count of an entry is the number of scrolled points of that
    speaker, and name, UUID and agent are read from the first of them.  The
    counts add up to the number of scrolled points with a non-empty speaker
    ID. *)
Theorem GetAllSpeakers_groups_by_speaker (db : QdrantVectorDB) (uid agentID : string)
    (s : Server) (c : Collection) :
  faults s Scroll = None ->
  collections s !! collectionName db = Some c ->
  let pts := listed_points uid agentID c in
  exists speakers,
    fst (GetAllSpeakers db uid agentID s) = Ok speakers /\
    NoDup (map si_ID speakers) /\
    (forall id, id ∈ map si_ID speakers <-> id <> "" /\ id ∈ map speaker_of pts) /\
    (forall info, info ∈ speakers ->
       exists first rest,
         points_of (si_ID info) pts = first :: rest /\
         si_SampleCount info = Z.of_nat (length (first :: rest)) /\
         si_Name info = payload_string (GetPayload first) "speaker_name" /\
         si_UUID info = payload_string (GetPayload first) "uuid" /\
         si_AgentID info = payload_string (GetPayload first) "agent_id") /\
    fold_left (fun total speaker => total + si_SampleCount speaker) speakers 0 =
      Z.of_nat (length (filter (fun p => speaker_of p <> "") pts)).
Proof.
  intros F C pts. rewrite (GetAllSpeakers_result db uid agentID s c F C). cbn [fst].
  fold pts. destruct (aggregate_speakers pts) as (ND & Mem & Dom & Sum).
  eexists. split; [reflexivity|]. split; [exact ND|]. split; [exact Dom|].
  split; [|exact Sum].
  intros info H. apply Mem in H as [_ H].
  destruct (points_of (si_ID info) pts) as [|first rest]; [discriminate|].
  exists first, rest. split; [reflexivity|]. injection H as <-. cbn. auto.
Qed.

Lemma GetAllSpeakers_groups_by_speaker_witness :
  exists speakers,
    fst (GetAllSpeakers demo_db "u1" "a1" demo_enrolled) = Ok speakers /\
    NoDup (map si_ID speakers).
Proof.
  destruct demo_collection as (c & C & _).
  destruct (GetAllSpeakers_groups_by_speaker demo_db "u1" "a1" demo_enrolled c eq_refl C)
    as (speakers & E & N & _).
  exists speakers. split; [exact E|exact N].
Defined.

Lemma created_step_min (cs : list Z) (cur : Z) :
  0 < cur -> Forall (fun c => 0 < c) cs ->
  fold_left created_step cs cur = fold_left Z.min cs cur.
Proof.
  revert cur. induction cs as [|c cs IH]; intros cur P F; [reflexivity|].
  inversion F as [|? ? Pc F']; subst. cbn [fold_left].
  assert (E : created_step cur c = Z.min cur c).
  { unfold created_step, time_IsZero.
    destruct (0 <? c) eqn:A; [|apply Z.ltb_ge in A; lia].
    destruct (cur =? -62135596800) eqn:B; [apply Z.eqb_eq in B; lia|].
    cbn [andb orb]. destruct (Z.ltb_spec c cur); lia. }
  rewrite E. apply IH; [lia|exact F'].
Qed.

Lemma updated_step_max (cs : list Z) (cur : Z) :
  0 < cur -> Forall (fun c => 0 < c) cs ->
  fold_left updated_step cs cur = fold_left Z.max cs cur.
Proof.
  revert cur. induction cs as [|c cs IH]; intros cur P F; [reflexivity|].
  inversion F as [|? ? Pc F']; subst. cbn [fold_left].
  assert (E : updated_step cur c = Z.max cur c).
  { unfold updated_step, time_IsZero.
    destruct (0 <? c) eqn:A; [|apply Z.ltb_ge in A; lia].
    destruct (cur =? -62135596800) eqn:B; [apply Z.eqb_eq in B; lia|].
    cbn [andb orb]. destruct (Z.ltb_spec cur c); lia. }
  rewrite E. apply IH; [lia|exact F'].
Qed.

Lemma fold_min_spec (cs : list Z) (cur : Z) :
  let r := fold_left Z.min cs cur in
  r <= cur /\ Forall (fun c => r <= c) cs /\ (r = cur \/ r ∈ cs).
Proof.
  revert cur. induction cs as [|c cs IH]; intros cur r; subst r; cbn [fold_left].
  - split; [lia|]. split; [constructor|now left].
  - destruct (IH (Z.min cur c)) as (L & A & M). split; [lia|]. split.
    + constructor; [lia|exact A].
    + destruct M as [M|M]; [|right; now right].
      destruct (Z.min_spec cur c) as [[_ E]|[_ E]]; rewrite E in *; [now left|right; rewrite M; left].
Qed.

Lemma fold_max_spec (cs : list Z) (cur : Z) :
  let r := fold_left Z.max cs cur in
  cur <= r /\ Forall (fun c => c <= r) cs /\ (r = cur \/ r ∈ cs).
Proof.
  revert cur. induction cs as [|c cs IH]; intros cur r; subst r; cbn [fold_left].
  - split; [lia|]. split; [constructor|now left].
  - destruct (IH (Z.max cur c)) as (L & A & M). split; [lia|]. split.
    + constructor; [lia|exact A].
    + destruct M as [M|M]; [|right; now right].
      destruct (Z.max_spec cur c) as [[_ E]|[_ E]]; rewrite E in *; [right; rewrite M; left|now left].
Qed.

(** X11.  For an entry of the list that [GetAllSpeakers] returns: when
    all scrolled points of that speaker carry a positive creation time, the
    entry's creation time is the earliest of them; when all carry a positive
    update time, its update time is the latest of them. *)
Theorem GetAllSpeakers_earliest_latest (db : QdrantVectorDB) (uid agentID : string)
    (s : Server) (c : Collection) (speakers : list SpeakerInfo) (info : SpeakerInfo) :
  faults s Scroll = None ->
  collections s !! collectionName db = Some c ->
  fst (GetAllSpeakers db uid agentID s) = Ok speakers ->
  info ∈ speakers ->
  let own := points_of (si_ID info) (listed_points uid agentID c) in
  (Forall (fun p => 0 < created_of p) own ->
   Forall (fun p => si_CreatedAt info <= created_of p) own /\
   si_CreatedAt info ∈ map created_of own) /\
  (Forall (fun p => 0 < updated_of p) own ->
   Forall (fun p => updated_of p <= si_UpdatedAt info) own /\
   si_UpdatedAt info ∈ map updated_of own).
Proof.
  intros F C R H own. rewrite (GetAllSpeakers_result db uid agentID s c F C) in R.
  injection R as <-.
  destruct (aggregate_speakers (listed_points uid agentID c)) as (_ & Mem & _ & _).
  apply Mem in H as [_ H]. change (speaker_summary (si_ID info) own = Some info) in H.
  clearbody own. clear Mem.
  destruct own as [|first rest]; [discriminate|]. injection H as <-.
  cbn [si_CreatedAt si_UpdatedAt]. split; intros P.
  - assert (P0 : 0 < created_of first) by (now inversion P).
    change (fold_left created_step (map created_of rest)
              (created_step (created_of first) (created_of first)))
      with (fold_left created_step (map created_of (first :: rest)) (created_of first)).
    rewrite (created_step_min (map created_of (first :: rest)) (created_of first));
      [|exact P0|now apply Forall_fmap].
    destruct (fold_min_spec (map created_of (first :: rest)) (created_of first)) as (L & A & M).
    split.
    + apply Forall_forall. intros p Hp. eapply (proj1 (Forall_forall _ _) A).
      apply list_elem_of_fmap. eauto.
    + destruct M as [M|M]; [rewrite M; left|exact M].
  - assert (P0 : 0 < updated_of first) by (now inversion P).
    change (fold_left updated_step (map updated_of rest)
              (updated_step (updated_of first) (updated_of first)))
      with (fold_left updated_step (map updated_of (first :: rest)) (updated_of first)).
    rewrite (updated_step_max (map updated_of (first :: rest)) (updated_of first));
      [|exact P0|now apply Forall_fmap].
    destruct (fold_max_spec (map updated_of (first :: rest)) (updated_of first)) as (L & A & M).
    split.
    + apply Forall_forall. intros p Hp. eapply (proj1 (Forall_forall _ _) A).
      apply list_elem_of_fmap. eauto.
    + destruct M as [M|M]; [rewrite M; left|exact M].
Qed.

Lemma GetAllSpeakers_earliest_latest_witness :
  exists info,
    fst (GetAllSpeakers demo_db "u1" "a1" demo_enrolled) = Ok [info] /\
    si_CreatedAt info = 100 /\ si_UpdatedAt info = 100.
Proof.
  destruct demo_collection as (c & C & P).
  destruct (fst (GetAllSpeakers demo_db "u1" "a1" demo_enrolled)) as [[|info [|]]|] eqn:G;
    try (exfalso; vm_compute in G; discriminate).
  exists info. split; [reflexivity|].
  pose proof (GetAllSpeakers_earliest_latest demo_db "u1" "a1" demo_enrolled c [info] info
                eq_refl C G ltac:(left)) as H.
  assert (I : si_ID info = "s1") by (vm_compute in G; now injection G as <-).
  assert (O : points_of (si_ID info) (listed_points "u1" "a1" c) =
              [{| rp_Id := generatePointID "u1" "a1" "s1" 0;
                  rp_Payload := Some (ps_Payload
                    (insert_point "u1" "a1" "s1" "Alice" "U-1" [F32.of_Z 3; F32.of_Z 4] 0 100 100)) |}]).
  { rewrite I. unfold listed_points, candidates. rewrite P. vm_compute. reflexivity. }
  cbv zeta in H. rewrite O in H. destruct H as [Hc Hu].
  destruct Hc as [_ Hc]; [repeat constructor|].
  destruct Hu as [_ Hu]; [repeat constructor|].
  apply list_elem_of_singleton in Hc, Hu. split; [exact Hc|exact Hu].
Defined.

Lemma length_remove_dups_le (l : list string) :
  (length (remove_dups l) <= length l)%nat.
Proof.
  induction l as [|x l IH]; [reflexivity|]. cbn [remove_dups].
  destruct (decide_rel elem_of x l); cbn [length]; lia.
Qed.

Section StatsExtras.
Context {VadHandle : Type}.

(** X12.  With the Scroll RPC working and the collection present,
    [GetDatabaseStats] reports as total samples the number of scrolled
    points of the tenant that carry a speaker ID, and as total speakers the
    number of distinct speaker IDs among them.  So there are never more
    speakers than samples, and never more than 10000 samples, the limit of
    the scroll. *)
Theorem GetDatabaseStats_totals (now : Z) (m : Manager VadHandle) (uid agentID : string)
    (w : World) (c : Collection) :
  faults (w_store w) Scroll = None ->
  collections (w_store w) !! collectionName (vectorDB m) = Some c ->
  let pts := listed_points uid agentID c in
  let stats := fst (GetDatabaseStats now m uid agentID w) in
  ds_TotalSamples stats = Z.of_nat (length (filter (fun p => speaker_of p <> "") pts)) /\
  ds_TotalSpeakers stats =
    Z.of_nat (length (remove_dups (filter (fun id => id <> "") (map speaker_of pts)))) /\
  ds_TotalSpeakers stats <= ds_TotalSamples stats <= 10000.
Proof.
  intros F C pts stats. subst stats. unfold GetDatabaseStats, on_store.
  rewrite (GetAllSpeakers_result (vectorDB m) uid agentID (w_store w) c F C).
  cbn [fst ds_TotalSamples ds_TotalSpeakers]. fold pts.
  destruct (aggregate_speakers pts) as (ND & Mem & Dom & Sum).
  set (speakers := map snd (map_to_list (fold_left aggregate_step pts ∅))) in *.
  assert (Len : length speakers =
                length (remove_dups (filter (fun id => id <> "") (map speaker_of pts)))).
  { rewrite <- (length_map si_ID speakers). apply Permutation_length.
    apply NoDup_Permutation; [exact ND|apply NoDup_remove_dups|].
    intros id. rewrite Dom, elem_of_remove_dups, list_elem_of_filter. tauto. }
  split; [exact Sum|]. split; [now rewrite Len|].
  rewrite Sum. split.
  - rewrite Len. apply inj_le.
    transitivity (length (filter (fun id => id <> "") (map speaker_of pts))).
    + apply length_remove_dups_le.
    + assert (G : forall l : list RetrievedPoint,
               length (filter (fun id => id <> "") (map speaker_of l)) =
               length (filter (fun p => speaker_of p <> "") l)).
      { induction l as [|p l IH]; [reflexivity|]. cbn [map]. rewrite !filter_cons.
        destruct (decide (speaker_of p <> "")); cbn [length]; lia. }
      rewrite G. lia.
  - transitivity (Z.of_nat (length pts)).
    + apply inj_le, length_filter.
    + unfold pts, listed_points. rewrite length_map, length_take. unfold scroll_limit. lia.
Qed.

End StatsExtras.

Lemma GetDatabaseStats_totals_witness :
  let stats := fst (GetDatabaseStats 0 demo_manager "u1" "a1" demo_world) in
  ds_TotalSpeakers stats <= ds_TotalSamples stats <= 10000.
Proof.
  destruct demo_collection as (c & C & _).
  exact (proj2 (proj2 (GetDatabaseStats_totals 0 demo_manager "u1" "a1" demo_world c
                         eq_refl C))).
Defined.

Lemma delete_ids_lookup (ids : list Z) (pts : gmap Z PointStruct) (k : Z) :
  fold_left (fun m i => delete i m) ids pts !! k =
  if decide (k ∈ ids) then None else pts !! k.
Proof.
  revert pts. induction ids as [|i ids IH]; intros pts; cbn [fold_left].
  - rewrite decide_False; [reflexivity|]. intros H; inversion H.
  - rewrite IH. destruct (decide (k ∈ ids)) as [I|NI].
    + rewrite decide_True; [reflexivity|now right].
    + destruct (decide (k = i)) as [->|N].
      * rewrite decide_True by left. apply lookup_delete_eq.
      * rewrite decide_False; [now apply lookup_delete_ne|].
        intros H. apply elem_of_cons in H as [|]; auto.
Qed.

Lemma client_Delete_result (name : string) (ids : list Z) (s : Server) :
  client_Delete name ids s =
    match faults s Delete, collections s !! name with
    | Some msg, _ => (Err msg, log (RpcDelete name ids) false s)
    | None, None => (Err (missing_collection s), log (RpcDelete name ids) false s)
    | None, Some c =>
        (Ok tt, log (RpcDelete name ids) true
                  (set_collections
                     (<[name := {| vector_size := vector_size c;
                                   points := fold_left (fun m i => delete i m) ids (points c) |}]>
                        (collections s)) s))
    end.
Proof.
  unfold client_Delete, rpc, with_collection. cbn [rpc_of].
  destruct (faults s Delete); [reflexivity|].
  destruct (collections s !! name); reflexivity.
Qed.

Lemma DeleteSpeaker_ok_inv (db : QdrantVectorDB) (uid agentID speakerID : string)
    (s s' : Server) :
  DeleteSpeaker db uid agentID speakerID s = (Ok tt, s') ->
  exists c, collections s !! collectionName db = Some c /\
    faults s Scroll = None /\ faults s' = faults s /\
    stored db s' = fold_left (fun m i => delete i m)
                     (map ps_Id (strict_hits uid "speaker_id" speakerID agentID c)) (points c) /\
    is_Some (collections s' !! collectionName db) /\
    (forall name, name <> collectionName db -> collections s' !! name = collections s !! name).
Proof.
  unfold DeleteSpeaker, st_bind, st_wrap. rewrite strict_scroll_result.
  destruct (faults s Scroll) eqn:F; [discriminate|].
  destruct (collections s !! collectionName db) as [c|] eqn:C; [|discriminate].
  cbn [wrap_err]. set (hits := strict_hits uid "speaker_id" speakerID agentID c).
  destruct hits as [|h hits'] eqn:H.
  - cbn [map]. unfold st_ret. intros [= <-]. exists c. unfold stored.
    cbn [log collections faults]. rewrite C. fold hits. rewrite H. cbn [map fold_left].
    repeat split; eauto.
  - cbn [map]. rewrite client_Delete_result. cbn [log faults collections].
    destruct (faults s Delete) eqn:FD; [discriminate|]. rewrite C.
    cbn [wrap_err]. unfold st_ret. intros [= <-]. exists c.
    unfold stored. cbn [log set_collections collections faults].
    rewrite lookup_insert_eq. cbn [points]. fold hits. rewrite H.
    split; [reflexivity|]. split; [reflexivity|]. split; [reflexivity|].
    split; [cbn [map fold_left rp_Id]; rewrite map_map; reflexivity|].
    split; [eauto|]. intros name N. now rewrite lookup_insert_ne.
Qed.

Lemma filter_none {A} (P : A -> Prop) `{!forall x, Decision (P x)} (l : list A) :
  (forall x, x ∈ l -> ~ P x) -> filter P l = [].
Proof.
  induction l as [|x l IH]; intros Hx; [reflexivity|].
  rewrite filter_cons, decide_False by (apply Hx; left). apply IH. intros y Hy. apply Hx. now right.
Qed.

Lemma stored_candidates (db : QdrantVectorDB) (s : Server) (c : Collection) f :
  collections s !! collectionName db = Some c ->
  candidates f c = filter (fun p => filter_holds f (ps_Payload p) = true)
                     (map snd (map_to_list (stored db s))).
Proof. intros C. unfold candidates, stored. now rewrite C. Qed.

(** X13.  In a collection where every point is filed under its own ID,
    a successful [DeleteSpeaker] only removes: every point that remains was
    there before, unchanged.  It removes no point outside the strict filter
    on [(uid, agent_id, speaker_id)] and leaves the other collections alone.
    When at most 10000 points match, none of them remains, and a count of
    the speaker's samples afterwards gives 0. *)
Theorem DeleteSpeaker_removes_only_its_points (db : QdrantVectorDB)
    (uid agentID speakerID : string) (s s' : Server) :
  ids_consistent (stored db s) ->
  DeleteSpeaker db uid agentID speakerID s = (Ok tt, s') ->
  (forall id p, stored db s' !! id = Some p -> stored db s !! id = Some p) /\
  (forall id p, stored db s !! id = Some p ->
     ~ selected uid "speaker_id" speakerID agentID p -> stored db s' !! id = Some p) /\
  (Z.of_nat (length (filter (selected uid "speaker_id" speakerID agentID)
                       (map snd (map_to_list (stored db s))))) <= 10000 ->
   (forall id p, stored db s' !! id = Some p ->
      ~ selected uid "speaker_id" speakerID agentID p) /\
   fst (GetSpeakerSampleCount db uid agentID speakerID s') = Ok 0) /\
  (forall name, name <> collectionName db -> collections s' !! name = collections s !! name).
Proof.
  intros W D. apply DeleteSpeaker_ok_inv in D as (c & C & F & F' & St & C' & Other).
  set (own := selected uid "speaker_id" speakerID agentID).
  assert (Sc : stored db s = points c) by (unfold stored; now rewrite C).
  set (hits := strict_hits uid "speaker_id" speakerID agentID c) in *.
  assert (Hits : forall q, q ∈ hits -> own q /\ stored db s !! ps_Id q = Some q).
  { intros q Hq. unfold hits, strict_hits in Hq. apply elem_of_take in Hq as (i & Hq & _).
    apply list_elem_of_lookup_2 in Hq. apply candidates_elem in Hq as [[id I] O].
    split; [exact O|]. rewrite Sc. now rewrite (W id q) by (now rewrite Sc). }
  split; [|split; [|split; [|exact Other]]].
  - intros id p. rewrite St, delete_ids_lookup, Sc. destruct (decide _); [discriminate|auto].
  - intros id p I NO. rewrite St, delete_ids_lookup. rewrite decide_False; [now rewrite <- Sc|].
    intros H. apply list_elem_of_fmap in H as (q & E & Hq). apply Hits in Hq as [O Iq].
    rewrite <- E, I in Iq. injection Iq as <-. contradiction.
  - intros Le.
    assert (All : hits = candidates (Some (strict_filter uid "speaker_id" speakerID agentID)) c).
    { unfold hits, strict_hits. apply take_ge.
      rewrite (stored_candidates db s c _ C). unfold scroll_limit.
      apply Nat2Z.inj_le. rewrite Z2Nat.id by lia. exact Le. }
    assert (Gone : forall id p, stored db s' !! id = Some p -> ~ own p).
    { intros id p. rewrite St, delete_ids_lookup. destruct (decide _) as [|NI]; [discriminate|].
      intros I O. apply NI. apply list_elem_of_fmap. exists p. split.
      - symmetry. apply W. now rewrite Sc.
      - rewrite All. apply candidates_elem. eauto. }
    split; [exact Gone|].
    unfold GetSpeakerSampleCount, st_bind, st_wrap, st_ret.
    set (q := strict_scroll db uid "speaker_id" speakerID agentID true).
    destruct (client_Scroll_result q s') as [Hr _].
    destruct (client_Scroll q s') as [r s1]. cbn [fst snd] in Hr |- *.
    rewrite F', F in Hr. cbn [sc_CollectionName q strict_scroll] in Hr.
    destruct C' as [c' C']. rewrite C' in Hr. subst r. cbn [wrap_err fst]. rewrite length_map.
    subst q. cbn [sc_Filter sc_Limit strict_scroll].
    rewrite (stored_candidates db s' c' _ C').
    rewrite filter_none; [rewrite take_nil; reflexivity|].
    intros p Hp. apply list_elem_of_fmap in Hp as ([id p'] & -> & Hp).
    apply elem_of_map_to_list in Hp. exact (Gone id p' Hp).
Qed.

Lemma DeleteSpeaker_removes_only_its_points_witness :
  let s' := snd (DeleteSpeaker demo_db "u1" "a1" "s1" demo_enrolled) in
  fst (GetSpeakerSampleCount demo_db "u1" "a1" "s1" s') = Ok 0 /\
  forall id p, stored demo_db s' !! id = Some p -> stored demo_db demo_enrolled !! id = Some p.
Proof.
  intros s'.
  assert (I : ids_consistent (stored demo_db demo_enrolled)).
  { apply (bool_decide_unpack (map_Forall (fun id p => ps_Id p = id)
                                 (stored demo_db demo_enrolled))).
    vm_compute. exact I. }
  assert (D : DeleteSpeaker demo_db "u1" "a1" "s1" demo_enrolled = (Ok tt, s'))
    by (apply pair_fst_eq; vm_compute; reflexivity).
  destruct (DeleteSpeaker_removes_only_its_points demo_db "u1" "a1" "s1" demo_enrolled s' I D)
    as (Sub & _ & Gone & _).
  split; [|exact Sub]. apply Gone. vm_compute. discriminate.
Defined.

Lemma prefix_app (sub t : string) : String.prefix sub (sub +:+ t) = true.
Proof.
  induction sub as [|a sub IH]; [destruct t; reflexivity|].
  change (String a sub +:+ t) with (String a (sub +:+ t)).
  change (String.prefix (String a sub) (String a (sub +:+ t)))
    with (if ascii_dec a a then String.prefix sub (sub +:+ t) else false).
  destruct (ascii_dec a a); [exact IH|contradiction].
Qed.

Lemma strings_Contains_here (sub t : string) : strings_Contains (sub +:+ t) sub = true.
Proof.
  assert (G : forall s, String.prefix sub s = true -> strings_Contains s sub = true).
  { intros s H. destruct s; cbn [strings_Contains]; now rewrite H. }
  apply G, prefix_app.
Qed.

Lemma strings_Contains_app_r (a b sub : string) :
  strings_Contains b sub = true -> strings_Contains (a +:+ b) sub = true.
Proof.
  intros H. induction a as [|x a IH]; [exact H|].
  change (String x a +:+ b) with (String x (a +:+ b)). cbn [strings_Contains].
  rewrite IH. apply orb_true_r.
Qed.

Lemma not_found_message (uuid uid : string) :
  strings_Contains ("failed to delete from vector database: " +:+
                    "speaker with uuid " +:+ uuid +:+ " not found for uid " +:+ uid)
                   "not found" = true.
Proof.
  do 3 apply strings_Contains_app_r.
  change (" not found for uid " +:+ uid) with (" " +:+ "not found" +:+ " for uid " +:+ uid).
  apply strings_Contains_app_r, strings_Contains_here.
Qed.

Section DeleteHandlerExtras.
Context {VadHandle : Type}.

(** X14.  Deleting what is not there, with the Scroll RPC working and
    the collection present.  A delete by UUID that matches no point of the
    tenant is answered with 404; a delete by speaker ID that matches no
    point is answered with 200.  In both cases the only RPC issued is the
    scroll, and the collections are unchanged. *)
Theorem delete_of_unknown_target (m : Manager VadHandle) (c : Request) (w : World)
    (coll : Collection) :
  getUIDFromRequest c <> "" ->
  faults (w_store w) Scroll = None ->
  collections (w_store w) !! collectionName (vectorDB m) = Some coll ->
  let uid := getUIDFromRequest c in
  let agentID := getAgentIDFromRequest c in
  let out := Handler_DeleteSpeaker m c w in
  (req_query c "uuid" <> "" ->
   candidates (Some (strict_filter uid "uuid" (req_query c "uuid") agentID)) coll = [] ->
   status (fst out) = StatusNotFound /\
   collections (w_store (snd out)) = collections (w_store w) /\
   map kind (calls (w_store (snd out))) = Scroll :: map kind (calls (w_store w))) /\
  (req_query c "uuid" = "" -> req_param c "speaker_id" <> "" ->
   candidates (Some (strict_filter uid "speaker_id" (req_param c "speaker_id") agentID)) coll = [] ->
   status (fst out) = StatusOK /\
   collections (w_store (snd out)) = collections (w_store w) /\
   map kind (calls (w_store (snd out))) = Scroll :: map kind (calls (w_store w))).
Proof.
  intros U F C uid agentID out. subst out. unfold Handler_DeleteSpeaker.
  fold uid agentID. rewrite (bool_decide_eq_false_2 _ U). split.
  - intros Q E. rewrite (bool_decide_eq_true_2 _ Q).
    unfold Manager_DeleteSpeakerByUUID. rewrite (bool_decide_eq_false_2 _ U).
    rewrite (bool_decide_eq_false_2 _ Q).
    unfold st_bind, st_wrap, on_store, DeleteSpeakerByUUID, st_bind, st_wrap.
    rewrite strict_scroll_result, F, C. unfold strict_hits. rewrite E, take_nil.
    cbn [map wrap_err st_fail]. unfold st_fail. cbn [wrap_err fst snd].
    unfold delete_error_response. rewrite not_found_message.
    cbn. auto.
  - intros Q P E. rewrite (bool_decide_eq_false_2 (req_query c "uuid" <> "")) by tauto.
    rewrite (bool_decide_eq_false_2 _ P).
    unfold Manager_DeleteSpeaker. rewrite (bool_decide_eq_false_2 _ U).
    unfold st_bind, st_wrap, on_store, DeleteSpeaker, st_bind, st_wrap.
    rewrite strict_scroll_result, F, C. unfold strict_hits. rewrite E, take_nil.
    cbn. auto.
Qed.

End DeleteHandlerExtras.

Lemma delete_of_unknown_target_witness :
  let out := Handler_DeleteSpeaker demo_manager demo_request_unknown demo_world in
  status (fst out) = StatusOK /\
  collections (w_store (snd out)) = collections (w_store demo_world).
Proof.
  intros out. destruct demo_collection as (c & C & P).
  destruct (delete_of_unknown_target demo_manager demo_request_unknown demo_world c
              ltac:(discriminate) eq_refl C) as [_ H].
  destruct H as (Hs & Hc & _); [reflexivity|discriminate| |split; [exact Hs|exact Hc]].
  unfold candidates. rewrite P. vm_compute. reflexivity.
Defined.

Lemma SearchWithFilter_result (db : QdrantVectorDB) (uid agentID speakerID : string)
    (queryEmbedding : list float32) (threshold : float32) (topK : Z) (s : Server)
    (c : Collection) :
  faults s Query = None ->
  collections s !! collectionName db = Some c ->
  SearchWithFilter db uid agentID speakerID queryEmbedding threshold topK s =
    (Ok (convert_points threshold
           (take (Z.to_nat (search_limit topK))
              (knn s queryEmbedding
                 (candidates (Some (strict_filter uid "speaker_id" speakerID agentID)) c)))),
     log (RpcQuery (SearchWithFilter_request db uid agentID speakerID queryEmbedding topK))
       true s).
Proof.
  intros F C. unfold SearchWithFilter, st_bind, st_wrap, client_Query, rpc, with_collection.
  cbn [rpc_of]. rewrite F.
  cbn [qp_CollectionName SearchWithFilter_request]. rewrite C.
  reflexivity.
Qed.

Section VerifyExtras.
Context {VadHandle : Type}.
Variable ready : OnlineStream -> bool.
Variable compute : OnlineStream -> list float32.

(** X17.  [VerifySpeaker], when the embedding has been extracted, the
    Query and Scroll RPCs work and the collection is present.  The query is
    restricted to the points of the claimed speaker.  If the search returns
    a match, the best of them not being discarded by the threshold test, the
    speaker is verified with that confidence and the name stored with that
    point.  If it returns none but the speaker has points, the answer is a success that says not verified, with confidence
    0 and the stored name.  If the speaker has no points, the call fails
    with [speaker ... not found]. *)
Theorem VerifySpeaker_outcomes (now : Z) (m : Manager VadHandle)
    (uid agentID speakerID : string) (audioData embedding : list float32) (sampleRate : Z)
    (w w0 : World) (c : Collection) :
  uid <> "" ->
  extractEmbedding ready compute audioData sampleRate w = (Ok embedding, w0) ->
  faults (w_store w) Query = None ->
  faults (w_store w) Scroll = None ->
  collections (w_store w) !! collectionName (vectorDB m) = Some c ->
  let own := candidates (Some (strict_filter uid "speaker_id" speakerID agentID)) c in
  let results := convert_points (m_threshold m) (take 1 (knn (w_store w) embedding own)) in
  fst (VerifySpeaker ready compute now m uid agentID speakerID audioData sampleRate w) =
    match results, take (Z.to_nat scroll_limit) own with
    | best :: _, _ =>
        Ok {| vr_SpeakerID := speakerID; vr_SpeakerName := sr_SpeakerName best;
              vr_Verified := true; vr_Confidence := sr_Confidence best;
              vr_Threshold := m_threshold m |}
    | [], first :: _ =>
        Ok {| vr_SpeakerID := speakerID;
              vr_SpeakerName := payload_string (ps_Payload first) "speaker_name";
              vr_Verified := false; vr_Confidence := F32.zero;
              vr_Threshold := m_threshold m |}
    | [], [] => Err ("speaker " +:+ speakerID +:+ " not found")
    end.
Proof.
  intros U X FQ FS C own results.
  pose proof (extractEmbedding_store ready compute audioData sampleRate w) as S0.
  rewrite X in S0. cbn [snd] in S0.
  unfold VerifySpeaker. rewrite (bool_decide_eq_false_2 _ U).
  unfold st_bind at 1. unfold st_wrap at 1. rewrite X. cbn [wrap_err].
  unfold st_bind at 1. unfold st_wrap at 1. unfold on_store at 1.
  rewrite S0, (SearchWithFilter_result _ _ _ _ _ _ _ _ c FQ C).
  change (search_limit 1) with 1. change (Z.to_nat 1) with 1%nat.
  fold own. cbn [wrap_err]. fold results.
  destruct results as [|best rest]; [|reflexivity].
  unfold on_store, GetSpeakerInfo, st_bind, st_wrap. cbn [w_store].
  rewrite strict_scroll_result. cbn [log faults collections]. rewrite FS, C.
  cbn [wrap_err]. unfold strict_hits. fold own.
  destruct (take (Z.to_nat scroll_limit) own) as [|first more]; [reflexivity|].
  cbn [map]. destruct (fold_left info_times_step _ _) as [a b]. reflexivity.
Qed.

End VerifyExtras.

Lemma VerifySpeaker_outcomes_witness :
  exists r,
    fst (VerifySpeaker demo_IsReady demo_Compute 0 demo_manager "u1" "a1" "s1"
           [F32.of_Z 3; F32.of_Z 4] 16000 demo_world) = Ok r /\
    vr_Verified r = true /\ vr_SpeakerName r = "Alice".
Proof.
  destruct demo_collection as (c & C & P).
  assert (X : extractEmbedding demo_IsReady demo_Compute [F32.of_Z 3; F32.of_Z 4] 16000 demo_world
              = (Ok [F32.of_Z 3; F32.of_Z 4],
                 snd (extractEmbedding demo_IsReady demo_Compute [F32.of_Z 3; F32.of_Z 4]
                        16000 demo_world))) by (apply pair_fst_eq; vm_compute; reflexivity).
  pose proof (VerifySpeaker_outcomes demo_IsReady demo_Compute 0 demo_manager "u1" "a1" "s1"
                _ _ 16000 demo_world _ c ltac:(discriminate) X eq_refl eq_refl C) as H.
  assert (E : candidates (Some (strict_filter "u1" "speaker_id" "s1" "a1")) c =
              [insert_point "u1" "a1" "s1" "Alice" "U-1" [F32.of_Z 3; F32.of_Z 4] 0 100 100])
    by (unfold candidates; rewrite P; vm_compute; reflexivity).
  cbv zeta in H. rewrite E in H. rewrite H. vm_compute.
  eexists. split; [reflexivity|]. split; reflexivity.
Defined.

(** ** Strings, the store address and the point key *)

Example strings_ReplaceAll_examples :
  strings_ReplaceAll "a/b/c" "/" "_" = "a_b_c" /\
  strings_ReplaceAll "aaa" "aa" "b" = "ba" /\
  strings_ReplaceAll "" "/" "_" = "" /\
  strings_ReplaceAll "x:y" ":" "" = "xy".
Proof. repeat split. Qed.

Example strings_HasSuffix_examples :
  strings_HasSuffix "a.wav" ".wav" = true /\ strings_HasSuffix "wav" ".wav" = false /\
  strings_HasSuffix "a.wav.mp3" ".wav" = false /\ strings_HasSuffix ".wav" ".wav" = true.
Proof. repeat split. Qed.

Lemma occurs_cons (c ch : ascii) (s : string) :
  occurs c (String ch s) = ((if ascii_dec ch c then 1 else 0) + occurs c s)%nat.
Proof. unfold occurs. cbn. destruct (ascii_dec ch c); reflexivity. Qed.

Lemma occurs_app (c : ascii) (a b : string) :
  occurs c (a +:+ b) = (occurs c a + occurs c b)%nat.
Proof.
  induction a as [|x a IH]; [reflexivity|].
  change (String x a +:+ b) with (String x (a +:+ b)). rewrite !occurs_cons, IH. lia.
Qed.

Lemma prefix_char (c ch : ascii) (s : string) :
  String.prefix (String c "") (String ch s) = if ascii_dec ch c then true else false.
Proof.
  destruct (ascii_dec ch c) as [->|N].
  - change (String.prefix (String c "") (String c s))
      with (if ascii_dec c c then String.prefix "" s else false).
    destruct (ascii_dec c c); [destruct s; reflexivity|contradiction].
  - change (String.prefix (String c "") (String ch s))
      with (if ascii_dec c ch then String.prefix "" s else false).
    destruct (ascii_dec c ch) as [E|_]; [congruence|reflexivity].
Qed.

Example strings_Split_examples :
  strings_Split "a:b" ":" = ["a"; "b"] /\ strings_Split "" ":" = [""] /\
  strings_Split "a:" ":" = ["a"; ""] /\ strings_Split "a::b" "::" = ["a"; "b"] /\
  strings_Split "abc" ":" = ["abc"] /\ strings_Split ":::" "::" = [""; ":"].
Proof. repeat split. Qed.

Example strconv_Atoi_examples :
  strconv_Atoi "6334" = Some 6334 /\ strconv_Atoi "-12" = Some (-12) /\
  strconv_Atoi "+7" = Some 7 /\ strconv_Atoi "" = None /\ strconv_Atoi "-" = None /\
  strconv_Atoi "12a" = None /\ strconv_Atoi "9223372036854775808" = None /\
  strconv_Atoi "-9223372036854775808" = Some (-9223372036854775808).
Proof. repeat split. Qed.

Lemma app_snoc_char (cur : string) (ch : ascii) (s : string) :
  (cur +:+ String ch "") +:+ s = cur +:+ String ch s.
Proof.
  induction cur as [|x cur IH]; [reflexivity|].
  change (String x ((cur +:+ String ch "") +:+ s) = String x (cur +:+ String ch s)).
  now rewrite IH.
Qed.

(** splitting at occurs ":": a colon-free piece is read whole *)
Lemma split_colon_free (a : string) (cur rest : string) :
  occurs ":" a = 0%nat ->
  split_from ":" 0 cur (a +:+ rest) = split_from ":" 0 (cur +:+ a) rest.
Proof.
  revert cur. induction a as [|ch a IH]; intros cur H.
  - change ("" +:+ rest) with rest. f_equal.
    induction cur as [|x cur IHc]; [reflexivity|].
    change (String x cur = String x (cur +:+ "")). now rewrite <- IHc.
  - rewrite occurs_cons in H. destruct (ascii_dec ch ":") as [|N]; [discriminate|].
    change (String ch a +:+ rest) with (String ch (a +:+ rest)). cbn [split_from].
    rewrite prefix_char. destruct (ascii_dec ch ":"); [contradiction|].
    rewrite IH by exact H. now rewrite app_snoc_char.
Qed.

Lemma split_colon_here (cur rest : string) :
  split_from ":" 0 cur (String ":" rest) = cur :: split_from ":" 0 "" rest.
Proof. cbn [split_from]. rewrite prefix_char. reflexivity. Qed.

Lemma split_length (s cur : string) :
  length (split_from ":" 0 cur s) = S (occurs ":" s).
Proof.
  revert cur. induction s as [|ch s IH]; intros cur; [reflexivity|].
  cbn [split_from]. rewrite prefix_char, occurs_cons.
  destruct (ascii_dec ch ":"); cbn [length String.length Nat.sub]; now rewrite IH.
Qed.

Lemma digit_of_digit (d : N) :
  (d < 10)%N -> digit_of (ascii_of_N (48 + d)) = Some (Z.of_N d).
Proof.
  intros H. unfold digit_of. rewrite N_ascii_embedding by lia.
  replace ((48 <=? Z.of_N (48 + d)) && (Z.of_N (48 + d) <=? 57)) with true.
  - f_equal. lia.
  - symmetry. apply andb_true_iff. split; apply Z.leb_le; lia.
Qed.

Lemma digit_not_sign (d : N) :
  (d < 10)%N -> ascii_of_N (48 + d) <> "-"%char /\ ascii_of_N (48 + d) <> "+"%char /\
                ascii_of_N (48 + d) <> ":"%char.
Proof.
  intros H. repeat split; intros E; apply (f_equal N_of_ascii) in E;
    rewrite N_ascii_embedding in E by lia; cbn in E; lia.
Qed.

(** what [%d] prints reads back as the number, whatever follows *)
Lemma parse_fmt_digits (fuel : nat) (n : N) :
  (n < 2 ^ N.of_nat fuel)%N ->
  exists k, 0 <= k /\ forall acc a,
    parse_digits (fmt_digits (S fuel) n acc) a = parse_digits acc (a * 10 ^ k + Z.of_N n).
Proof.
  revert n. induction fuel as [|fuel IH]; intros n Hn.
  - assert (n = 0%N) as -> by (cbn in Hn; lia). exists 1. split; [lia|]. intros acc a.
    cbn [fmt_digits]. cbn [N.ltb N.compare]. cbn [parse_digits].
    change (48 + 0 mod 10)%N with (48 + 0)%N. rewrite digit_of_digit by lia. f_equal; lia.
  - rewrite Nat2N.inj_succ, N.pow_succ_r' in Hn.
    destruct (N.ltb_spec n 10) as [Lt|Ge].
    + exists 1. split; [lia|]. intros acc a. rewrite fmt_digits_S. cbv zeta.
      replace (n <? 10)%N with true by (symmetry; apply N.ltb_lt; lia).
      cbn [parse_digits]. rewrite N.mod_small by lia. rewrite digit_of_digit by lia.
      f_equal; lia.
    + destruct (IH (n / 10)%N) as (k & Hk & P).
      { apply N.Div0.div_lt_upper_bound. lia. }
      exists (k + 1). split; [lia|]. intros acc a. rewrite fmt_digits_S. cbv zeta.
      replace (n <? 10)%N with false by (symmetry; apply N.ltb_ge; lia).
      rewrite P. cbn [parse_digits].
      rewrite digit_of_digit by (apply N.mod_lt; lia). f_equal.
      rewrite Z.pow_add_r by lia.
      pose proof (N.Div0.div_mod n 10) as D.
      assert (Z.of_N n = 10 * Z.of_N (n / 10) + Z.of_N (n mod 10)) by lia. lia.
Qed.

Lemma fmt_digits_head (fuel : nat) (n : N) (acc : string) :
  exists d rest, (d < 10)%N /\ fmt_digits (S fuel) n acc = String (ascii_of_N (48 + d)) rest.
Proof.
  revert n acc. induction fuel as [|fuel IH]; intros n acc.
  - rewrite fmt_digits_S. cbv zeta. exists (n mod 10)%N.
    assert (n mod 10 < 10)%N by (apply N.mod_lt; lia).
    destruct (n <? 10)%N; cbn [fmt_digits]; eauto.
  - rewrite fmt_digits_S. cbv zeta.
    assert (n mod 10 < 10)%N by (apply N.mod_lt; lia).
    destruct (n <? 10)%N; [eauto|]. apply IH.
Qed.

Lemma fmt_digits_colons (fuel : nat) (n : N) (acc : string) :
  occurs ":" (fmt_digits fuel n acc) = occurs ":" acc.
Proof.
  revert n acc. induction fuel as [|fuel IH]; intros n acc; [reflexivity|].
  rewrite fmt_digits_S. cbv zeta.
  assert (E : occurs ":" (String (ascii_of_N (48 + n mod 10)) acc) = occurs ":" acc).
  { rewrite occurs_cons.
    destruct (digit_not_sign (n mod 10)) as (_ & _ & N); [apply N.mod_lt; lia|].
    destruct (ascii_dec _ ":"); [contradiction|reflexivity]. }
  destruct (n <? 10)%N; [exact E|]. now rewrite IH.
Qed.

Lemma fmt_d_colons (z : Z) : occurs ":" (fmt_d z) = 0%nat.
Proof.
  unfold fmt_d. destruct (z <? 0).
  - rewrite occurs_cons, fmt_digits_colons. reflexivity.
  - now rewrite fmt_digits_colons.
Qed.

Lemma Atoi_unsigned (ch : ascii) (rest : string) (n : Z) :
  ch <> "-"%char -> ch <> "+"%char ->
  parse_digits (String ch rest) 0 = Some n -> - 2 ^ 63 <= n < 2 ^ 63 ->
  strconv_Atoi (String ch rest) = Some n.
Proof.
  intros Nm Np P R. unfold strconv_Atoi.
  assert (E : match String ch rest with
              | String "-" rest0 => (true, rest0)
              | String "+" rest0 => (false, rest0)
              | _ => (false, String ch rest)
              end = (false, String ch rest)).
  { destruct ch as [[] [] [] [] [] [] [] []]; try reflexivity; congruence. }
  rewrite E, P.
  replace ((- 2 ^ 63 <=? n) && (n <? 2 ^ 63)) with true; [reflexivity|].
  symmetry. apply andb_true_iff. split; [apply Z.leb_le|apply Z.ltb_lt]; lia.
Qed.

Lemma Atoi_negative (ch : ascii) (rest : string) (n : Z) :
  parse_digits (String ch rest) 0 = Some n -> - 2 ^ 63 <= - n < 2 ^ 63 ->
  strconv_Atoi (String "-" (String ch rest)) = Some (- n).
Proof.
  intros P R. unfold strconv_Atoi. rewrite P.
  replace ((- 2 ^ 63 <=? - n) && (- n <? 2 ^ 63)) with true; [reflexivity|].
  symmetry. apply andb_true_iff. split; [apply Z.leb_le|apply Z.ltb_lt]; lia.
Qed.

(** [strconv.Atoi] reads back what [%d] prints *)
Lemma Atoi_fmt_d (z : Z) :
  - 2 ^ 63 <= z < 2 ^ 63 -> strconv_Atoi (fmt_d z) = Some z.
Proof.
  intros R. unfold fmt_d.
  set (u := Z.abs_N z). set (fuel := N.size_nat u).
  assert (Hu : (u < 2 ^ N.of_nat fuel)%N).
  { unfold fuel. rewrite size_nat_size. apply N.size_gt. }
  destruct (parse_fmt_digits fuel u Hu) as (k & Hk & P).
  destruct (fmt_digits_head fuel u "") as (d & rest & Hd & E).
  destruct (digit_not_sign d Hd) as (Nm & Np & _).
  assert (Parsed : parse_digits (fmt_digits (S fuel) u "") 0 = Some (Z.of_N u)).
  { rewrite P. cbn [parse_digits]. f_equal; lia. }
  rewrite E in *. destruct (Z.ltb_spec z 0) as [Neg|Pos].
  - assert (Ez : Some z = Some (- Z.of_N u)) by (f_equal; unfold u; lia). rewrite Ez.
    apply Atoi_negative; [exact Parsed|]. unfold u. lia.
  - assert (Ez : Some z = Some (Z.of_N u)) by (f_equal; unfold u; lia). rewrite Ez.
    apply Atoi_unsigned; [exact Nm|exact Np|exact Parsed|]. unfold u. lia.
Qed.

Lemma split_whole (a cur : string) :
  occurs ":" a = 0%nat -> split_from ":" 0 cur a = [cur +:+ a].
Proof.
  revert cur. induction a as [|ch a IH]; intros cur H.
  - cbn [split_from]. f_equal. induction cur as [|x cur IHc]; [reflexivity|].
    change (String x cur = String x (cur +:+ "")). now rewrite <- IHc.
  - rewrite occurs_cons in H. destruct (ascii_dec ch ":") as [|N]; [discriminate|].
    cbn [split_from]. rewrite prefix_char. destruct (ascii_dec ch ":"); [contradiction|].
    rewrite IH by exact H. now rewrite app_snoc_char.
Qed.

Lemma split_host_port (host port : string) :
  occurs ":" host = 0%nat -> occurs ":" port = 0%nat ->
  strings_Split (host +:+ ":" +:+ port) ":" = [host; port].
Proof.
  intros Hh Hp. unfold strings_Split. rewrite split_colon_free by exact Hh.
  change (":" +:+ port) with (String ":" port). rewrite split_colon_here.
  now rewrite split_whole.
Qed.

Lemma app_colon_nonempty (host rest : string) : host +:+ ":" +:+ rest <> "".
Proof. destruct host; discriminate. Qed.

(** X20.  [parseQdrantAddress] reads [host:port] back: for a host
    without a colon and a port within the range of [int], the address
    printed as host, colon and decimal port gives that host and that port.
    A host alone gives that host and the default port 6334, and the empty
    address gives [localhost] and 6334. *)
Theorem parseQdrantAddress_reads_host_and_port (host : string) (port : Z) :
  occurs ":" host = 0%nat ->
  - 2 ^ 63 <= port < 2 ^ 63 ->
  parseQdrantAddress (host +:+ ":" +:+ fmt_d port) = (host, port) /\
  parseQdrantAddress host = (if bool_decide (host = "") then "localhost" else host, 6334).
Proof.
  intros Hh Hp. split.
  - unfold parseQdrantAddress.
    rewrite bool_decide_eq_false_2 by apply app_colon_nonempty.
    rewrite split_host_port by (exact Hh || apply fmt_d_colons).
    now rewrite Atoi_fmt_d.
  - unfold parseQdrantAddress. destruct (bool_decide (host = "")); [reflexivity|].
    unfold strings_Split. now rewrite split_whole.
Qed.

Lemma parseQdrantAddress_reads_host_and_port_witness :
  parseQdrantAddress "qdrant:6334" = ("qdrant", 6334) /\
  parseQdrantAddress "qdrant" = ("qdrant", 6334).
Proof.
  apply (parseQdrantAddress_reads_host_and_port "qdrant" 6334); [reflexivity|lia].
Defined.

(** X21.  [parseQdrantAddress] never fails; it falls back to defaults.
    An address with two or more colons (an IPv6 literal or a URL with a
    scheme, for instance) gives [localhost] and 6334, whatever it names.  An
    address [host:port] whose port is not a decimal integer within the range
    of [int] gives that host and the port 6334. *)
Theorem parseQdrantAddress_falls_back_to_defaults (addr : string) :
  ((2 <= occurs ":" addr)%nat -> parseQdrantAddress addr = ("localhost", 6334)) /\
  (forall host port, addr = host +:+ ":" +:+ port ->
     occurs ":" host = 0%nat -> occurs ":" port = 0%nat -> strconv_Atoi port = None ->
     parseQdrantAddress addr = (host, 6334)).
Proof.
  split.
  - intros H. unfold parseQdrantAddress.
    destruct (bool_decide (addr = "")); [reflexivity|].
    pose proof (split_length addr "") as L. fold (strings_Split addr ":") in L.
    destruct (strings_Split addr ":") as [|p0 [|p1 [|p2 l]]]; cbn [length] in L; try lia.
    reflexivity.
  - intros host port -> Hh Hp A. unfold parseQdrantAddress.
    rewrite bool_decide_eq_false_2 by apply app_colon_nonempty.
    rewrite split_host_port by assumption. now rewrite A.
Qed.

Lemma generatePointID_key (uid agentID speakerID : string) (sampleIndex : Z) :
  generatePointID uid agentID speakerID sampleIndex =
  Fnv.Sum64 (Fnv.Write Fnv.New64a (bytes_of_string (point_key uid agentID speakerID sampleIndex))).
Proof. reflexivity. Qed.

Lemma string_app_assoc (a b c : string) : (a +:+ b) +:+ c = a +:+ (b +:+ c).
Proof.
  induction a as [|x a IH]; [reflexivity|].
  change (String x ((a +:+ b) +:+ c) = String x (a +:+ (b +:+ c))). now rewrite IH.
Qed.

Lemma split_field (field rest cur : string) :
  occurs ":" field = 0%nat ->
  split_from ":" 0 cur (field +:+ ":" +:+ rest) = (cur +:+ field) :: split_from ":" 0 "" rest.
Proof.
  intros H. rewrite split_colon_free by exact H.
  change (":" +:+ rest) with (String ":" rest). apply split_colon_here.
Qed.

Lemma point_key_split (uid agentID speakerID : string) (sampleIndex : Z) :
  occurs ":" uid = 0%nat -> occurs ":" agentID = 0%nat -> occurs ":" speakerID = 0%nat ->
  strings_Split (point_key uid agentID speakerID sampleIndex) ":" =
  [uid; agentID; speakerID; fmt_d sampleIndex].
Proof.
  intros Hu Ha Hs. unfold strings_Split, point_key.
  rewrite !split_field by assumption. rewrite split_whole by apply fmt_d_colons. reflexivity.
Qed.

Lemma app_colon_longer (x y : string) : x +:+ ":" +:+ y <> x.
Proof.
  intros E. apply (f_equal String.length) in E.
  assert (L : forall a b, String.length (a +:+ b) = (String.length a + String.length b)%nat).
  { induction a as [|c a IH]; intros b; [reflexivity|].
    change (S (String.length (a +:+ b)) = S (String.length a + String.length b)).
    now rewrite IH. }
  rewrite L in E. change (":" +:+ y) with (String ":" y) in E.
  cbn [String.length] in E. lia.
Qed.

(** X19.  The key that [generatePointID] hashes does not separate its
    fields when they contain colons: the tenants [(x:y, z)] and [(x, y:z)]
    are different, and get the same point ID for every speaker and sample
    index.  For user, agent and speaker IDs without a colon, and sample
    indices within the range of [int], equal keys mean equal fields. *)
Theorem point_id_key_is_ambiguous_only_with_colons :
  (forall x y z speakerID sampleIndex,
     x +:+ ":" +:+ y <> x /\
     generatePointID (x +:+ ":" +:+ y) z speakerID sampleIndex =
     generatePointID x (y +:+ ":" +:+ z) speakerID sampleIndex) /\
  (forall uid agentID speakerID sampleIndex uid' agentID' speakerID' sampleIndex',
     occurs ":" uid = 0%nat -> occurs ":" agentID = 0%nat -> occurs ":" speakerID = 0%nat ->
     occurs ":" uid' = 0%nat -> occurs ":" agentID' = 0%nat -> occurs ":" speakerID' = 0%nat ->
     - 2 ^ 63 <= sampleIndex < 2 ^ 63 -> - 2 ^ 63 <= sampleIndex' < 2 ^ 63 ->
     point_key uid agentID speakerID sampleIndex = point_key uid' agentID' speakerID' sampleIndex' ->
     uid = uid' /\ agentID = agentID' /\ speakerID = speakerID' /\ sampleIndex = sampleIndex').
Proof.
  split.
  - intros x y z speakerID sampleIndex. split; [apply app_colon_longer|].
    rewrite !generatePointID_key. do 3 f_equal. unfold point_key.
    rewrite !string_app_assoc. reflexivity.
  - intros uid agentID speakerID sampleIndex uid' agentID' speakerID' sampleIndex'
      Hu Ha Hs Hu' Ha' Hs' R R' E.
    apply (f_equal (fun k => strings_Split k ":")) in E.
    rewrite !point_key_split in E by assumption.
    injection E as -> -> -> E. repeat split.
    apply (f_equal strconv_Atoi) in E. rewrite !Atoi_fmt_d in E by assumption. congruence.
Qed.

(** ** WAV files *)

(** replacing a byte by an underscore removes it and adds no other byte
    than the underscore *)
Lemma occurs_replace_char (c d : ascii) (s : string) :
  c <> "_"%char ->
  occurs d (strings_ReplaceAll s (String c "") "_") =
  if ascii_dec d c then 0%nat
  else if ascii_dec d "_" then (occurs d s + occurs c s)%nat
  else occurs d s.
Proof.
  intros Nc. unfold strings_ReplaceAll. induction s as [|ch s IH].
  - cbn. destruct (ascii_dec d c), (ascii_dec d "_"); reflexivity.
  - cbn [replace_from]. rewrite prefix_char. cbn [String.length Nat.sub].
    destruct (ascii_dec ch c) as [->|N].
    + change ("_" +:+ replace_from (String c "") "_" 0 s)
        with (String "_" (replace_from (String c "") "_" 0 s)).
      rewrite !occurs_cons, IH.
      destruct (ascii_dec d c) as [->|Ndc].
      * destruct (ascii_dec "_" c); [congruence|reflexivity].
      * destruct (ascii_dec d "_") as [->|Ndu].
        -- destruct (ascii_dec "_" "_"); [|contradiction].
           destruct (ascii_dec c "_"); [contradiction|].
           destruct (ascii_dec c c); [lia|contradiction].
        -- destruct (ascii_dec "_" d); [congruence|].
           destruct (ascii_dec c d); [congruence|]. reflexivity.
    + rewrite !occurs_cons, IH.
      destruct (ascii_dec d c) as [->|Ndc].
      * destruct (ascii_dec ch c); [contradiction|reflexivity].
      * destruct (ascii_dec d "_") as [->|Ndu].
        -- destruct (ascii_dec ch c); [contradiction|]. lia.
        -- reflexivity.
Qed.

(** X22.  The file name under which [saveAudioToWAV] and
    [saveRegisterAudioToWAV] store a recording contains no slash, no
    backslash and no colon, whatever the user ID, the agent ID and the time
    stamp contain: a name built from request data holds no path
    separator. *)
Theorem saved_wav_filename_is_clean (timestamp uid agentID : string) :
  let plain := saveAudioToWAV_filename timestamp uid agentID in
  let register := saveRegisterAudioToWAV_filename timestamp uid agentID in
  occurs "/" plain = 0%nat /\ occurs "092" plain = 0%nat /\ occurs ":" plain = 0%nat /\
  occurs "/" register = 0%nat /\ occurs "092" register = 0%nat /\ occurs ":" register = 0%nat.
Proof.
  assert (G : forall prefix, let f := wav_filename prefix timestamp uid agentID in
            occurs "/" f = 0%nat /\ occurs "092" f = 0%nat /\ occurs ":" f = 0%nat).
  { intros prefix f. subst f. unfold wav_filename. cbv zeta.
    set (name := if _ && _ then _ else _).
    rewrite !occurs_replace_char by discriminate.
    repeat split; repeat (destruct (ascii_dec _ _); try congruence; try reflexivity). }
  intros plain register. destruct (G "") as (A & B & C), (G "register_") as (D & E & F).
  auto 10.
Qed.

Section WavExtras.
Variable strings_ToLower : string -> string.
Variable int_unrepresentable : float32 -> Z.

Lemma stereo_to_mono_length (samples : list float32) :
  Z.of_nat (length (stereo_to_mono samples)) = Z.of_nat (length samples) / 2.
Proof.
  assert (G : forall n (l : list float32), (length l <= n)%nat ->
            Z.of_nat (length (stereo_to_mono l)) = Z.of_nat (length l) / 2).
  { induction n as [|n IH]; intros l L.
    - destruct l; [reflexivity|cbn in L; lia].
    - destruct l as [|a [|b rest]]; try reflexivity.
      cbn [stereo_to_mono length]. rewrite Nat2Z.inj_succ, IH by (cbn in L; lia).
      rewrite !Nat2Z.inj_succ.
      replace (Z.succ (Z.succ (Z.of_nat (length rest)))) with (Z.of_nat (length rest) + 1 * 2) by lia.
      rewrite Z.div_add by lia. lia. }
  apply (G (length samples)). lia.
Qed.

(** X23.  [parseAudioFile] refuses a file whose lower-cased name does
    not end in [.wav], and a file with more than two channels.  When it
    succeeds, the name ends in [.wav], the decoder accepted the file, the
    sample rate is the decoder's, and the number of samples returned is the
    number of decoded values for a mono file and half of it, rounded down,
    for a stereo file. *)
Theorem parseAudioFile_result_shape (NormalizeFactor : float32) (Filename : string)
    (decoder : WavDecoder) :
  let r := parseAudioFile strings_ToLower NormalizeFactor Filename decoder in
  (strings_HasSuffix (strings_ToLower Filename) ".wav" = false ->
   r = Err "only WAV files are supported") /\
  (2 < wav_NumChans decoder -> is_ok r = false) /\
  (forall samples sampleRate, r = Ok (samples, sampleRate) ->
     strings_HasSuffix (strings_ToLower Filename) ".wav" = true /\
     wav_IsValidFile decoder = true /\
     sampleRate = wav_SampleRate decoder /\
     exists Data, wav_FullPCMBuffer decoder = Ok Data /\
       Z.of_nat (length samples) =
         if wav_NumChans decoder =? 2 then Z.of_nat (length Data) / 2
         else Z.of_nat (length Data)).
Proof.
  intros r. subst r. unfold parseAudioFile.
  destruct (strings_HasSuffix (strings_ToLower Filename) ".wav"); cbn [negb].
  2:{ split; [reflexivity|]. split; [reflexivity|]. discriminate. }
  split; [discriminate|].
  destruct (wav_IsValidFile decoder); cbn [negb].
  2:{ split; [reflexivity|]. discriminate. }
  destruct (Z.ltb_spec 2 (wav_NumChans decoder)) as [Gt|Le].
  { split; [reflexivity|]. discriminate. }
  split; [lia|].
  destruct (wav_FullPCMBuffer decoder) as [Data|msg]; [|discriminate].
  intros samples sampleRate [= <- <-]. repeat split. exists Data. split; [reflexivity|].
  destruct (wav_NumChans decoder =? 2).
  - now rewrite stereo_to_mono_length, length_map.
  - now rewrite length_map.
Qed.

Lemma forall_from_spec (fuel : nat) (n : Z) (P : Z -> bool) :
  forall_from fuel n P = true -> forall k, n <= k < n + Z.of_nat fuel -> P k = true.
Proof.
  revert n. induction fuel as [|fuel IH]; intros n H k R; [lia|].
  cbn [forall_from] in H. apply andb_true_iff in H as [H0 H].
  destruct (Z.eq_dec k n) as [->|N]; [exact H0|]. apply (IH _ H). lia.
Qed.

Lemma all_samples_round_trip :
  forall_from (Z.to_nat 65536) (-32768) sample_round_trips = true.
Proof. vm_compute. reflexivity. Qed.

Lemma leb_ltb_false (x y : float32) : F32.leb x y = true -> F32.ltb y x = false.
Proof.
  unfold F32.leb, F32.ltb, SFleb, SFltb. rewrite (SFcompare_antisym x y).
  destruct (SFcompare x y) as [[]|]; simpl; congruence.
Qed.

(** X24.  With the normalisation factor 32768, a 16-bit WAV file that
    is not stereo survives parsing and saving: [parseAudioFile] maps every
    16-bit sample into [[-1, 1)], where the clamp of the conversion loop of
    [saveAudioToWAV] leaves it alone, and that loop gives the decoded
    integers back exactly. *)
Theorem wav_samples_round_trip (Filename : string) (decoder : WavDecoder)
    (Data : list Z) (samples : list float32) (sampleRate : Z) :
  parseAudioFile strings_ToLower (F32.of_Z 32768) Filename decoder = Ok (samples, sampleRate) ->
  wav_NumChans decoder <> 2 ->
  wav_FullPCMBuffer decoder = Ok Data ->
  Forall (fun n => -32768 <= n <= 32767) Data ->
  int16Data (F32.of_Z 32768) int_unrepresentable samples = Data /\
  Forall (fun x => F32.leb F32.neg_one x = true /\ F32.ltb x F32.one = true) samples.
Proof.
  unfold parseAudioFile. intros P N B R.
  destruct (negb (strings_HasSuffix _ _)); [discriminate|].
  destruct (negb (wav_IsValidFile decoder)); [discriminate|].
  destruct (2 <? wav_NumChans decoder); [discriminate|].
  rewrite B in P. replace (wav_NumChans decoder =? 2) with false in P
    by (symmetry; now apply Z.eqb_neq).
  injection P as <- <-. clear B.
  induction R as [|n Data Rn R IH]; [split; constructor|].
  destruct IH as [IH1 IH2].
  assert (C : sample_round_trips n = true).
  { apply (forall_from_spec _ _ _ all_samples_round_trip). lia. }
  unfold sample_round_trips in C. cbv zeta in C.
  apply andb_true_iff in C as [C T]. apply andb_true_iff in C as [Lo Hi].
  cbn [map]. split; [|constructor; [auto|exact IH2]].
  unfold int16Data in *. cbn [map]. rewrite IH1. f_equal.
  set (x := F32.div (F32.of_Z n) (F32.of_Z 32768)) in *.
  assert (H1 : F32.ltb F32.one x = false).
  { unfold F32.ltb, SFltb in *. rewrite (SFcompare_antisym x F32.one).
    destruct (SFcompare x F32.one) as [[]|]; simpl in *; congruence. }
  cbv beta zeta.
  change (F32.div (F32.of_Z n) (binary_round F32.prec F32.emax false 32768 0)) with x.
  rewrite H1, (leb_ltb_false _ _ Lo). unfold to_int.
  destruct (float_trunc (F32.mul x (F32.of_Z 32768))) as [z|]; [|discriminate].
  apply andb_true_iff in T as [T E]. rewrite T. now apply Z.eqb_eq.
Qed.

End WavExtras.

Lemma wav_samples_round_trip_witness :
  int16Data (F32.of_Z 32768) (fun _ => 0)
    (map (fun n => F32.div (F32.of_Z n) (F32.of_Z 32768)) [0; 16384; -32768]) =
  [0; 16384; -32768].
Proof.
  apply (wav_samples_round_trip (fun s => s) (fun _ => 0) "a.wav" demo_decoder
           [0; 16384; -32768] _ 16000).
  - vm_compute. reflexivity.
  - discriminate.
  - reflexivity.
  - repeat constructor; lia.
Defined.

